(** * SSFM backtest engine: a shallow embedding and its verified properties

    The development follows the Python sources module by module:

    - [Binary64]    : the rounding of binary64 float operations
    - [Constants]   : config/constants.py
    - [Settings]    : config/settings.py
    - [PositionMgr] : execution/position_manager.py
    - [Execution]   : execution/execution_engine.py
    - [TradeLedger] : backtest/ledger.py
    - [Engine]      : backtest/engine.py

    Numeric model.  A finite Python [float] is the rational it denotes
    ([Q]); Python [int] values are [Z].  Sums, differences and products
    of prices and PnL are taken exactly; where the result of the code
    depends on the rounding of binary64 arithmetic ([round_to_tick],
    the comparison of instrument ids) the rounding is part of the model,
    through [Binary64.b64].  [pd.Timestamp] values are integers ([Z],
    e.g. nanoseconds since the epoch), which keeps their order.
    Exceptions are values of [PyError]; a function that may raise
    returns a [result]. *)

From Stdlib Require Import ZArith QArith Qround Qabs Qpower List Sorted Bool String Lia Lqa.
Import ListNotations.

Local Open Scope Z_scope.

(* ================================================================== *)
(** ** Exceptions as values *)

Inductive PyError : Type :=
| ValueError_flat_fill              (* compute_fill_price on Direction.FLAT *)
| ValueError_not_a_direction (v : Z) (* Direction(v) with v not in {-1,0,1} *)
| AssertionError                    (* a failed [assert] *)
| IndexError.                       (* [.iloc] out of range *)

Definition result (A : Type) : Type := (PyError + A)%type.

Definition ret {A : Type} (a : A) : result A := inr a.
Definition raise {A : Type} (e : PyError) : result A := inl e.

Definition bind {A B : Type} (m : result A) (k : A -> result B) : result B :=
  match m with
  | inl e => inl e
  | inr a => k a
  end.

Notation "x <- m ;; k" := (bind m (fun x => k))
  (at level 61, m at next level, right associativity).

(** Positional access [seq.iloc[i]] for [0 <= i]. *)
Definition iloc {A : Type} (l : list A) (i : nat) : result A :=
  match nth_error l i with
  | Some a => ret a
  | None => raise IndexError
  end.

(** [seq.iloc[-1]]. *)
Definition iloc_last {A : Type} (l : list A) : result A :=
  match rev l with
  | a :: _ => ret a
  | [] => raise IndexError
  end.

(* ================================================================== *)
(** ** Python's built-in [round] *)

(** [round(x)]: nearest integer, a tie going to the even neighbour. *)
Definition py_round (x : Q) : Z :=
  let f := Qfloor x in
  match (x - inject_Z f ?= 1 # 2)%Q with
  | Lt => f
  | Gt => f + 1
  | Eq => if Z.even f then f else f + 1
  end.

(** [round(x, ndigits)] for [ndigits >= 0]. *)
Definition py_round_ndigits (x : Q) (ndigits : Z) : Q :=
  (inject_Z (py_round (x * inject_Z (10 ^ ndigits))) / inject_Z (10 ^ ndigits))%Q.

(* ================================================================== *)
(** ** binary64 floats

    [b64 x] is the binary64 float nearest to the real number [x], a tie
    going to the even mantissa: 53 bits of mantissa, and the fixed
    quantum [2 ^ -1074] in the subnormal range.  A float operation is the
    exact operation followed by [b64].  Overflow to infinity is not
    modelled (it needs magnitudes near [2 ^ 1024]). *)

Module Binary64.

Definition pow2 (k : Z) : Q := (2 ^ k)%Q.

(** The [e] with [2 ^ e <= x < 2 ^ (e + 1)], for [x > 0]: the difference
    of the bit lengths of numerator and denominator, or one less. *)
Definition exponent (x : Q) : Z :=
  let e0 := Z.log2 (Qnum x) - Z.log2 (Zpos (Qden x)) in
  if Qle_bool (pow2 e0) x then e0 else e0 - 1.

(** The spacing of the floats around [x]. *)
Definition quantum (x : Q) : Q :=
  pow2 (Z.max (exponent (Qabs x) - 52) (-1074)).

Definition b64 (x : Q) : Q :=
  if Qeq_bool x 0 then 0%Q
  else (inject_Z (py_round (x / quantum x)) * quantum x)%Q.

(** The float of a non-negative integer, as an integer: [a] itself
    up to 53 bits, and beyond that [a] rounded to a multiple of the
    power of two that leaves 53 bits, a tie going to the even
    mantissa. *)
Definition round53 (a : Z) : Z :=
  let e := Z.max 0 (Z.log2 a - 52) in
  let m := 2 ^ e in
  let q := a / m in
  let r := a mod m in
  match 2 * r ?= m with
  | Lt => q * m
  | Gt => (q + 1) * m
  | Eq => if Z.even q then q * m else (q + 1) * m
  end.

(** The value of [float(n)] for a Python or numpy integer (int64 stays
    far below the overflow threshold). *)
Definition int_to_float (n : Z) : Z := Z.sgn n * round53 (Z.abs n).

(** [float(n)] for a Python int. *)
Definition of_int (n : Z) : Q := inject_Z (int_to_float n).

(** Float division and multiplication. *)
Definition fdiv (x y : Q) : Q := b64 (x / y).
Definition fmul (x y : Q) : Q := b64 (x * y).

(** [round(x, ndigits)] of a float: the decimal rounding of the exact
    value of [x], converted back to the nearest float. *)
Definition round_ndigits (x : Q) (ndigits : Z) : Q :=
  b64 (py_round_ndigits x ndigits).


End Binary64.

(* ================================================================== *)
(** ** config/constants.py *)

Module Constants.

Definition TICK_SIZE : Q := 5 # 100000.    (* 0.00005 *)
Definition TICK_VALUE : Q := 625 # 100.    (* 6.25 *)

End Constants.

(* ================================================================== *)
(** ** config/settings.py

    [ROLL_CLOSE_SLIPPAGE_TICKS] and [ROLL_FREEZE_BARS_POST] are read by
    the engine as attributes of this module but settings.py does not
    declare them; they are parameters of every definition that reads
    them. *)

Module Settings.

Definition SLIPPAGE_TICKS : Z := 1.
Definition COMMISSION_PER_SIDE : Q := 250 # 100.   (* 2.50 *)

End Settings.

(* ================================================================== *)
(** ** execution/position_manager.py *)

Module PositionMgr.

Inductive Direction : Type := FLAT | LONG | SHORT.

(** [Direction.value] of the IntEnum. *)
Definition value (d : Direction) : Z :=
  match d with
  | FLAT => 0
  | LONG => 1
  | SHORT => -1
  end.

(** The enum call [Direction(v)]: [ValueError] unless [v] is a member. *)
Definition Direction_call (v : Z) : result Direction :=
  if v =? 0 then ret FLAT
  else if v =? 1 then ret LONG
  else if v =? -1 then ret SHORT
  else raise (ValueError_not_a_direction v).

Definition Direction_eqb (a b : Direction) : bool :=
  match a, b with
  | FLAT, FLAT | LONG, LONG | SHORT, SHORT => true
  | _, _ => false
  end.

Record Action : Type := mkAction {
  close_existing : bool;
  open_new : bool;
  new_direction : Direction
}.

(** [Action()] with the dataclass defaults. *)
Definition Action_default : Action := mkAction false false FLAT.

Record PositionManager : Type := mkPositionManager {
  current_direction : Direction;
  entry_bar_index : Z
}.

(** [PositionManager()] with the dataclass defaults. *)
Definition PositionManager_default : PositionManager :=
  mkPositionManager FLAT (-1).

Definition is_flat (self : PositionManager) : bool :=
  Direction_eqb (current_direction self) FLAT.

Definition evaluate_signal (self : PositionManager) (signal : Z) (bar_index : Z)
  : result Action :=
  if signal =? 0 then ret Action_default
  else
    desired <- Direction_call signal ;;
    if Direction_eqb (current_direction self) desired then ret Action_default
    else if is_flat self then ret (mkAction false true desired)
    else ret (mkAction true true desired).

Definition on_open (self : PositionManager) (direction : Direction) (bar_index : Z)
  : PositionManager :=
  mkPositionManager direction bar_index.

Definition on_close (self : PositionManager) : PositionManager :=
  mkPositionManager FLAT (-1).

End PositionMgr.

(* ================================================================== *)
(** ** execution/execution_engine.py *)

Module Execution.
Import PositionMgr.

Section WithSettings.
Variable ROLL_CLOSE_SLIPPAGE_TICKS : Z.

Definition compute_fill_price (direction : Direction) (bar_open : Q)
  (is_roll_close : bool) : result Q :=
  if Direction_eqb direction FLAT then raise ValueError_flat_fill
  else
    let ticks :=
      if is_roll_close then ROLL_CLOSE_SLIPPAGE_TICKS
      else Settings.SLIPPAGE_TICKS in
    let slippage_amount := (inject_Z ticks * Constants.TICK_SIZE)%Q in
    if Direction_eqb direction LONG then ret (bar_open + slippage_amount)%Q
    else ret (bar_open - slippage_amount)%Q.

End WithSettings.

(** [C.TICK_SIZE] is the float of the literal [0.00005]; the division,
    the conversion of the rounded quotient and the product round to
    binary64 before the outer [round(_, 10)]. *)
Definition round_to_tick (price : Q) : Q :=
  let tick := Binary64.b64 Constants.TICK_SIZE in
  Binary64.round_ndigits
    (Binary64.fmul (Binary64.of_int (py_round (Binary64.fdiv price tick)))
                   tick)
    10.

End Execution.

(* ================================================================== *)
(** ** backtest/ledger.py *)

Module TradeLedger.
Import PositionMgr.

Definition Timestamp : Type := Z.

Record Trade : Type := mkTrade {
  trade_id : Z;
  direction : Direction;
  entry_bar : Timestamp;
  exit_bar : Timestamp;
  entry_price : Q;
  exit_price : Q;
  gross_pnl : Q;
  commission : Q;
  net_pnl : Q;
  is_winner : bool;
  r_multiple : option Q          (* [None] stands for float("nan") *)
}.

(** The comparison [x > 0] on prices. *)
Definition Qgtb0 (x : Q) : bool :=
  match (x ?= 0)%Q with
  | Gt => true
  | _ => false
  end.

Definition build_trade (trade_id : Z) (direction : Direction)
  (entry_bar exit_bar : Timestamp) (entry_price exit_price : Q) : Trade :=
  let price_to_usd := (Constants.TICK_VALUE / Constants.TICK_SIZE)%Q in
  let gross_pnl :=
    (inject_Z (value direction) * (exit_price - entry_price) * price_to_usd)%Q in
  let commission := (Settings.COMMISSION_PER_SIDE * 2)%Q in
  let net_pnl := (gross_pnl - commission)%Q in
  mkTrade trade_id direction entry_bar exit_bar entry_price exit_price
          gross_pnl commission net_pnl (Qgtb0 net_pnl) None.

Record Ledger : Type := mkLedger {
  trades : list Trade;
  _next_id : Z
}.

(** [Ledger()] with the dataclass defaults. *)
Definition Ledger_default : Ledger := mkLedger [] 1.

(** [Ledger.record]: the ledger after the append (the returned trade is
    its last element). *)
Definition record (self : Ledger) (direction : Direction)
  (entry_bar exit_bar : Timestamp) (entry_price exit_price : Q) : Ledger :=
  let trade :=
    build_trade (_next_id self) direction entry_bar exit_bar
                entry_price exit_price in
  mkLedger (trades self ++ [trade]) (_next_id self + 1).

End TradeLedger.

(* ================================================================== *)
(** ** backtest/engine.py *)

Module Engine.
Import PositionMgr Execution.

Definition Timestamp : Type := TradeLedger.Timestamp.

(** One row of the M5 DataFrame after [reset_index()].  A frame without
    a [contains_roll] column reads as [false] on every row
    ([bar.get("contains_roll", False)]). *)
Record Bar : Type := mkBar {
  ts_event : Timestamp;
  open : Q;
  high : Q;
  low : Q;
  close : Q;
  contains_roll : bool
}.

Record PendingOrder : Type := mkPendingOrder {
  close_direction : option Direction;
  open_direction : option Direction;
  signal_bar : option Timestamp;
  exit_reason : string
}.

Record BacktestState : Type := mkBacktestState {
  position : PositionManager;
  ledger : TradeLedger.Ledger;
  pending : option PendingOrder;
  entry_price : option Q;
  entry_bar : option Timestamp;
  roll_freeze_remaining : Z
}.

(** [BacktestState()] with the dataclass defaults. *)
Definition BacktestState_default : BacktestState :=
  mkBacktestState PositionManager_default TradeLedger.Ledger_default
                  None None None 0.

(** Attribute assignments [state.<field> = v]. *)
Definition set_position (s : BacktestState) (v : PositionManager) :=
  mkBacktestState v (ledger s) (pending s) (entry_price s) (entry_bar s)
                  (roll_freeze_remaining s).
Definition set_ledger (s : BacktestState) (v : TradeLedger.Ledger) :=
  mkBacktestState (position s) v (pending s) (entry_price s) (entry_bar s)
                  (roll_freeze_remaining s).
Definition set_pending (s : BacktestState) (v : option PendingOrder) :=
  mkBacktestState (position s) (ledger s) v (entry_price s) (entry_bar s)
                  (roll_freeze_remaining s).
Definition set_entry_price (s : BacktestState) (v : option Q) :=
  mkBacktestState (position s) (ledger s) (pending s) v (entry_bar s)
                  (roll_freeze_remaining s).
Definition set_entry_bar (s : BacktestState) (v : option Timestamp) :=
  mkBacktestState (position s) (ledger s) (pending s) (entry_price s) v
                  (roll_freeze_remaining s).
Definition set_roll_freeze_remaining (s : BacktestState) (v : Z) :=
  mkBacktestState (position s) (ledger s) (pending s) (entry_price s)
                  (entry_bar s) v.

Section WithSettings.
Variable ROLL_CLOSE_SLIPPAGE_TICKS : Z.
Variable ROLL_FREEZE_BARS_POST : Z.

(** The "close existing position" block of [_execute_pending]. *)
Definition close_leg (pending : PendingOrder) (state : BacktestState)
  (bar_ts : Timestamp) (bar_open : Q) : result BacktestState :=
  match close_direction pending with
  | Some cd =>
      closing_order_dir <- Direction_call (- value cd) ;;
      fill <- compute_fill_price ROLL_CLOSE_SLIPPAGE_TICKS closing_order_dir
                bar_open (String.eqb (exit_reason pending) "roll") ;;
      let exit_price := round_to_tick fill in
      match entry_price state, entry_bar state with
      | Some e_price, Some e_bar =>
          let state :=
            set_ledger state
              (TradeLedger.record (ledger state) cd e_bar bar_ts
                                  e_price exit_price) in
          let state := set_position state (on_close (position state)) in
          let state := set_entry_price state None in
          ret (set_entry_bar state None)
      | _, _ => raise AssertionError
      end
  | None => ret state
  end.

(** The "open new position" block of [_execute_pending]. *)
Definition open_leg (pending : PendingOrder) (state : BacktestState)
  (bar_ts : Timestamp) (bar_open : Q) : result BacktestState :=
  match open_direction pending with
  | Some od =>
      fill <- compute_fill_price ROLL_CLOSE_SLIPPAGE_TICKS od bar_open false ;;
      let e_price := round_to_tick fill in
      let state := set_position state (on_open (position state) od (-1)) in
      let state := set_entry_price state (Some e_price) in
      ret (set_entry_bar state (Some bar_ts))
  | None => ret state
  end.

Definition _execute_pending (state : BacktestState) (bar_ts : Timestamp)
  (bar_open : Q) : result BacktestState :=
  match pending state with
  | None => raise AssertionError
  | Some pending =>
      state <- close_leg pending state bar_ts bar_open ;;
      state <- open_leg pending state bar_ts bar_open ;;
      ret (set_pending state None)
  end.

Definition _force_close_at_end (state : BacktestState) (bars : list Bar)
  : result BacktestState :=
  if is_flat (position state) then ret state
  else
    last_bar <- iloc_last bars ;;
    let bar_ts := ts_event last_bar in
    let bar_open := open last_bar in
    closing_dir <- Direction_call (- value (current_direction (position state))) ;;
    fill <- compute_fill_price ROLL_CLOSE_SLIPPAGE_TICKS closing_dir bar_open false ;;
    let exit_price := round_to_tick fill in
    match entry_price state, entry_bar state with
    | Some e_price, Some e_bar =>
        let state :=
          set_ledger state
            (TradeLedger.record (ledger state)
               (current_direction (position state)) e_bar bar_ts
               e_price exit_price) in
        ret (set_position state (on_close (position state)))
    | _, _ => raise AssertionError
    end.

(** STEPS 2-4 of the loop body, after the pending order of the previous
    bar has been handled. *)
Definition after_pending (signals : list Z) (i : nat) (bar : Bar)
  (state : BacktestState) : result BacktestState :=
  let bar_ts := ts_event bar in
  if contains_roll bar then
    let state :=
      if negb (is_flat (position state)) then
        set_pending state
          (Some (mkPendingOrder (Some (current_direction (position state)))
                                None (Some bar_ts) "roll"))
      else state in
    ret (set_roll_freeze_remaining state ROLL_FREEZE_BARS_POST)
  else if 0 <? roll_freeze_remaining state then
    ret (set_roll_freeze_remaining state (roll_freeze_remaining state - 1))
  else
    signal_value <- iloc signals i ;;
    action <- evaluate_signal (position state) signal_value (Z.of_nat i) ;;
    if close_existing action || open_new action then
      ret (set_pending state
             (Some (mkPendingOrder
                      (if close_existing action
                       then Some (current_direction (position state))
                       else None)
                      (if open_new action
                       then Some (new_direction action)
                       else None)
                      (Some bar_ts) "signal")))
    else ret (set_pending state None).

(** The body of [for i in range(n_bars)]. *)
Definition bar_step (signals : list Z) (i : nat) (bar : Bar)
  (state : BacktestState) : result BacktestState :=
  state <- match pending state with
           | Some _ => _execute_pending state (ts_event bar) (open bar)
           | None => ret state
           end ;;
  after_pending signals i bar state.

(** The loop over [bars.iloc[i]], [i] counting up from its start value. *)
Fixpoint bar_loop (signals : list Z) (i : nat) (bars : list Bar)
  (state : BacktestState) : result BacktestState :=
  match bars with
  | [] => ret state
  | bar :: rest =>
      state <- bar_step signals i bar state ;;
      bar_loop signals (S i) rest state
  end.

Definition run_backtest (df_m5 : list Bar) (signals : list Z)
  : result BacktestState :=
  let state := BacktestState_default in
  let bars := df_m5 in
  state <- bar_loop signals 0 bars state ;;
  _force_close_at_end state bars.

End WithSettings.

End Engine.

(* ================================================================== *)
(** ** pandas Series and floats

    The data and analytics modules work on pandas Series.  A Series is
    the list of its (index label, value) rows; a float that may be NaN
    is an [option Q] with [None] for NaN; other failures of these
    modules are values of [DataError]. *)

Module Pandas.

Definition Timestamp : Type := Z.

(** A float cell: [None] is NaN. *)
Definition float : Type := option Q.

Definition Series (A : Type) : Type := list (Timestamp * A).

Definition index {A : Type} (s : Series A) : list Timestamp := map fst s.
Definition values {A : Type} (s : Series A) : list A := map snd s.

(** [pd.Series(values, index=idx)] for values as long as the index. *)
Definition make_series {A : Type} (idx : list Timestamp) (v : list A)
  : Series A := combine idx v.

(** [Index.equals]. *)
Fixpoint index_equals (a b : list Timestamp) : bool :=
  match a, b with
  | [], [] => true
  | x :: a', y :: b' => (x =? y) && index_equals a' b'
  | _, _ => false
  end.

(** Element-wise binary operation on two aligned columns. *)
Fixpoint zip_with {A B C : Type} (f : A -> B -> C) (a : list A) (b : list B)
  : list C :=
  match a, b with
  | x :: a', y :: b' => f x y :: zip_with f a' b'
  | _, _ => []
  end.

(** [Series.shift(1)] on the values: the first cell becomes NaN/missing. *)
Definition shift1 {A : Type} (l : list A) : list (option A) :=
  match l with
  | [] => []
  | _ :: _ => None :: map Some (removelast l)
  end.

(** Assignment through a boolean mask, [s.loc[mask] = v]. *)
Definition set_where {A : Type} (s : list A) (mask : list bool) (v : A)
  : list A :=
  zip_with (fun x (m : bool) => if m then v else x) s mask.

(** Comparisons of floats with 0: every comparison with NaN is False. *)
Definition Qltb (x y : Q) : bool :=
  match (x ?= y)%Q with Lt => true | _ => false end.

Definition gt0 (x : float) : bool :=
  match x with Some q => Qltb 0 q | None => false end.
Definition lt0 (x : float) : bool :=
  match x with Some q => Qltb q 0 | None => false end.
Definition ge0 (x : float) : bool :=
  match x with Some q => Qle_bool 0 q | None => false end.
Definition le0 (x : float) : bool :=
  match x with Some q => Qle_bool q 0 | None => false end.
Definition notna {A : Type} (x : option A) : bool :=
  match x with Some _ => true | None => false end.

(** Subtraction of floats: NaN propagates. *)
Definition fsub (a b : float) : float :=
  match a, b with
  | Some x, Some y => Some (x - y)%Q
  | _, _ => None
  end.

(** [Series.sum()] of a column, in row order. *)
Definition col_sum (l : list Q) : Q := fold_left Qplus l 0%Q.

(** [Series.cumsum()]. *)
Fixpoint cumsum_from (acc : Q) (l : list Q) : list Q :=
  match l with
  | [] => []
  | x :: r => (acc + x)%Q :: cumsum_from (acc + x)%Q r
  end.

Definition cumsum (l : list Q) : list Q :=
  match l with
  | [] => []
  | x :: r => x :: cumsum_from x r
  end.

(** The larger and the smaller of two numbers. *)
Definition Qmax2 (a b : Q) : Q := if Qle_bool a b then b else a.
Definition Qmin2 (a b : Q) : Q := if Qle_bool a b then a else b.

(** [Series.cummax()]. *)
Fixpoint cummax_from (acc : Q) (l : list Q) : list Q :=
  match l with
  | [] => []
  | x :: r => Qmax2 acc x :: cummax_from (Qmax2 acc x) r
  end.

Definition cummax (l : list Q) : list Q :=
  match l with
  | [] => []
  | x :: r => x :: cummax_from x r
  end.

End Pandas.

(** The exceptions of the data and analytics modules. *)
Inductive DataError : Type :=
| ValueError_index_mismatch        (* crossover: the two indices differ *)
| ValueError_period (period : Z)   (* ema: period < 2 *)
| ValueError_empty_series          (* ema: empty price series *)
| KeyError_instrument_id           (* roll_manager: column absent *)
| IndexError_empty_curve           (* equity: [iloc] on an empty curve *)
| ValueError_empty_equity          (* drawdown: empty equity series *)
| ValueError_no_trades.            (* performance: empty trade frame *)

(* ================================================================== *)
(** ** signals/crossover.py *)

Module Crossover.
Import Pandas.

Definition generate_crossover_signals (ema_fast ema_slow : Series float)
  : DataError + Series Z :=
  if negb (index_equals (index ema_fast) (index ema_slow))
  then inl ValueError_index_mismatch
  else
    let diff := zip_with fsub (values ema_fast) (values ema_slow) in
    let prev_diff :=
      map (fun c => match c with Some x => x | None => None end)
          (shift1 diff) in
    let valid := zip_with andb (map notna diff) (map notna prev_diff) in
    let cross_up :=
      zip_with andb (zip_with andb valid (map gt0 diff)) (map le0 prev_diff) in
    let cross_dn :=
      zip_with andb (zip_with andb valid (map lt0 diff)) (map ge0 prev_diff) in
    let signal := map (fun _ => 0) (index ema_fast) in
    let signal := set_where signal cross_up 1 in
    let signal := set_where signal cross_dn (-1) in
    inr (make_series (index ema_fast) signal).

End Crossover.

(* ================================================================== *)
(** ** indicators/ema.py

    The price series handed to the EMA holds no NaN (the resampler drops
    the bars without trades), so its values are plain numbers. *)

Module Ema.
Import Pandas.

Definition WARMUP_BARS : nat := 200.   (* settings.WARMUP_BARS *)
Definition EMA_FAST : Z := 20.         (* settings.EMA_FAST *)
Definition EMA_SLOW : Z := 50.         (* settings.EMA_SLOW *)

(** [series.ewm(alpha=alpha, adjust=False).mean()]: the first value is
    the first price; each later one is the average of the previous value
    and the price with the weights [1 - alpha] and [alpha], and pandas
    leaves the value as it is when the price is equal to it. *)
Fixpoint ewm_from (alpha : Q) (y : Q) (xs : list Q) : list Q :=
  match xs with
  | [] => []
  | x :: r =>
      let y' :=
        if Qeq_bool y x then y
        else (((1 - alpha) * y + alpha * x) / ((1 - alpha) + alpha))%Q in
      y' :: ewm_from alpha y' r
  end.

Definition ewm_mean (alpha : Q) (xs : list Q) : list Q :=
  match xs with
  | [] => []
  | x :: r => x :: ewm_from alpha x r
  end.

Definition compute_ema (series : Series Q) (period : Z)
  : DataError + Series float :=
  if period <? 2 then inl (ValueError_period period)
  else
    match series with
    | [] => inl ValueError_empty_series
    | _ :: _ =>
        let alpha := (2 / inject_Z (period + 1))%Q in
        let ema := map Some (ewm_mean alpha (values series)) in
        let warmup := WARMUP_BARS in
        let ema :=
          if (warmup <=? List.length ema)%nat
          then repeat None warmup ++ skipn warmup ema
          else ema in
        inr (make_series (index series) ema)
    end.

Definition compute_ema_pair (close : Series Q)
  (fast_period slow_period : option Z)
  : DataError + (Series float * Series float) :=
  let fp := match fast_period with Some p => p | None => EMA_FAST end in
  let sp := match slow_period with Some p => p | None => EMA_SLOW end in
  match compute_ema close fp with
  | inl e => inl e
  | inr ema_fast =>
      match compute_ema close sp with
      | inl e => inl e
      | inr ema_slow => inr (ema_fast, ema_slow)
      end
  end.

End Ema.

(* ================================================================== *)
(** ** data/roll_manager.py *)

Module RollManager.
Import Pandas.

(** The raw M1 frame as these functions read it: its rows with the
    [instrument_id] column, or only its index when the column is
    absent. *)
Inductive M1Frame : Type :=
| with_instrument_id (col : Series Z)
| without_instrument_id (idx : list Timestamp).

(** [prev = df[id].shift(1)] of the integer id column: the first cell
    becomes NaN, which makes the column float64, so every other cell
    holds the float of the id of the row before. *)
Definition shifted_ids (ids : list Z) : list (option Z) :=
  map (option_map Binary64.int_to_float) (shift1 ids).

(** [(df[id] != prev) & prev.notna()]: the integer column is compared
    with the float64 column [prev], that is, as floats. *)
Definition roll_mask (ids : list Z) : list bool :=
  zip_with (fun (x : Z) (p : option Z) =>
              match p with
              | Some y => negb (Binary64.int_to_float x =? y)
              | None => true
              end && notna p)
           ids (shifted_ids ids).

(** One row of the roll log; [prev_instrument_id] is a cell of the
    float64 column [prev]. *)
Record RollRow : Type := mkRollRow {
  roll_ts : Timestamp;
  prev_instrument_id : Z;
  new_instrument_id : Z
}.

(** The rows of the frame selected by the mask, with the outgoing id. *)
Fixpoint select_rolls (rows : Series Z) (prev : list (option Z))
  (mask : list bool) : list RollRow :=
  match rows, prev, mask with
  | (ts, id) :: rows', p :: prev', m :: mask' =>
      match m, p with
      | true, Some y => mkRollRow ts y id :: select_rolls rows' prev' mask'
      | _, _ => select_rolls rows' prev' mask'
      end
  | _, _, _ => []
  end.

Definition detect_rolls (df : M1Frame) : DataError + list RollRow :=
  match df with
  | without_instrument_id _ => inl KeyError_instrument_id
  | with_instrument_id col =>
      let prev := shifted_ids (values col) in
      let mask := roll_mask (values col) in
      inr (select_rolls col prev mask)
  end.

(** [annotate_rolls]: the added [is_roll] column. *)
Definition annotate_rolls (df : M1Frame) : Series bool :=
  match df with
  | with_instrument_id col =>
      make_series (index col) (roll_mask (values col))
  | without_instrument_id idx =>
      make_series idx (map (fun _ => false) idx)
  end.

End RollManager.

(* ================================================================== *)
(** ** backtest/ledger.py: [Ledger.to_dataframe] *)

Module LedgerFrame.
Import Pandas PositionMgr.

(** [Direction.name]. *)
Definition name (d : Direction) : string :=
  match d with
  | FLAT => "FLAT"
  | LONG => "LONG"
  | SHORT => "SHORT"
  end.

(** One row of the trade frame; [trade_id] is the row's index label. *)
Record TradeRow : Type := mkTradeRow {
  trade_id : Z;
  direction : string;
  entry_bar : Timestamp;
  exit_bar : Timestamp;
  entry_price : Q;
  exit_price : Q;
  gross_pnl : Q;
  commission : Q;
  net_pnl : Q;
  is_winner : bool
}.

(** A trade frame: its rows in order ([DataFrame.empty] is the empty
    list, which is also what [pd.DataFrame()] is). *)
Definition TradeFrame : Type := list TradeRow.

Definition to_dataframe (self : TradeLedger.Ledger) : TradeFrame :=
  match TradeLedger.trades self with
  | [] => []
  | _ :: _ =>
      map (fun t =>
             mkTradeRow (TradeLedger.trade_id t)
                        (name (TradeLedger.direction t))
                        (TradeLedger.entry_bar t) (TradeLedger.exit_bar t)
                        (TradeLedger.entry_price t) (TradeLedger.exit_price t)
                        (TradeLedger.gross_pnl t) (TradeLedger.commission t)
                        (TradeLedger.net_pnl t) (TradeLedger.is_winner t))
          (TradeLedger.trades self)
  end.

End LedgerFrame.

(* ================================================================== *)
(** ** backtest/equity.py *)

Module Equity.
Import Pandas LedgerFrame.

(** [trade_df.groupby("exit_bar")["net_pnl"].sum()] reindexed with
    [fill_value=0.0], read at one label: the sum of the net PnL of the
    rows that exit on that bar, 0 when there is none. *)
Definition pnl_at (trade_df : TradeFrame) (bar : Timestamp) : Q :=
  col_sum (map net_pnl (filter (fun r => exit_bar r =? bar) trade_df)).

Definition build_equity_curve (trade_df : TradeFrame)
  (bar_index : list Timestamp) (initial_capital : Q)
  : DataError + Series Q :=
  match trade_df with
  | [] => inr (make_series bar_index (map (fun _ => initial_capital) bar_index))
  | _ :: _ =>
      let pnl_full := map (pnl_at trade_df) bar_index in
      let equity := map (fun c => (initial_capital + c)%Q) (cumsum pnl_full) in
      match bar_index with
      | [] => inl IndexError_empty_curve   (* equity.iloc[0] in the log call *)
      | _ :: _ => inr (make_series bar_index equity)
      end
  end.

Definition split_equity (equity : Series Q) (split_timestamp : Timestamp)
  : Series Q * Series Q :=
  let equity_is := filter (fun row => fst row <? split_timestamp) equity in
  let equity_oos := filter (fun row => split_timestamp <=? fst row) equity in
  (equity_is, equity_oos).

End Equity.

(* ================================================================== *)
(** ** metrics/drawdown.py *)

Module Drawdown.
Import Pandas.

Record DrawdownResult : Type := mkDrawdownResult {
  max_drawdown_usd : Q;
  max_drawdown_pct : float;
  drawdown_series : Series Q;
  peak_series : Series Q
}.

(** [min()] of a non-empty column. *)
Definition col_min (x : Q) (l : list Q) : Q := fold_left Qmin2 l x.

(** [np.nanmin]: the least non-NaN cell, NaN when every cell is NaN. *)
Fixpoint nanmin (l : list float) : float :=
  match l with
  | [] => None
  | None :: r => nanmin r
  | Some x :: r =>
      match nanmin r with
      | None => Some x
      | Some m => Some (Qmin2 x m)
      end
  end.

Definition compute_drawdown (equity : Series Q) : DataError + DrawdownResult :=
  match values equity with
  | [] => inl ValueError_empty_equity
  | e0 :: erest =>
      let peak := cummax (values equity) in
      let drawdown_usd := zip_with Qminus (values equity) peak in
      let max_dd_usd :=
        match drawdown_usd with
        | d0 :: drest => col_min d0 drest
        | [] => 0%Q
        end in
      let dd_pct :=
        zip_with (fun (p d : Q) =>
                    if negb (Qeq_bool p 0) then Some (d / p)%Q else None)
                 peak drawdown_usd in
      let max_dd_pct := nanmin dd_pct in
      inr (mkDrawdownResult max_dd_usd max_dd_pct
             (make_series (index equity) drawdown_usd)
             (make_series (index equity) peak))
  end.

End Drawdown.

(* ================================================================== *)
(** ** metrics/performance.py

    The power [x ** y] (a number, or infinity when it overflows),
    [np.sqrt] and the sample standard deviation [Series.std()] are
    library functions; they are parameters of the model, which fixes
    everything the code does around them. *)

Module Performance.
Import Pandas LedgerFrame.

(** A float that may also be NaN or infinite. *)
Inductive PyFloat : Type :=
| fin (q : Q)
| nan
| inf.

Definition M5_BARS_PER_YEAR : Q := 69552.

Record PerformanceSummary : Type := mkPerformanceSummary {
  total_trades : nat;
  winning_trades : nat;
  losing_trades : nat;
  win_rate : Q;
  gross_profit : Q;
  gross_loss : Q;
  net_profit : Q;
  profit_factor : PyFloat;
  expectancy : Q;
  avg_win : PyFloat;
  avg_loss : PyFloat;
  cagr : PyFloat;
  sharpe_ratio : PyFloat
}.

(** [Series.mean()] of a non-empty column. *)
Definition col_mean (l : list Q) : Q :=
  (col_sum l / inject_Z (Z.of_nat (List.length l)))%Q.

(** [Series.diff().dropna()]: the differences of neighbouring cells. *)
Fixpoint diffs_from (prev : Q) (l : list Q) : list Q :=
  match l with
  | [] => []
  | x :: r => (x - prev)%Q :: diffs_from x r
  end.

Definition diff_dropna (l : list Q) : list Q :=
  match l with
  | [] => []
  | x :: r => diffs_from x r
  end.

Section WithRealFunctions.
Variable float_pow : Q -> Q -> PyFloat.     (* x ** y, for x > 0; may be inf *)
Variable np_sqrt : Q -> Q.                  (* np.sqrt *)
Variable series_std : list Q -> float.      (* Series.std(), NaN-able *)

Definition _compute_cagr (equity : Series Q) : PyFloat :=
  if (List.length equity <? 2)%nat then nan
  else
    let n_bars := List.length equity in
    let years := (inject_Z (Z.of_nat n_bars) / M5_BARS_PER_YEAR)%Q in
    match values equity, rev (values equity) with
    | start :: _, end_ :: _ =>
        if Qeq_bool start 0 then nan
        else
          let ratio := (end_ / start)%Q in
          if Qle_bool ratio 0 then nan
          else
            match float_pow ratio (1 / years) with
            | fin x => fin (x - 1)%Q
            | other => other
            end
    | _, _ => nan
    end.

Definition _compute_sharpe (equity : Series Q) : PyFloat :=
  if (List.length equity <? 2)%nat then nan
  else
    let bar_returns := diff_dropna (values equity) in
    match series_std bar_returns with
    | Some std =>
        if Qeq_bool std 0 then nan
        else
          let mean := col_mean bar_returns in
          fin ((mean / std) * np_sqrt M5_BARS_PER_YEAR)%Q
    | None => nan             (* NaN == 0 is False, and mean / NaN is NaN *)
    end.

Definition compute_performance (trade_df : TradeFrame) (equity : Series Q)
  : DataError + PerformanceSummary :=
  match trade_df with
  | [] => inl ValueError_no_trades
  | _ :: _ =>
      let pnl := map net_pnl trade_df in
      let winners := filter is_winner trade_df in
      let losers := filter (fun r => negb (is_winner r)) trade_df in
      let total := List.length trade_df in
      let n_win := List.length winners in
      let n_loss := List.length losers in
      let gross_profit :=
        match winners with [] => 0%Q | _ => col_sum (map net_pnl winners) end in
      let gross_loss :=
        match losers with [] => 0%Q | _ => col_sum (map net_pnl losers) end in
      let profit_factor :=
        if negb (Qeq_bool gross_loss 0)
        then fin (gross_profit / Qabs gross_loss)%Q
        else inf in
      let avg_win :=
        match winners with [] => nan | _ => fin (col_mean (map net_pnl winners)) end in
      let avg_loss :=
        match losers with [] => nan | _ => fin (col_mean (map net_pnl losers)) end in
      let cagr := _compute_cagr equity in
      let sharpe := _compute_sharpe equity in
      inr (mkPerformanceSummary total n_win n_loss
             (inject_Z (Z.of_nat n_win) / inject_Z (Z.of_nat total))%Q
             gross_profit gross_loss (gross_profit + gross_loss)%Q
             profit_factor (col_mean pnl) avg_win avg_loss cagr sharpe)
  end.

End WithRealFunctions.

End Performance.

(* ================================================================== *)
(** * Properties *)

Import PositionMgr Execution Engine.

(** ** Vocabulary of the statements *)

(** Negating the value of LONG/SHORT yields the opposite member. *)
Definition opposite (d : Direction) : Direction :=
  match d with
  | FLAT => FLAT
  | LONG => SHORT
  | SHORT => LONG
  end.

(** A signal the signal source may emit. *)
Definition valid_signal (s : Z) : Prop := s = -1 \/ s = 0 \/ s = 1.

(** What a queued order looks like relative to the held direction. *)
Definition pending_ok (dir : Direction) (p : PendingOrder) : Prop :=
  match close_direction p, open_direction p with
  | Some cd, Some od => cd = dir /\ cd <> FLAT /\ od <> FLAT
  | Some cd, None => cd = dir /\ cd <> FLAT
  | None, Some od => dir = FLAT /\ od <> FLAT
  | None, None => False
  end.

(** The entry cache is filled exactly when a position is held. *)
Definition entry_cache_ok (st : BacktestState) : Prop :=
  match current_direction (position st), entry_price st, entry_bar st with
  | FLAT, None, None => True
  | LONG, Some _, Some _ => True
  | SHORT, Some _, Some _ => True
  | _, _, _ => False
  end.

(** The invariant of the bar loop. *)
Definition state_ok (st : BacktestState) : Prop :=
  entry_cache_ok st /\
  match pending st with
  | None => True
  | Some p => pending_ok (current_direction (position st)) p
  end.

(** [t] is a trade built when a close was filled at timestamp [ts]. *)
Definition closed_at (ts : Timestamp) (t : TradeLedger.Trade) : Prop :=
  exists id d e_bar e_price x_price,
    t = TradeLedger.build_trade id d e_bar ts e_price x_price.

(** The ledger's PnL identity for one trade. *)
Definition pnl_exact (t : TradeLedger.Trade) : Prop :=
  (TradeLedger.net_pnl t ==
     inject_Z (value (TradeLedger.direction t)) *
     (TradeLedger.exit_price t - TradeLedger.entry_price t) *
     (Constants.TICK_VALUE / Constants.TICK_SIZE) -
     2 * Settings.COMMISSION_PER_SIDE)%Q /\
  (TradeLedger.is_winner t = true <-> (0 < TradeLedger.net_pnl t)%Q).

(** What the engine reads of a bar. *)
Definition visible (b : Bar) : Timestamp * Q * bool :=
  (ts_event b, open b, contains_roll b).

(** Bars in chronological order (timestamps never decrease). *)
Definition chronological (bars : list Bar) : Prop :=
  StronglySorted Z.le (map ts_event bars).

(** A close-only order with exit reason "signal" for the held position. *)
Definition normal_close (st : BacktestState) : PendingOrder :=
  mkPendingOrder (Some (current_direction (position st))) None None "signal".

(** The result is the [ValueError] of [compute_fill_price]. *)
Definition is_flat_fill_error {A : Type} (r : result A) : bool :=
  match r with
  | inl ValueError_flat_fill => true
  | _ => false
  end.

(** The [k]-th trade of a ledger (counting from 0) has id [k + 1]. *)
Definition ids_sequential (led : TradeLedger.Ledger) : Prop :=
  forall (k : nat) (t : TradeLedger.Trade),
    nth_error (TradeLedger.trades led) k = Some t ->
    TradeLedger.trade_id t = Z.of_nat k + 1.

(** The id bookkeeping of a ledger: ids count up from 1 and [_next_id]
    is the next one. *)
Definition ledger_counted (led : TradeLedger.Ledger) : Prop :=
  ids_sequential led /\
  TradeLedger._next_id led =
    Z.of_nat (List.length (TradeLedger.trades led)) + 1.

(** A bar whose high, low and close repeat its open. *)
Definition bar_at (ts : Timestamp) (o : Q) (roll : bool) : Bar :=
  mkBar ts o o o o roll.

(** The scenario of the specification: opens 1.1000, 1.1010, 1.1005,
    1.0995 and signals 0, +1, 0, -1. *)
Definition scenario_bars : list Bar :=
  [bar_at 0 (11000 # 10000) false; bar_at 1 (11010 # 10000) false;
   bar_at 2 (11005 # 10000) false; bar_at 3 (10995 # 10000) false].

(** The signals of the scenario. *)
Definition scenario_signals : list Z := [0; 1; 0; -1].

(** The same bars with other high, low and close columns. *)
Definition scenario_bars_other_hlc : list Bar :=
  [mkBar 0 (11000 # 10000) (3 # 1) (1 # 2) (2 # 1) false;
   mkBar 1 (11010 # 10000) (4 # 1) (1 # 3) (5 # 2) false;
   mkBar 2 (11005 # 10000) (9 # 1) (1 # 9) (7 # 3) false;
   mkBar 3 (10995 # 10000) (8 # 1) (1 # 7) (6 # 5) false].

(** A long signal on the bar just before a roll bar. *)
Definition roll_bars : list Bar :=
  [bar_at 0 (11000 # 10000) false; bar_at 1 (11010 # 10000) true;
   bar_at 2 (11005 # 10000) false].

(** The signals that go with [roll_bars]. *)
Definition roll_signals : list Z := [1; 0; 0].

(** A LONG position with a roll close queued on bar 5. *)
Definition roll_close_state : BacktestState :=
  mkBacktestState (mkPositionManager LONG (-1)) TradeLedger.Ledger_default
    (Some (mkPendingOrder (Some LONG) None (Some 5) "roll"))
    (Some (11000 # 10000)%Q) (Some 3) 2.

(** A flat state with a long entry queued on bar 1. *)
Definition queued_entry_state : BacktestState :=
  mkBacktestState PositionManager_default TradeLedger.Ledger_default
    (Some (mkPendingOrder None (Some LONG) (Some 1) "signal"))
    None None 0.

(** The trades of a state laid out on the time line up to [T]: every
    trade is LONG or SHORT and exits at or after its entry and by [T],
    a trade exits before every later trade enters, and the open entry,
    if any, is at or after every recorded exit. *)
Definition timeline_ok (T : Timestamp) (st : BacktestState) : Prop :=
  Forall (fun t => TradeLedger.direction t <> FLAT /\
                   TradeLedger.entry_bar t <= TradeLedger.exit_bar t /\
                   TradeLedger.exit_bar t <= T)
         (TradeLedger.trades (ledger st)) /\
  ForallOrdPairs (fun a b => TradeLedger.exit_bar a <= TradeLedger.entry_bar b)
                 (TradeLedger.trades (ledger st)) /\
  (forall eb, entry_bar st = Some eb ->
              eb <= T /\
              Forall (fun t => TradeLedger.exit_bar t <= eb)
                     (TradeLedger.trades (ledger st))).
(** The crossover rule for one row, from the EMA difference [d] of the
    row and the difference [p] of the row before: -1 on a cross below,
    +1 on a cross above, 0 otherwise (also when either is NaN). *)
Definition crossover_rule (d p : Pandas.float) : Z :=
  let valid := Pandas.notna d && Pandas.notna p in
  if (valid && Pandas.lt0 d) && Pandas.ge0 p then -1
  else if (valid && Pandas.gt0 d) && Pandas.le0 p then 1
  else 0.

(** Each cell paired with the cell before it, [p] before the first. *)
Fixpoint with_prev {A : Type} (p : A) (l : list A) : list (A * A) :=
  match l with
  | [] => []
  | d :: r => (d, p) :: with_prev d r
  end.

(** The signal column of [generate_crossover_signals], row by row. *)
Definition crossover_values (ema_fast ema_slow : Pandas.Series Pandas.float)
  : list Z :=
  map (fun c => crossover_rule (fst c) (snd c))
      (with_prev None
         (Pandas.zip_with Pandas.fsub (Pandas.values ema_fast)
                          (Pandas.values ema_slow))).

(** The close column of the bar frame, [df_m5["close"]]. *)
Definition close_column (bars : list Bar) : Pandas.Series Q :=
  map (fun b => (ts_event b, Engine.close b)) bars.

(** The mask rule of [roll_mask] for one row, from its id [x] and the
    shifted id [p]. *)
Definition roll_rule (x : Z) (p : option Z) : bool :=
  match p with
  | Some y => negb (Binary64.int_to_float x =? y)
  | None => true
  end && Pandas.notna p.

(** A cell of a float64 column of integers: NaN or the value of a float. *)
Definition float_cell (p : option Z) : Prop :=
  match p with
  | Some y => Binary64.int_to_float y = y
  | None => True
  end.

(** The winner flag of a row of the trade frame is the sign of its PnL. *)
Definition winner_flag_ok (r : LedgerFrame.TradeRow) : Prop :=
  LedgerFrame.is_winner r = true <-> (0 < LedgerFrame.net_pnl r)%Q.

(** [df_m5.index]: the bar timestamps. *)
Definition bar_index (bars : list Bar) : list Pandas.Timestamp :=
  map ts_event bars.

(** Bars with strictly increasing timestamps. *)
Definition strictly_chronological (bars : list Bar) : Prop :=
  StronglySorted Z.lt (bar_index bars).

(** Six bars on which a long entry is reversed into a short one that is
    still held at the end: opens 1.1000, 1.1010, 1.1020, 1.1030,
    1.1015, 1.1030. *)
Definition swing_bars : list Bar :=
  [bar_at 0 (11000 # 10000) false; bar_at 1 (11010 # 10000) false;
   bar_at 2 (11020 # 10000) false; bar_at 3 (11030 # 10000) false;
   bar_at 4 (11015 # 10000) false; bar_at 5 (11030 # 10000) false].

(** The signals that go with [swing_bars]. *)
Definition swing_signals : list Z := [1; 0; 0; -1; 0; 0].

(** A LONG position entered on bar 1, nothing queued, no freeze. *)
Definition long_state : BacktestState :=
  mkBacktestState (mkPositionManager LONG (-1)) TradeLedger.Ledger_default
    None (Some (110105 # 100000)%Q) (Some 1) 0.

(** Two short EMA columns that cross upwards on row 2 and downwards on
    row 4. *)
Definition cross_fast : Pandas.Series Pandas.float :=
  [(0, None); (1, Some 1%Q); (2, Some 3%Q); (3, Some 2%Q); (4, Some 1%Q)].

Definition cross_slow : Pandas.Series Pandas.float :=
  [(0, None); (1, Some 2%Q); (2, Some 2%Q); (3, Some 2%Q); (4, Some 2%Q)].

(** Three equal prices, fewer than the warmup. *)
Definition flat_prices : Pandas.Series Q :=
  [(0, 11 # 10); (1, 11 # 10); (2, 11 # 10)].

(** 202 prices, rising by 1 from 100. *)
Definition ramp_prices : Pandas.Series Q :=
  map (fun i => (Z.of_nat i, inject_Z (100 + Z.of_nat i))) (seq 0 202).

(** An [instrument_id] column with one roll, on row 2. *)
Definition id_column : Pandas.Series Z := [(0, 7); (1, 7); (2, 8); (3, 8)].

(** Two neighbouring ids beyond 53 bits, which have the same float. *)
Definition large_id_column : Pandas.Series Z :=
  [(0, 2 ^ 53); (1, 2 ^ 53 + 1)].

(** A trade frame of two trades, a winner exiting on bar 4 and a loser
    exiting on bar 5, and the index of the six bars. *)
Definition sample_frame : LedgerFrame.TradeFrame :=
  [LedgerFrame.mkTradeRow 1 "LONG" 1 4 (110105 # 100000) (110145 # 100000)
     50 5 45 true;
   LedgerFrame.mkTradeRow 2 "SHORT" 4 5 (110145 # 100000) (110305 # 100000)
     (-200) 5 (-205) false].

Definition sample_index : list Pandas.Timestamp := [0; 1; 2; 3; 4; 5].

(** The equity curve of [sample_frame] for an account funded with 1000. *)
Definition sample_curve : Pandas.Series Q :=
  [(0, 1000%Q); (1, 1000%Q); (2, 1000%Q); (3, 1000%Q); (4, 1045%Q);
   (5, 840%Q)].


(** ** Proofs *)

(** The two settings that settings.py leaves undeclared are arbitrary
    throughout; the abbreviations below are the engine's functions at
    these settings. *)
Section Properties.
Variable ROLL_CLOSE_SLIPPAGE_TICKS : Z.
Variable ROLL_FREEZE_BARS_POST : Z.

Abbreviation fill_price := (compute_fill_price ROLL_CLOSE_SLIPPAGE_TICKS).
Abbreviation execute_pending := (_execute_pending ROLL_CLOSE_SLIPPAGE_TICKS).
Abbreviation force_close := (_force_close_at_end ROLL_CLOSE_SLIPPAGE_TICKS).
Abbreviation step := (bar_step ROLL_CLOSE_SLIPPAGE_TICKS ROLL_FREEZE_BARS_POST).
Abbreviation loop := (bar_loop ROLL_CLOSE_SLIPPAGE_TICKS ROLL_FREEZE_BARS_POST).
Abbreviation run := (run_backtest ROLL_CLOSE_SLIPPAGE_TICKS ROLL_FREEZE_BARS_POST).

(** The price a fill of direction [d] gets before rounding. *)
Definition slipped (d : Direction) (bar_open : Q) (is_roll_close : bool) : Q :=
  let ticks := if is_roll_close then ROLL_CLOSE_SLIPPAGE_TICKS
               else Settings.SLIPPAGE_TICKS in
  match d with
  | LONG => bar_open + inject_Z ticks * Constants.TICK_SIZE
  | _ => bar_open - inject_Z ticks * Constants.TICK_SIZE
  end%Q.

(** The state [_execute_pending] leaves, written out leg by leg. *)
Definition executed (st : BacktestState) (p : PendingOrder)
  (bar_ts : Timestamp) (bar_open : Q) : BacktestState :=
  let st1 :=
    match close_direction p, entry_price st, entry_bar st with
    | Some cd, Some e_price, Some e_bar =>
        mkBacktestState
          (on_close (position st))
          (TradeLedger.record (ledger st) cd e_bar bar_ts e_price
             (round_to_tick
                (slipped (opposite cd) bar_open
                         (String.eqb (exit_reason p) "roll"))))
          (pending st) None None (roll_freeze_remaining st)
    | _, _, _ => st
    end in
  let st2 :=
    match open_direction p with
    | Some od =>
        mkBacktestState
          (on_open (position st1) od (-1)) (ledger st1) (pending st1)
          (Some (round_to_tick (slipped od bar_open false)))
          (Some bar_ts) (roll_freeze_remaining st1)
    | None => st1
    end in
  set_pending st2 None.

(** The state after STEP 1 of a bar. *)
Definition after_step1 (st : BacktestState) (bar : Bar) : BacktestState :=
  match pending st with
  | Some p => executed st p (ts_event bar) (open bar)
  | None => st
  end.

(** The state a forced close leaves when a position is held. *)
Definition force_closed (st : BacktestState) (last_bar : Bar)
  (e_price : Q) (e_bar : Timestamp) : BacktestState :=
  let dir := current_direction (position st) in
  set_position
    (set_ledger st
       (TradeLedger.record (ledger st) dir e_bar (ts_event last_bar) e_price
          (round_to_tick (slipped (opposite dir) (open last_bar) false))))
    (on_close (position st)).

(** ** The error monad and directions *)

Lemma bind_inr {A B : Type} (m : result A) (k : A -> result B) (b : B) :
  bind m k = inr b -> exists a, m = inr a /\ k a = inr b.
Proof.
  destruct m as [e | a]; simpl; intros H; [discriminate | eauto].
Qed.

Lemma bind_ret_l {A B : Type} (a : A) (k : A -> result B) :
  bind (ret a) k = k a.
Proof. reflexivity. Qed.

(** Splits an equation [bind m k = inr b] of the context. *)
Ltac bind_inv H :=
  let a := fresh "a" in
  let Ha := fresh "Ha" in
  apply bind_inr in H; destruct H as (a & Ha & H).

Lemma Direction_eqb_eq (a b : Direction) : Direction_eqb a b = true <-> a = b.
Proof. destruct a, b; simpl; split; congruence. Qed.

Lemma Direction_call_value (d : Direction) : Direction_call (value d) = ret d.
Proof. destruct d; reflexivity. Qed.

Lemma Direction_call_neg (d : Direction) :
  Direction_call (- value d) = ret (opposite d).
Proof. destruct d; reflexivity. Qed.

Lemma Direction_call_inr (v : Z) (d : Direction) :
  Direction_call v = inr d -> v = value d.
Proof.
  unfold Direction_call.
  destruct (v =? 0) eqn:E0; [apply Z.eqb_eq in E0; intros [= <-]; auto |].
  destruct (v =? 1) eqn:E1; [apply Z.eqb_eq in E1; intros [= <-]; auto |].
  destruct (v =? -1) eqn:E2; [apply Z.eqb_eq in E2; intros [= <-]; auto |].
  discriminate.
Qed.

Lemma fill_price_not_flat (d : Direction) (p : Q) (b : bool) :
  d <> FLAT -> fill_price d p b = ret (slipped d p b).
Proof. destruct d; intros H; [congruence | reflexivity | reflexivity]. Qed.

Lemma fill_price_flat (p : Q) (b : bool) :
  fill_price FLAT p b = raise ValueError_flat_fill.
Proof. reflexivity. Qed.

Lemma fill_price_inr (d : Direction) (p : Q) (b : bool) (f : Q) :
  fill_price d p b = inr f -> d <> FLAT /\ f = slipped d p b.
Proof.
  destruct d; simpl; intros H; [discriminate | |]; inversion H; split; congruence.
Qed.

Lemma opposite_not_flat (d : Direction) : d <> FLAT -> opposite d <> FLAT.
Proof. destruct d; simpl; congruence. Qed.

(** *** [_execute_pending] on a well-formed state *)

Lemma execute_pending_ok (st : BacktestState) (p : PendingOrder)
  (bar_ts : Timestamp) (bar_open : Q) :
  state_ok st -> pending st = Some p ->
  execute_pending st bar_ts bar_open = ret (executed st p bar_ts bar_open).
Proof.
  intros [Hc Hp] E. rewrite E in Hp.
  unfold _execute_pending, executed, close_leg, open_leg. rewrite E.
  unfold pending_ok in Hp. unfold entry_cache_ok in Hc.
  destruct st as [[dir idx] led pend ep eb fr]; simpl in *.
  destruct (close_direction p) as [cd|], (open_direction p) as [od|];
    simpl; try contradiction.
  - destruct Hp as (-> & Hcd & Hod).
    rewrite Direction_call_neg, bind_ret_l.
    rewrite (fill_price_not_flat _ _ _ (opposite_not_flat _ Hcd)), bind_ret_l.
    destruct dir, ep, eb; try contradiction; try congruence;
      simpl; rewrite (fill_price_not_flat _ _ _ Hod); reflexivity.
  - destruct Hp as (-> & Hcd).
    rewrite Direction_call_neg, bind_ret_l.
    rewrite (fill_price_not_flat _ _ _ (opposite_not_flat _ Hcd)), bind_ret_l.
    destruct dir, ep, eb; try contradiction; try congruence; reflexivity.
  - destruct Hp as (-> & Hod).
    rewrite (fill_price_not_flat _ _ _ Hod). reflexivity.
Qed.

Lemma executed_state_ok (st : BacktestState) (p : PendingOrder)
  (bar_ts : Timestamp) (bar_open : Q) :
  state_ok st -> pending st = Some p ->
  state_ok (executed st p bar_ts bar_open) /\
  pending (executed st p bar_ts bar_open) = None.
Proof.
  intros [Hc Hp] E. rewrite E in Hp. split; [| reflexivity].
  unfold state_ok, executed, entry_cache_ok, pending_ok in *.
  destruct st as [[dir idx] led pend ep eb fr]; simpl in *.
  destruct (close_direction p) as [cd|], (open_direction p) as [od|];
    try contradiction;
    destruct dir, ep, eb; simpl in *; try tauto;
    try (destruct od; simpl; tauto);
    try (destruct Hp as (? & ?); congruence).
Qed.

(** *** STEPS 2-4 *)

Lemma evaluate_signal_valid (pm : PositionManager) (s i : Z) :
  valid_signal s -> exists a, evaluate_signal pm s i = inr a.
Proof.
  intros [-> | [-> | ->]]; unfold evaluate_signal; simpl;
    destruct pm as [[] idx]; simpl; eauto.
Qed.

(** The action table of [evaluate_signal]. *)
Lemma evaluate_signal_inr (pm : PositionManager) (s i : Z) (a : Action) :
  evaluate_signal pm s i = inr a ->
  (a = Action_default /\
   (s = 0 \/ s = value (current_direction pm))) \/
  (exists d, s = value d /\ d <> FLAT /\ d <> current_direction pm /\
     a = mkAction (negb (is_flat pm)) true d).
Proof.
  unfold evaluate_signal.
  destruct (s =? 0) eqn:E0.
  - apply Z.eqb_eq in E0. intros [= <-]. auto.
  - apply Z.eqb_neq in E0. intros H. bind_inv H.
    apply Direction_call_inr in Ha. subst s.
    destruct (Direction_eqb (current_direction pm) a0) eqn:Ed.
    + apply Direction_eqb_eq in Ed. subst a0. inversion H. auto.
    + right. exists a0. split; [reflexivity |].
      assert (a0 <> current_direction pm).
      { intros ->. destruct (current_direction pm); discriminate. }
      assert (a0 <> FLAT) by (intros ->; simpl in E0; congruence).
      repeat split; auto.
      destruct (is_flat pm); inversion H; reflexivity.
Qed.

Lemma after_pending_state_ok (signals : list Z) (i : nat) (bar : Bar)
  (st st' : BacktestState) :
  state_ok st -> pending st = None ->
  after_pending ROLL_FREEZE_BARS_POST signals i bar st = inr st' ->
  state_ok st' /\ ledger st' = ledger st /\ position st' = position st /\
  entry_price st' = entry_price st /\ entry_bar st' = entry_bar st.
Proof.
  intros [Hc _] E. unfold after_pending.
  destruct (contains_roll bar).
  - intros [= <-]. unfold state_ok, entry_cache_ok, pending_ok in *.
    destruct st as [[dir idx] led pend ep eb fr]; simpl in *. subst pend.
    destruct dir; simpl; repeat split; auto; congruence.
  - destruct (0 <? roll_freeze_remaining st).
    + intros [= <-]. unfold state_ok. simpl. rewrite E. auto.
    + intros H. bind_inv H. bind_inv H.
      apply evaluate_signal_inr in Ha0.
      destruct Ha0 as [(-> & _) | (d & _ & Hd & Hne & ->)]; simpl in H.
      * inversion H. unfold state_ok. simpl. auto.
      * rewrite orb_true_r in H. inversion H. clear H.
        unfold state_ok, entry_cache_ok, pending_ok, is_flat in *.
        destruct st as [[dir idx] led pend ep eb fr]; simpl in *.
        destruct dir; simpl; repeat split; auto; congruence.
Qed.

Lemma after_pending_total (signals : list Z) (i : nat) (bar : Bar)
  (st : BacktestState) (s : Z) :
  nth_error signals i = Some s -> valid_signal s ->
  exists st', after_pending ROLL_FREEZE_BARS_POST signals i bar st = inr st'.
Proof.
  intros Hn Hs. unfold after_pending.
  destruct (contains_roll bar); [eauto |].
  destruct (0 <? roll_freeze_remaining st); [eauto |].
  unfold iloc. rewrite Hn, bind_ret_l.
  destruct (evaluate_signal_valid (position st) s (Z.of_nat i) Hs) as [a ->].
  rewrite bind_ret_l. destruct (close_existing a || open_new a); eauto.
Qed.

(** *** One bar *)

Lemma step_unfold (signals : list Z) (i : nat) (bar : Bar)
  (st : BacktestState) :
  state_ok st ->
  step signals i bar st =
  after_pending ROLL_FREEZE_BARS_POST signals i bar (after_step1 st bar).
Proof.
  intros Hok. unfold bar_step, after_step1.
  destruct (pending st) as [p |] eqn:E; [| reflexivity].
  rewrite (execute_pending_ok st p _ _ Hok E). reflexivity.
Qed.

Lemma after_step1_ok (st : BacktestState) (bar : Bar) :
  state_ok st ->
  state_ok (after_step1 st bar) /\ pending (after_step1 st bar) = None.
Proof.
  intros Hok. unfold after_step1.
  destruct (pending st) as [p |] eqn:E; [| auto].
  apply executed_state_ok; assumption.
Qed.

Lemma step_state_ok (signals : list Z) (i : nat) (bar : Bar)
  (st st' : BacktestState) :
  state_ok st -> step signals i bar st = inr st' -> state_ok st'.
Proof.
  intros Hok H. rewrite (step_unfold _ _ _ _ Hok) in H.
  destruct (after_step1_ok st bar Hok) as [H1 H2].
  apply (after_pending_state_ok _ _ _ _ _ H1 H2 H).
Qed.

Lemma step_total (signals : list Z) (i : nat) (bar : Bar)
  (st : BacktestState) (s : Z) :
  state_ok st -> nth_error signals i = Some s -> valid_signal s ->
  exists st', step signals i bar st = inr st'.
Proof.
  intros Hok Hn Hs. rewrite (step_unfold _ _ _ _ Hok).
  eapply after_pending_total; eassumption.
Qed.

(** *** The ledger only grows, by trades closed at the current bar *)

Lemma after_step1_ledger (st : BacktestState) (bar : Bar) :
  exists l,
    TradeLedger.trades (ledger (after_step1 st bar)) =
      TradeLedger.trades (ledger st) ++ l /\
    Forall (closed_at (ts_event bar)) l.
Proof.
  unfold after_step1.
  destruct (pending st) as [p |]; [| exists []; rewrite app_nil_r; auto].
  unfold executed.
  destruct (close_direction p) as [cd |], (entry_price st) as [ep |],
    (entry_bar st) as [eb |];
    destruct (open_direction p) as [od |]; simpl;
    try (exists []; rewrite app_nil_r; split; [reflexivity | constructor]);
    (eexists; split; [reflexivity |]; repeat constructor;
     unfold closed_at; eauto 10).
Qed.

Lemma step_ledger (signals : list Z) (i : nat) (bar : Bar)
  (st st' : BacktestState) :
  state_ok st -> step signals i bar st = inr st' ->
  exists l,
    TradeLedger.trades (ledger st') = TradeLedger.trades (ledger st) ++ l /\
    Forall (closed_at (ts_event bar)) l.
Proof.
  intros Hok H. rewrite (step_unfold _ _ _ _ Hok) in H.
  destruct (after_step1_ok st bar Hok) as [H1 H2].
  destruct (after_pending_state_ok _ _ _ _ _ H1 H2 H) as (_ & -> & _).
  apply after_step1_ledger.
Qed.

(** *** The whole loop *)

Lemma loop_state_ok (signals : list Z) (bars : list Bar) :
  forall (i : nat) (st st' : BacktestState),
    state_ok st -> loop signals i bars st = inr st' -> state_ok st'.
Proof.
  induction bars as [| bar rest IH]; simpl; intros i st st' Hok H.
  - inversion H. subst. assumption.
  - bind_inv H. eapply IH; [| exact H]. eapply step_state_ok; eassumption.
Qed.

Lemma loop_total (signals : list Z) (bars : list Bar) :
  Forall valid_signal signals ->
  forall (i : nat) (st : BacktestState),
    (i + List.length bars <= List.length signals)%nat -> state_ok st ->
    exists st', loop signals i bars st = inr st'.
Proof.
  intros Hsig. induction bars as [| bar rest IH]; simpl; intros i st Hlen Hok.
  - eauto.
  - destruct (nth_error signals i) as [s |] eqn:En.
    2:{ apply nth_error_None in En. lia. }
    assert (Hs : valid_signal s).
    { rewrite Forall_forall in Hsig. apply Hsig.
      eapply nth_error_In; eassumption. }
    destruct (step_total signals i bar st s Hok En Hs) as [st1 E1].
    rewrite E1, bind_ret_l. apply IH; [lia |].
    eapply step_state_ok; eassumption.
Qed.

Lemma loop_ledger (signals : list Z) (bars : list Bar) :
  forall (i : nat) (st st' : BacktestState),
    state_ok st -> loop signals i bars st = inr st' ->
    exists l,
      TradeLedger.trades (ledger st') = TradeLedger.trades (ledger st) ++ l /\
      Forall (fun t => exists b, In b bars /\ closed_at (ts_event b) t) l.
Proof.
  induction bars as [| bar rest IH]; simpl; intros i st st' Hok H.
  - inversion H. subst. exists []. rewrite app_nil_r. auto.
  - bind_inv H.
    destruct (step_ledger _ _ _ _ _ Hok Ha) as (l1 & E1 & F1).
    assert (Hok1 : state_ok a) by (eapply step_state_ok; eassumption).
    destruct (IH _ _ _ Hok1 H) as (l2 & E2 & F2).
    exists (l1 ++ l2). split.
    + rewrite E2, E1, app_assoc. reflexivity.
    + apply Forall_app. split.
      * eapply Forall_impl; [| exact F1]. intros t Ht. exists bar. auto.
      * eapply Forall_impl; [| exact F2]. intros t (b & Hb & Ht).
        exists b. auto.
Qed.

Lemma default_state_ok : state_ok BacktestState_default.
Proof. split; exact I. Qed.

(** *** [_force_close_at_end] *)

Lemma iloc_last_app {A : Type} (l : list A) (a : A) :
  iloc_last (l ++ [a]) = ret a.
Proof. unfold iloc_last. rewrite rev_app_distr. reflexivity. Qed.

Lemma iloc_last_In {A : Type} (l : list A) (a : A) :
  iloc_last l = inr a -> exists front, l = front ++ [a].
Proof.
  unfold iloc_last. destruct (rev l) as [| x r] eqn:E; [discriminate |].
  intros [= ->]. exists (rev r).
  rewrite <- (rev_involutive l), E. reflexivity.
Qed.

Lemma force_close_held (st : BacktestState) (bars : list Bar) (last_bar : Bar) :
  state_ok st -> is_flat (position st) = false ->
  iloc_last bars = inr last_bar ->
  exists e_price e_bar,
    entry_price st = Some e_price /\ entry_bar st = Some e_bar /\
    force_close st bars = ret (force_closed st last_bar e_price e_bar).
Proof.
  intros [Hc _] Hf Hl. unfold _force_close_at_end, force_closed.
  rewrite Hf, Hl, bind_ret_l, Direction_call_neg, bind_ret_l.
  unfold entry_cache_ok, is_flat in *.
  destruct st as [[dir idx] led pend ep eb fr]; simpl in *.
  destruct dir, ep as [ep |], eb as [eb |]; try contradiction;
    try discriminate; exists ep, eb; auto.
Qed.

Lemma force_close_flat (st : BacktestState) (bars : list Bar) :
  is_flat (position st) = true -> force_close st bars = ret st.
Proof. intros Hf. unfold _force_close_at_end. rewrite Hf. reflexivity. Qed.

Lemma loop_nil_flat (signals : list Z) (i : nat) (st : BacktestState) :
  loop signals i [] BacktestState_default = inr st ->
  is_flat (position st) = true.
Proof. simpl. intros [= <-]. reflexivity. Qed.

Lemma run_inr (bars : list Bar) (signals : list Z) (st : BacktestState) :
  run bars signals = inr st ->
  exists st_loop,
    loop signals 0 bars BacktestState_default = inr st_loop /\
    state_ok st_loop /\
    force_close st_loop bars = inr st.
Proof.
  unfold run_backtest. intros H. bind_inv H. exists a.
  split; [exact Ha |]. split; [| exact H].
  eapply loop_state_ok; [apply default_state_ok | exact Ha].
Qed.

(** Every trade of a finished run was built by [build_trade] when a
    close was filled on one of the input bars. *)
Lemma run_ledger (bars : list Bar) (signals : list Z) (st : BacktestState) :
  run bars signals = inr st ->
  Forall (fun t => exists b, In b bars /\ closed_at (ts_event b) t)
         (TradeLedger.trades (ledger st)).
Proof.
  intros H. destruct (run_inr _ _ _ H) as (sl & Hl & Hok & Hf).
  destruct (loop_ledger _ _ _ _ _ default_state_ok Hl) as (l & El & Fl).
  simpl in El.
  destruct (is_flat (position sl)) eqn:Ef.
  - rewrite (force_close_flat _ _ Ef) in Hf. inversion Hf. subst st.
    rewrite El. exact Fl.
  - assert (Hlast : exists b, iloc_last bars = inr b).
    { unfold _force_close_at_end in Hf. rewrite Ef in Hf.
      destruct (iloc_last bars) as [e | b]; [discriminate | eauto]. }
    destruct Hlast as [b Hb].
    destruct (force_close_held sl bars b Hok Ef Hb) as (ep & eb & _ & _ & E).
    rewrite E in Hf. inversion Hf. subst st. simpl. rewrite El.
    apply Forall_app. split; [exact Fl |].
    constructor; [| constructor].
    exists b. split.
    + destruct (iloc_last_In _ _ Hb) as [front ->].
      apply in_or_app. right. left. reflexivity.
    + unfold closed_at. eauto 10.
Qed.

(* ------------------------------------------------------------------ *)
(** ** C2: roll-triggered closes use the roll-close slippage *)

(** C2.  Executing a pending close whose exit reason is "roll" fills at
    the bar's open moved by [ROLL_CLOSE_SLIPPAGE_TICKS] ticks (not by
    [SLIPPAGE_TICKS]): closing a LONG the fill before rounding is
    [bar_open - ROLL_CLOSE_SLIPPAGE_TICKS * TICK_SIZE], closing a SHORT
    it is [bar_open + ROLL_CLOSE_SLIPPAGE_TICKS * TICK_SIZE]; the trade
    appended to the ledger carries that fill, rounded to the tick, as
    its exit price. *)
Theorem roll_close_uses_roll_slippage
  (st : BacktestState) (p : PendingOrder) (d : Direction)
  (bar_ts : Timestamp) (bar_open : Q) (e_price : Q) (e_bar : Timestamp) :
  pending st = Some p ->
  close_direction p = Some d ->
  d = LONG \/ d = SHORT ->
  open_direction p = None ->
  exit_reason p = "roll"%string ->
  entry_price st = Some e_price ->
  entry_bar st = Some e_bar ->
  let fill :=
    match d with
    | LONG => (bar_open - inject_Z ROLL_CLOSE_SLIPPAGE_TICKS * Constants.TICK_SIZE)%Q
    | _ => (bar_open + inject_Z ROLL_CLOSE_SLIPPAGE_TICKS * Constants.TICK_SIZE)%Q
    end in
  (closing_order_dir <- Direction_call (- value d) ;;
   fill_price closing_order_dir bar_open true) = inr fill /\
  exists st',
    execute_pending st bar_ts bar_open = inr st' /\
    TradeLedger.trades (ledger st') =
      TradeLedger.trades (ledger st) ++
      [TradeLedger.build_trade (TradeLedger._next_id (ledger st)) d e_bar
         bar_ts e_price (round_to_tick fill)].
Proof.
  intros Hp Hc Hd Ho Hr Hep Heb fill. subst fill.
  unfold _execute_pending, close_leg, open_leg.
  rewrite Hp, Hc, Ho, Hr, Hep, Heb.
  destruct Hd as [-> | ->]; simpl; split; try reflexivity;
    eexists; split; reflexivity.
Qed.

(* ------------------------------------------------------------------ *)
(** ** C3: the PnL formula of every recorded trade *)

Lemma Qgtb0_spec (x : Q) : TradeLedger.Qgtb0 x = true <-> (0 < x)%Q.
Proof.
  unfold TradeLedger.Qgtb0. destruct (x ?= 0)%Q eqn:E.
  - apply (proj2 (Qeq_alt _ _)) in E. split; [discriminate | lra].
  - apply (proj2 (Qlt_alt _ _)) in E. split; [discriminate | lra].
  - apply (proj2 (Qgt_alt _ _)) in E. split; auto.
Qed.

Lemma build_trade_pnl_exact (id : Z) (d : Direction) (eb xb : Timestamp)
  (ep xp : Q) : pnl_exact (TradeLedger.build_trade id d eb xb ep xp).
Proof.
  split; simpl.
  - ring.
  - apply Qgtb0_spec.
Qed.

(** C3.  Every trade in the ledger, after any prefix of the bars has
    been processed by the loop and after the whole run, satisfies
    [net_pnl = direction * (exit_price - entry_price) *
    (TICK_VALUE / TICK_SIZE) - 2 * COMMISSION_PER_SIDE] (no further
    slippage term), and [is_winner] holds exactly when [net_pnl > 0]. *)
Theorem ledger_net_pnl_exact
  (bars : list Bar) (signals : list Z) (k : nat) (st : BacktestState) :
  loop signals 0%nat (firstn k bars) BacktestState_default = inr st \/
  run bars signals = inr st ->
  Forall pnl_exact (TradeLedger.trades (ledger st)).
Proof.
  intros [H | H].
  - destruct (loop_ledger _ _ _ _ _ default_state_ok H) as (l & -> & F).
    simpl. eapply Forall_impl; [| exact F].
    intros t (b & _ & id & d & eb & ep & xp & ->).
    apply build_trade_pnl_exact.
  - eapply Forall_impl; [| exact (run_ledger _ _ _ H)].
    intros t (b & _ & id & d & eb & ep & xp & ->).
    apply build_trade_pnl_exact.
Qed.

(* ------------------------------------------------------------------ *)
(** ** C4: no look-ahead into high, low or close *)

Lemma step_visible (signals : list Z) (i : nat) (b1 b2 : Bar)
  (st : BacktestState) :
  visible b1 = visible b2 -> step signals i b1 st = step signals i b2 st.
Proof.
  unfold visible. intros [= Ets Eop Ero].
  unfold bar_step, after_pending. rewrite Ets, Eop, Ero. reflexivity.
Qed.

Lemma loop_visible (signals : list Z) (bars1 : list Bar) :
  forall (bars2 : list Bar) (i : nat) (st : BacktestState),
    map visible bars1 = map visible bars2 ->
    loop signals i bars1 st = loop signals i bars2 st.
Proof.
  induction bars1 as [| b1 r1 IH]; intros [| b2 r2] i st; simpl;
    try discriminate; [reflexivity |].
  intros E.
  assert (Eb : visible b1 = visible b2) by congruence.
  assert (Er : map visible r1 = map visible r2) by congruence.
  rewrite (step_visible _ _ _ _ _ Eb).
  destruct (step signals i b2 st) as [e | st1]; simpl; [reflexivity |].
  apply IH. exact Er.
Qed.

Lemma force_close_visible (bars1 bars2 : list Bar) (st : BacktestState) :
  map visible bars1 = map visible bars2 ->
  force_close st bars1 = force_close st bars2.
Proof.
  intros E. apply (f_equal (@rev _)) in E. rewrite <- !map_rev in E.
  unfold _force_close_at_end, iloc_last.
  destruct (rev bars1) as [| a1 l1], (rev bars2) as [| a2 l2];
    simpl in E; try discriminate; [reflexivity |].
  assert (Ea : visible a1 = visible a2) by congruence.
  unfold visible in Ea.
  assert (Ets : ts_event a1 = ts_event a2) by congruence.
  assert (Eop : open a1 = open a2) by congruence.
  simpl. rewrite Ets, Eop. reflexivity.
Qed.

(** C4.  Two bar frames that agree on every bar's timestamp, open price
    and roll flag, run against the same signal series, give the same
    result (the same ledger, trade for trade, and the same final state),
    however their high, low and close columns differ. *)
Theorem run_backtest_no_lookahead
  (bars1 bars2 : list Bar) (signals : list Z) :
  map visible bars1 = map visible bars2 ->
  run bars1 signals = run bars2 signals.
Proof.
  intros E. unfold run_backtest.
  rewrite (loop_visible signals bars1 bars2 0%nat _ E).
  destruct (loop signals 0%nat bars2 BacktestState_default) as [e | st];
    simpl; [reflexivity |].
  apply force_close_visible. exact E.
Qed.

(* ------------------------------------------------------------------ *)
(** ** C5: the run ends flat *)

Lemma chronological_last (front : list Bar) (last_bar b : Bar) :
  chronological (front ++ [last_bar]) -> In b (front ++ [last_bar]) ->
  ts_event b <= ts_event last_bar.
Proof.
  unfold chronological. induction front as [| x front IH]; simpl.
  - intros _ [<- | []]. lia.
  - intros Hs [<- | Hin].
    + apply StronglySorted_inv in Hs. destruct Hs as [_ Hall].
      rewrite Forall_forall in Hall. apply Hall.
      rewrite map_app. apply in_or_app. right. left. reflexivity.
    + apply StronglySorted_inv in Hs. destruct Hs as [Hs _]. auto.
Qed.

Lemma iloc_last_nonempty {A : Type} (l : list A) :
  l <> [] -> exists a, iloc_last l = inr a.
Proof.
  intros H. destruct (exists_last H) as (front & a & ->).
  exists a. apply iloc_last_app.
Qed.

(** C5.  On a signal series that covers the bars with values in
    {-1, 0, 1}, [run_backtest] returns; the final position is FLAT; when
    the bars are in chronological order every trade's exit_bar (the last
    one's in particular) is at most the final bar's timestamp; and a
    position still held when the loop ends is closed exactly as
    [_execute_pending] would execute a close-only "signal" order at the
    final bar: same open price, slippage, rounding and ledger entry. *)
Theorem run_backtest_ends_flat (bars : list Bar) (signals : list Z) :
  (List.length bars <= List.length signals)%nat ->
  Forall valid_signal signals ->
  exists st_loop st_end,
    loop signals 0%nat bars BacktestState_default = inr st_loop /\
    run bars signals = inr st_end /\
    current_direction (position st_end) = FLAT /\
    (chronological bars ->
     forall last_bar, iloc_last bars = inr last_bar ->
       Forall (fun t => TradeLedger.exit_bar t <= ts_event last_bar)
              (TradeLedger.trades (ledger st_end))) /\
    (is_flat (position st_loop) = true -> st_end = st_loop) /\
    (is_flat (position st_loop) = false ->
     exists last_bar st_closed,
       iloc_last bars = inr last_bar /\
       execute_pending (set_pending st_loop (Some (normal_close st_loop)))
                       (ts_event last_bar) (open last_bar) = inr st_closed /\
       ledger st_end = ledger st_closed /\
       position st_end = position st_closed).
Proof.
  intros Hlen Hsig.
  destruct (loop_total signals bars Hsig 0%nat BacktestState_default
              Hlen default_state_ok) as [sl Hl].
  assert (Hok : state_ok sl)
    by (eapply loop_state_ok; [apply default_state_ok | exact Hl]).
  assert (Hbound : forall st, run bars signals = inr st ->
            chronological bars ->
            forall last_bar, iloc_last bars = inr last_bar ->
              Forall (fun t => TradeLedger.exit_bar t <= ts_event last_bar)
                     (TradeLedger.trades (ledger st))).
  { intros st Hrun Hch last_bar Hlast.
    eapply Forall_impl; [| exact (run_ledger _ _ _ Hrun)].
    intros t (b & Hb & id & d & eb & ep & xp & ->). simpl.
    destruct (iloc_last_In _ _ Hlast) as [front ->].
    eapply chronological_last; eassumption. }
  destruct (is_flat (position sl)) eqn:Ef.
  - assert (Hrun : run bars signals = inr sl).
    { unfold run_backtest. rewrite Hl, bind_ret_l.
      apply force_close_flat. exact Ef. }
    exists sl, sl.
    split; [exact Hl |]. split; [exact Hrun |].
    split; [apply Direction_eqb_eq; exact Ef |].
    split; [apply Hbound; exact Hrun |].
    split; [reflexivity |].
    intros Hf. congruence.
  - assert (Hne : bars <> []).
    { intros ->. apply loop_nil_flat in Hl. congruence. }
    destruct (iloc_last_nonempty bars Hne) as [b Hb].
    destruct (force_close_held sl bars b Hok Ef Hb) as (ep & eb & Eep & Eeb & E).
    assert (Hrun : run bars signals = inr (force_closed sl b ep eb)).
    { unfold run_backtest. rewrite Hl, bind_ret_l. exact E. }
    exists sl, (force_closed sl b ep eb).
    split; [exact Hl |]. split; [exact Hrun |].
    split; [reflexivity |].
    split; [apply Hbound; exact Hrun |].
    split; [intros Hf; congruence |].
    intros _.
    set (sq := set_pending sl (Some (normal_close sl))).
    assert (Hq : state_ok sq).
    { destruct Hok as [Hc _]. split; [exact Hc |]. simpl.
      unfold pending_ok. simpl. split; [reflexivity |].
      intros Hflat. unfold is_flat in Ef. rewrite Hflat in Ef. discriminate. }
    exists b, (executed sq (normal_close sl) (ts_event b) (open b)).
    split; [exact Hb |]. split.
    + apply execute_pending_ok; [exact Hq | reflexivity].
    + unfold executed, force_closed, sq. simpl. rewrite Eep, Eeb. simpl.
      split; reflexivity.
Qed.

(* ------------------------------------------------------------------ *)
(** ** C8: a queued entry is filled on the next bar, signal or not *)

(** C8 (amended).  A pending entry order (open leg only) queued on the
    previous bar is always executed by STEP 1 of the next bar, at that
    bar's open with the standard slippage: after the bar the position
    has the order's direction and the entry cache holds this bar and the
    rounded fill.  When the bar is an ordinary one whose signal yields
    no action, the resulting state is exactly the executed state: the
    clearing of the pending slot cancels nothing. *)
Theorem queued_entry_fills_on_next_bar
  (signals : list Z) (i : nat) (bar : Bar) (st : BacktestState)
  (p : PendingOrder) (d : Direction) (s : Z) :
  pending st = Some p ->
  close_direction p = None ->
  open_direction p = Some d ->
  d = LONG \/ d = SHORT ->
  nth_error signals i = Some s ->
  valid_signal s ->
  exists st_exec st',
    execute_pending st (ts_event bar) (open bar) = inr st_exec /\
    step signals i bar st = inr st' /\
    current_direction (position st') = d /\
    entry_bar st' = Some (ts_event bar) /\
    entry_price st' =
      Some (round_to_tick
              (match d with
               | LONG => open bar + inject_Z Settings.SLIPPAGE_TICKS * Constants.TICK_SIZE
               | _ => open bar - inject_Z Settings.SLIPPAGE_TICKS * Constants.TICK_SIZE
               end)%Q) /\
    ledger st' = ledger st /\
    (contains_roll bar = false ->
     (0 <? roll_freeze_remaining st) = false ->
     s = 0 \/ s = value d ->
     st' = st_exec).
Proof.
  intros Hp Hc Ho Hd Hn Hs.
  assert (Hex : execute_pending st (ts_event bar) (open bar) =
                ret (executed st p (ts_event bar) (open bar))).
  { unfold _execute_pending, close_leg, open_leg, executed.
    rewrite Hp, Hc, Ho. destruct Hd as [-> | ->]; reflexivity. }
  set (se := executed st p (ts_event bar) (open bar)) in *.
  assert (Hdir : current_direction (position se) = d)
    by (unfold se, executed; rewrite Hc, Ho; reflexivity).
  assert (Hpe : pending se = None) by reflexivity.
  assert (Hoke : state_ok se).
  { split; [| rewrite Hpe; exact I].
    unfold entry_cache_ok, se, executed. rewrite Hc, Ho. simpl.
    destruct Hd as [-> | ->]; exact I. }
  destruct (after_pending_total signals i bar se s Hn Hs) as [st' Hst'].
  destruct (after_pending_state_ok _ _ _ _ _ Hoke Hpe Hst')
    as (_ & El & Epos & Eep & Eeb).
  exists se, st'. split; [exact Hex |]. split.
  { unfold bar_step. rewrite Hp, Hex, bind_ret_l. exact Hst'. }
  split; [rewrite Epos; exact Hdir |].
  split; [rewrite Eeb; unfold se, executed; rewrite Hc, Ho; reflexivity |].
  split.
  { rewrite Eep. unfold se, executed. rewrite Hc, Ho. simpl.
    destruct Hd as [-> | ->]; reflexivity. }
  split.
  { rewrite El. unfold se, executed. rewrite Hc, Ho. reflexivity. }
  intros Hroll Hfr Hsv. unfold after_pending in Hst'.
  rewrite Hroll in Hst'.
  assert (Efr : roll_freeze_remaining se = roll_freeze_remaining st)
    by (unfold se, executed; rewrite Hc, Ho; reflexivity).
  rewrite Efr, Hfr in Hst'. unfold iloc in Hst'. rewrite Hn, bind_ret_l in Hst'.
  assert (Eact : evaluate_signal (position se) s (Z.of_nat i) = ret Action_default).
  { unfold evaluate_signal. destruct Hsv as [-> | ->]; [reflexivity |].
    rewrite Hdir. destruct Hd as [-> | ->]; reflexivity. }
  rewrite Eact, bind_ret_l in Hst'. simpl in Hst'. inversion Hst'.
  destruct se; simpl in *. subst. reflexivity.
Qed.

(* ------------------------------------------------------------------ *)
(** ** C10: FLAT is rejected by the fill computation, and never sent *)

Lemma bind_no_flat_fill {A B : Type} (m : result A) (k : A -> result B) :
  is_flat_fill_error m = false ->
  (forall a, m = inr a -> is_flat_fill_error (k a) = false) ->
  is_flat_fill_error (bind m k) = false.
Proof.
  destruct m as [e | a]; simpl; intros Hm Hk; [exact Hm | auto].
Qed.

Lemma evaluate_signal_no_flat_fill (pm : PositionManager) (s i : Z) :
  is_flat_fill_error (evaluate_signal pm s i) = false.
Proof.
  unfold evaluate_signal, Direction_call.
  destruct (s =? 0); [reflexivity |].
  destruct (s =? 1); simpl.
  { destruct (Direction_eqb _ _), (is_flat pm); reflexivity. }
  destruct (s =? -1); simpl; [| reflexivity].
  destruct (Direction_eqb _ _), (is_flat pm); reflexivity.
Qed.

Lemma after_pending_no_flat_fill (signals : list Z) (i : nat) (bar : Bar)
  (st : BacktestState) :
  is_flat_fill_error (after_pending ROLL_FREEZE_BARS_POST signals i bar st)
  = false.
Proof.
  unfold after_pending.
  destruct (contains_roll bar); [reflexivity |].
  destruct (0 <? roll_freeze_remaining st); [reflexivity |].
  apply bind_no_flat_fill.
  - unfold iloc. destruct (nth_error signals i); reflexivity.
  - intros s _. apply bind_no_flat_fill.
    + apply evaluate_signal_no_flat_fill.
    + intros a _. destruct (close_existing a || open_new a); reflexivity.
Qed.

Lemma loop_no_flat_fill (signals : list Z) (bars : list Bar) :
  forall (i : nat) (st : BacktestState),
    state_ok st -> is_flat_fill_error (loop signals i bars st) = false.
Proof.
  induction bars as [| bar rest IH]; simpl; intros i st Hok; [reflexivity |].
  apply bind_no_flat_fill.
  - rewrite (step_unfold _ _ _ _ Hok). apply after_pending_no_flat_fill.
  - intros st1 H1. apply IH. eapply step_state_ok; eassumption.
Qed.

Lemma force_close_no_flat_fill (st : BacktestState) (bars : list Bar) :
  state_ok st -> is_flat_fill_error (force_close st bars) = false.
Proof.
  intros Hok. destruct (is_flat (position st)) eqn:Ef.
  - rewrite (force_close_flat _ _ Ef). reflexivity.
  - destruct (iloc_last bars) as [e | b] eqn:Eb.
    + unfold _force_close_at_end. rewrite Ef, Eb.
      unfold iloc_last in Eb. destruct (rev bars); inversion Eb. reflexivity.
    + destruct (force_close_held st bars b Hok Ef Eb) as (ep & eb & _ & _ & ->).
      reflexivity.
Qed.

(** C10.  [compute_fill_price] on [Direction.FLAT] raises its
    [ValueError] whatever the price and the roll flag, and no run of
    [run_backtest], on any bars and any signal series, ends in that
    error: the directions the pending-order protocol passes are never
    FLAT. *)
Theorem flat_fill_rejected_and_unreachable :
  (forall (bar_open : Q) (is_roll_close : bool),
      fill_price FLAT bar_open is_roll_close = inl ValueError_flat_fill) /\
  (forall (bars : list Bar) (signals : list Z),
      is_flat_fill_error (run bars signals) = false).
Proof.
  split; [reflexivity |].
  intros bars signals. unfold run_backtest.
  apply bind_no_flat_fill.
  - apply loop_no_flat_fill. apply default_state_ok.
  - intros st Hl. apply force_close_no_flat_fill.
    eapply loop_state_ok; [apply default_state_ok | exact Hl].
Qed.

(* ------------------------------------------------------------------ *)
(** ** Further properties of the engine *)

(** The ledger after one bar is the old one or one [record] call away. *)
Lemma step_ledger_record (signals : list Z) (i : nat) (bar : Bar)
  (st st' : BacktestState) :
  state_ok st -> step signals i bar st = inr st' ->
  ledger st' = ledger st \/
  exists d e_bar e_price x_price,
    ledger st' =
    TradeLedger.record (ledger st) d e_bar (ts_event bar) e_price x_price.
Proof.
  intros Hok H. rewrite (step_unfold _ _ _ _ Hok) in H.
  destruct (after_step1_ok st bar Hok) as [H1 H2].
  destruct (after_pending_state_ok _ _ _ _ _ H1 H2 H) as (_ & -> & _).
  unfold after_step1. destruct (pending st) as [p |]; [| auto].
  unfold executed.
  destruct (close_direction p) as [cd |], (entry_price st) as [ep |],
    (entry_bar st) as [eb |];
    destruct (open_direction p) as [od |]; simpl; auto;
    right; eauto.
Qed.

Lemma record_counted (led : TradeLedger.Ledger) (d : Direction)
  (eb xb : Timestamp) (ep xp : Q) :
  ledger_counted led -> ledger_counted (TradeLedger.record led d eb xb ep xp).
Proof.
  intros [Hids Hnext]. split.
  - intros k t. simpl.
    destruct (Nat.lt_ge_cases k (List.length (TradeLedger.trades led)))
      as [Hk | Hk].
    + rewrite nth_error_app1 by exact Hk. apply Hids.
    + rewrite nth_error_app2 by exact Hk.
      destruct (k - List.length (TradeLedger.trades led))%nat as [| r] eqn:E.
      * simpl. intros [= <-]. simpl. rewrite Hnext. lia.
      * simpl. destruct r; discriminate.
  - simpl. rewrite Hnext, length_app. simpl. lia.
Qed.

Lemma loop_counted (signals : list Z) (bars : list Bar) :
  forall (i : nat) (st st' : BacktestState),
    state_ok st -> ledger_counted (ledger st) ->
    loop signals i bars st = inr st' -> ledger_counted (ledger st').
Proof.
  induction bars as [| bar rest IH]; simpl; intros i st st' Hok Hc H.
  - inversion H. subst. exact Hc.
  - bind_inv H. eapply IH; [| | exact H].
    + eapply step_state_ok; eassumption.
    + destruct (step_ledger_record _ _ _ _ _ Hok Ha)
        as [-> | (d & eb & ep & xp & ->)]; [exact Hc |].
      apply record_counted. exact Hc.
Qed.

(** X1.  After every prefix of the bars the loop state is consistent:
    the entry price and entry bar are both present when a position is
    held and both absent when flat, and a queued order closes the held
    direction, or opens from flat: a position is never opened on top of
    another one. *)
Theorem loop_prefix_invariant
  (bars : list Bar) (signals : list Z) (k : nat) (st : BacktestState) :
  loop signals 0%nat (firstn k bars) BacktestState_default = inr st ->
  entry_cache_ok st /\
  (forall p, pending st = Some p ->
             pending_ok (current_direction (position st)) p).
Proof.
  intros H.
  destruct (loop_state_ok _ _ _ _ _ default_state_ok H) as [Hc Hp].
  split; [exact Hc |]. intros p E. rewrite E in Hp. exact Hp.
Qed.

(** X2.  An empty bar stream is not an error: the run returns the
    initial state, flat and with an empty ledger. *)
Theorem run_backtest_empty (signals : list Z) :
  run [] signals = inr BacktestState_default.
Proof. reflexivity. Qed.

(** X3.  Trade ids are assigned in order starting at 1: the k-th trade
    of the ledger of a finished run (counting from 0) has id k + 1. *)
Theorem trade_ids_sequential
  (bars : list Bar) (signals : list Z) (st : BacktestState) :
  run bars signals = inr st -> ids_sequential (ledger st).
Proof.
  intros H. destruct (run_inr _ _ _ H) as (sl & Hl & Hok & Hf).
  assert (Hc : ledger_counted (ledger sl)).
  { eapply loop_counted; [apply default_state_ok | | exact Hl].
    split; [| reflexivity]. intros k t. simpl.
    destruct k; discriminate. }
  destruct (is_flat (position sl)) eqn:Ef.
  - rewrite (force_close_flat _ _ Ef) in Hf. inversion Hf. subst st.
    apply Hc.
  - assert (Hlast : exists b, iloc_last bars = inr b).
    { unfold _force_close_at_end in Hf. rewrite Ef in Hf.
      destruct (iloc_last bars) as [e | b]; [discriminate | eauto]. }
    destruct Hlast as [b Hb].
    destruct (force_close_held sl bars b Hok Ef Hb) as (ep & eb & _ & _ & E).
    rewrite E in Hf. inversion Hf. subst st. simpl.
    apply record_counted. exact Hc.
Qed.

(** X4.  PnL order and sign.  Between two trades of the same direction
    the net PnL follows the price difference [exit_price - entry_price]:
    for LONG a difference that is not larger gives a net PnL that is not
    larger, for SHORT one that is not smaller.  A winning LONG trade
    exited strictly above its entry, a winning SHORT trade strictly
    below. *)
Theorem net_pnl_monotone
  (id1 id2 : Z) (d : Direction) (eb1 xb1 eb2 xb2 : Timestamp)
  (ep1 xp1 ep2 xp2 : Q) :
  (xp1 - ep1 <= xp2 - ep2)%Q ->
  let t1 := TradeLedger.build_trade id1 d eb1 xb1 ep1 xp1 in
  let t2 := TradeLedger.build_trade id2 d eb2 xb2 ep2 xp2 in
  (d = LONG -> (TradeLedger.net_pnl t1 <= TradeLedger.net_pnl t2)%Q) /\
  (d = SHORT -> (TradeLedger.net_pnl t2 <= TradeLedger.net_pnl t1)%Q) /\
  (TradeLedger.is_winner t1 = true ->
   (d = LONG -> (ep1 < xp1)%Q) /\ (d = SHORT -> (xp1 < ep1)%Q)).
Proof.
  intros Hle t1 t2.
  pose proof (build_trade_pnl_exact id1 d eb1 xb1 ep1 xp1) as [_ Hw].
  fold t1 in Hw. revert Hw.
  subst t1 t2. unfold TradeLedger.build_trade. simpl.
  assert (Hr : (Constants.TICK_VALUE / Constants.TICK_SIZE == 125000 # 1)%Q)
    by reflexivity.
  assert (Hc : (Settings.COMMISSION_PER_SIDE * 2 == 5)%Q) by reflexivity.
  intros Hw.
  split; [| split].
  - intros ->. simpl. rewrite Hr. change (inject_Z 1) with 1%Q. lra.
  - intros ->. simpl. rewrite Hr. change (inject_Z (-1)) with (-1 # 1)%Q. lra.
  - intros Hwin. apply Hw in Hwin. rewrite Hr, Hc in Hwin.
    split; intros ->; simpl in Hwin;
      [change (inject_Z 1) with 1%Q in Hwin
      | change (inject_Z (-1)) with (-1 # 1)%Q in Hwin]; lra.
Qed.

(** X5.  A roll bar queues no entry and evaluates no signal: after the
    bar the freeze counter is [ROLL_FREEZE_BARS_POST], and the pending
    slot is empty when the engine is flat, or holds a close-only order
    with exit reason "roll" for the held direction. *)
Theorem roll_bar_queues_only_a_close
  (signals : list Z) (i : nat) (bar : Bar) (st st' : BacktestState) :
  state_ok st -> contains_roll bar = true ->
  step signals i bar st = inr st' ->
  roll_freeze_remaining st' = ROLL_FREEZE_BARS_POST /\
  (current_direction (position st') = FLAT -> pending st' = None) /\
  (current_direction (position st') <> FLAT ->
   pending st' =
     Some (mkPendingOrder (Some (current_direction (position st'))) None
                          (Some (ts_event bar)) "roll")).
Proof.
  intros Hok Hroll H. rewrite (step_unfold _ _ _ _ Hok) in H.
  destruct (after_step1_ok st bar Hok) as [_ Hp].
  unfold after_pending in H. rewrite Hroll in H.
  set (s1 := after_step1 st bar) in *. clearbody s1.
  unfold is_flat in H. inversion H. subst st'. clear H.
  destruct s1 as [[dir idx] led pend ep eb fr]; simpl in *. subst pend.
  destruct dir; simpl; repeat split; congruence.
Qed.

End Properties.

(* ================================================================== *)
(** * Tick rounding *)

Import Binary64.















(** *** Integers as floats *)

Lemma round53_small (a : Z) : 0 <= a < 2 ^ 53 -> round53 a = a.
Proof.
  intros [H0 H1]. unfold round53.
  assert (E : Z.max 0 (Z.log2 a - 52) = 0).
  { destruct (Z.eq_dec a 0) as [-> | Hne]; [reflexivity |].
    assert (Z.log2 a < 53) by (apply Z.log2_lt_pow2; lia). lia. }
  rewrite E. change (2 ^ 0) with 1.
  rewrite Z.div_1_r, Z.mod_1_r. simpl. lia.
Qed.

(** A mantissa of at most 53 bits times a power of two is kept. *)
Lemma round53_exact (q e : Z) :
  0 <= e -> 2 ^ 52 <= q <= 2 ^ 53 -> round53 (q * 2 ^ e) = q * 2 ^ e.
Proof.
  intros He [Hq1 Hq2].
  assert (Hm : 0 < 2 ^ e) by (apply Z.pow_pos_nonneg; lia).
  destruct (Z.eq_dec q (2 ^ 53)) as [-> | Hne].
  - (* the next binade *)
    unfold round53.
    assert (El : Z.log2 (2 ^ 53 * 2 ^ e) = 53 + e).
    { rewrite <- Z.pow_add_r by lia. apply Z.log2_pow2. lia. }
    rewrite El. replace (Z.max 0 (53 + e - 52)) with (e + 1) by lia.
    rewrite Z.pow_add_r by lia. change (2 ^ 1) with 2.
    replace (2 ^ 53 * 2 ^ e) with (2 ^ 52 * (2 ^ e * 2)) by
      (change (2 ^ 53) with (2 ^ 52 * 2); ring).
    rewrite Z.div_mul by lia. rewrite Z.mod_mul by lia.
    assert (C : (2 * 0 ?= 2 ^ e * 2) = Lt) by (apply Z.compare_lt_iff; lia).
    rewrite C. reflexivity.
  - unfold round53.
    assert (El : Z.log2 (q * 2 ^ e) = 52 + e).
    { apply Z.log2_unique; [lia |].
      rewrite Z.pow_add_r by lia. rewrite Z.pow_succ_r by lia.
      rewrite Z.pow_add_r by lia. split; nia. }
    rewrite El. replace (Z.max 0 (52 + e - 52)) with e by lia.
    rewrite Z.div_mul by lia. rewrite Z.mod_mul by lia.
    assert (C : (2 * 0 ?= 2 ^ e) = Lt) by (apply Z.compare_lt_iff; lia).
    rewrite C. reflexivity.
Qed.

(** What [round53] returns on a large number. *)
Lemma round53_large (a : Z) :
  2 ^ 53 <= a ->
  exists q e, 0 <= e /\ 2 ^ 52 <= q <= 2 ^ 53 /\ round53 a = q * 2 ^ e.
Proof.
  intros Ha. unfold round53.
  assert (Hl : 53 <= Z.log2 a).
  { apply Z.log2_le_pow2; lia. }
  set (l := Z.log2 a) in *.
  replace (Z.max 0 (l - 52)) with (l - 52) by lia.
  set (e := l - 52). assert (He : 0 <= e) by lia.
  assert (Hm : 0 < 2 ^ e) by (apply Z.pow_pos_nonneg; lia).
  destruct (Z.log2_spec a) as [S1 S2]; [lia |]. fold l in S1, S2.
  replace l with (52 + e) in S1 by lia.
  replace (Z.succ l) with (53 + e) in S2 by lia.
  rewrite Z.pow_add_r in S1, S2 by lia.
  pose proof (Z.div_mod a (2 ^ e)) as D.
  pose proof (Z.mod_pos_bound a (2 ^ e) Hm) as R.
  set (q := a / 2 ^ e) in *. set (r := a mod 2 ^ e) in *.
  assert (Hq : 2 ^ 52 <= q < 2 ^ 53) by (split; nia).
  destruct (2 * r ?= 2 ^ e).
  - destruct (Z.even q);
      [exists q, e | exists (q + 1), e]; repeat split; lia.
  - exists q, e. repeat split; lia.
  - exists (q + 1), e. repeat split; lia.
Qed.

Lemma round53_idem (a : Z) : 0 <= a -> round53 (round53 a) = round53 a.
Proof.
  intros Ha. destruct (Z_lt_le_dec a (2 ^ 53)) as [H | H].
  - rewrite (round53_small a) by lia. apply round53_small. lia.
  - destruct (round53_large a H) as (q & e & He & Hq & ->).
    apply round53_exact; assumption.
Qed.

Lemma round53_pos (a : Z) : 0 < a -> 0 < round53 a.
Proof.
  intros Ha. destruct (Z_lt_le_dec a (2 ^ 53)) as [H | H].
  - rewrite round53_small by lia. exact Ha.
  - destruct (round53_large a H) as (q & e & He & Hq & ->).
    assert (0 < 2 ^ e) by (apply Z.pow_pos_nonneg; lia). nia.
Qed.

Lemma int_to_float_small (n : Z) : Z.abs n <= 2 ^ 53 -> int_to_float n = n.
Proof.
  intros H. unfold int_to_float.
  destruct (Z.eq_dec (Z.abs n) (2 ^ 53)) as [E | E].
  - rewrite E. change (round53 (2 ^ 53)) with (2 ^ 53).
    rewrite <- E, Z.mul_comm. apply Z.abs_sgn.
  - rewrite round53_small by lia. rewrite Z.mul_comm. apply Z.abs_sgn.
Qed.

Lemma int_to_float_idem (n : Z) :
  int_to_float (int_to_float n) = int_to_float n.
Proof.
  unfold int_to_float.
  destruct (Z.lt_trichotomy n 0) as [H | [-> | H]].
  - pose proof (round53_pos (Z.abs n)) as P.
    assert (Hp : 0 < round53 (Z.abs n)) by (apply P; lia).
    rewrite (Z.sgn_neg n H).
    replace (Z.sgn (-1 * round53 (Z.abs n))) with (-1) by
      (symmetry; apply Z.sgn_neg; lia).
    replace (Z.abs (-1 * round53 (Z.abs n))) with (round53 (Z.abs n)) by lia.
    rewrite round53_idem by lia. reflexivity.
  - reflexivity.
  - pose proof (round53_pos (Z.abs n)) as P.
    assert (Hp : 0 < round53 (Z.abs n)) by (apply P; lia).
    rewrite (Z.sgn_pos n H).
    replace (Z.sgn (1 * round53 (Z.abs n))) with 1 by
      (symmetry; apply Z.sgn_pos; lia).
    replace (Z.abs (1 * round53 (Z.abs n))) with (round53 (Z.abs n)) by lia.
    rewrite round53_idem by lia. reflexivity.
Qed.




(** Decimal midpoints follow the rounding error of the quotient: the
    float of 0.000075 goes down to 1 tick, the float sum of 1.000075 and
    0.00005 goes up to 20003 ticks, and neither multiplier is even. *)
Lemma round_to_tick_decimal_midpoints :
  round_to_tick (b64 (75 # 1000000)) =
    b64 (inject_Z 1 * Constants.TICK_SIZE) /\
  round_to_tick (b64 (b64 (1000075 # 1000000) + b64 (5 # 100000))) =
    b64 (inject_Z 20003 * Constants.TICK_SIZE).
Proof. vm_compute. split; reflexivity. Qed.

(* ================================================================== *)
(** * Concrete runs *)

(** C1 (the code departs from the claim).  With a long signal on bar 0
    and bar 1 a roll bar, the order queued on bar 0 is filled by STEP 1
    of bar 1 before the roll check: the run records a trade whose
    entry_bar is the roll bar. *)
Theorem entry_filled_on_roll_bar (rc rf : Z) :
  exists st t b,
    run_backtest rc rf roll_bars roll_signals = inr st /\
    In t (TradeLedger.trades (ledger st)) /\
    In b roll_bars /\
    contains_roll b = true /\
    TradeLedger.entry_bar t = ts_event b.
Proof.
  destruct rf as [| f | f];
    (eexists; eexists; exists (bar_at 1 (11010 # 10000) true);
     split; [reflexivity |];
     split; [left; reflexivity |];
     split; [right; left; reflexivity |];
     split; reflexivity).
Qed.

(** C6 (the code departs from the claim).  On the scenario of the
    specification the run ends by a forced close: the returned state is
    FLAT, yet its entry_price and entry_bar are still filled
    ([_force_close_at_end] does not clear them as [_execute_pending]
    does). *)
Theorem entry_cache_stale_after_force_close (rc rf : Z) :
  exists st e_price e_bar,
    run_backtest rc rf scenario_bars scenario_signals = inr st /\
    current_direction (position st) = FLAT /\
    entry_price st = Some e_price /\
    entry_bar st = Some e_bar.
Proof.
  eexists. eexists. eexists.
  split; [vm_compute; reflexivity |].
  repeat split; reflexivity.
Qed.

(** C9 (the code departs from the claim).  After the first three bars
    of the scenario a LONG position is held, opened by the fill on the
    bar of index 2 (timestamp 2), and [entry_bar_index] is -1, not 2:
    [_execute_pending] calls [on_open] with [bar_index=-1]. *)
Theorem entry_bar_index_not_recorded (rc rf : Z) :
  exists st,
    bar_loop rc rf scenario_signals 0 (firstn 3 scenario_bars)
             BacktestState_default = inr st /\
    current_direction (position st) = LONG /\
    entry_bar st = option_map ts_event (nth_error scenario_bars 2) /\
    entry_bar_index (position st) = -1.
Proof.
  eexists. split; [vm_compute; reflexivity |].
  repeat split; reflexivity.
Qed.

(** C2, witness: a LONG closed by a roll order at open 1.1000 with
    [ROLL_CLOSE_SLIPPAGE_TICKS = 2] exits at the rounded price
    1.1000 - 2 * 0.00005. *)
Lemma roll_close_uses_roll_slippage_witness :
  exists st',
    _execute_pending 2 roll_close_state 6 (11000 # 10000) = inr st' /\
    map TradeLedger.exit_price (TradeLedger.trades (ledger st')) =
      [round_to_tick ((11000 # 10000) - inject_Z 2 * Constants.TICK_SIZE)%Q].
Proof.
  destruct (roll_close_uses_roll_slippage 2 roll_close_state
              (mkPendingOrder (Some LONG) None (Some 5) "roll") LONG
              6 (11000 # 10000)%Q (11000 # 10000)%Q 3
              eq_refl eq_refl (or_introl eq_refl) eq_refl eq_refl
              eq_refl eq_refl) as [_ (st' & Hex & Htr)].
  exists st'. split; [exact Hex |]. rewrite Htr. reflexivity.
Defined.

(** C3, witness: the scenario of the specification. *)
Lemma ledger_net_pnl_exact_witness :
  exists st,
    run_backtest 2 3 scenario_bars scenario_signals = inr st /\
    List.length (TradeLedger.trades (ledger st)) = 1%nat /\
    Forall pnl_exact (TradeLedger.trades (ledger st)).
Proof.
  eexists. split; [vm_compute; reflexivity |].
  split; [reflexivity |].
  apply (ledger_net_pnl_exact 2 3 scenario_bars scenario_signals 0).
  right. vm_compute. reflexivity.
Defined.

(** C4, witness: the scenario against the same bars with other high,
    low and close columns. *)
Lemma run_backtest_no_lookahead_witness :
  map high scenario_bars <> map high scenario_bars_other_hlc /\
  run_backtest 2 3 scenario_bars scenario_signals =
  run_backtest 2 3 scenario_bars_other_hlc scenario_signals.
Proof.
  split; [discriminate |].
  apply (run_backtest_no_lookahead 2 3 scenario_bars scenario_bars_other_hlc
           scenario_signals).
  reflexivity.
Defined.

(** C5, witness: the scenario is chronological, its run returns, and the
    final state is FLAT with every exit at or before the last bar. *)
Lemma run_backtest_ends_flat_witness :
  chronological scenario_bars /\
  exists st_end,
    run_backtest 2 3 scenario_bars scenario_signals = inr st_end /\
    current_direction (position st_end) = FLAT /\
    Forall (fun t => TradeLedger.exit_bar t <= 3)
           (TradeLedger.trades (ledger st_end)).
Proof.
  assert (Hch : chronological scenario_bars).
  { unfold chronological. simpl.
    repeat (constructor; [| repeat constructor; lia]). constructor. }
  split; [exact Hch |].
  assert (Hlen : (List.length scenario_bars <= List.length scenario_signals)%nat)
    by (simpl; lia).
  assert (Hsig : Forall valid_signal scenario_signals).
  { unfold valid_signal. repeat constructor; lia. }
  destruct (run_backtest_ends_flat 2 3 scenario_bars scenario_signals Hlen Hsig)
    as (sl & se & _ & Hrun & Hflat & Hexit & _).
  exists se. split; [exact Hrun |]. split; [exact Hflat |].
  apply (Hexit Hch (bar_at 3 (10995 # 10000) false)). reflexivity.
Defined.

(** C8, witness: the entry queued on bar 1 of the scenario meets bar 2,
    whose signal is 0. *)
Lemma queued_entry_fills_on_next_bar_witness :
  exists st',
    bar_step 2 3 scenario_signals 2 (bar_at 2 (11005 # 10000) false)
             queued_entry_state = inr st' /\
    current_direction (position st') = LONG /\
    entry_bar st' = Some 2.
Proof.
  assert (Hs : valid_signal 0) by (unfold valid_signal; lia).
  destruct (queued_entry_fills_on_next_bar 2 3 scenario_signals 2
              (bar_at 2 (11005 # 10000) false) queued_entry_state
              (mkPendingOrder None (Some LONG) (Some 1) "signal") LONG 0
              eq_refl eq_refl eq_refl (or_introl eq_refl) eq_refl Hs)
    as (se & st' & _ & Hst & Hd & Heb & _).
  exists st'. auto.
Defined.

(** C8, counterexample.  In the scenario of the specification the long
    entry is queued on bar 1; bar 2 carries signal 0, which yields no
    action; yet after bar 2 the order has been filled: the position is
    LONG, entered on bar 2 at 1.1005 + 0.00005 = 1.10055 (the float of
    that decimal). *)
Lemma queued_entry_survives_no_signal_bar :
  exists st1 st2 e_price,
    bar_loop 2 3 scenario_signals 0 (firstn 2 scenario_bars)
             BacktestState_default = inr st1 /\
    pending st1 = Some (mkPendingOrder None (Some LONG) (Some 1) "signal") /\
    nth_error scenario_signals 2 = Some 0 /\
    evaluate_signal (position st1) 0 2 = inr Action_default /\
    bar_step 2 3 scenario_signals 2 (bar_at 2 (11005 # 10000) false) st1
      = inr st2 /\
    current_direction (position st2) = LONG /\
    entry_bar st2 = Some 2 /\
    entry_price st2 = Some e_price /\
    e_price = Binary64.b64 (110055 # 100000).
Proof.
  eexists. eexists. eexists.
  split; [vm_compute; reflexivity |].
  split; [reflexivity |].
  split; [reflexivity |].
  split; [reflexivity |].
  split; [vm_compute; reflexivity |].
  repeat split; vm_compute; reflexivity.
Qed.

(** X1, witness: the first three bars of the scenario. *)
Lemma loop_prefix_invariant_witness :
  exists st,
    bar_loop 2 3 scenario_signals 0 (firstn 3 scenario_bars)
             BacktestState_default = inr st /\
    entry_cache_ok st /\
    current_direction (position st) = LONG.
Proof.
  eexists. split; [vm_compute; reflexivity |].
  split; [| reflexivity].
  apply (loop_prefix_invariant 2 3 scenario_bars scenario_signals 3).
  vm_compute. reflexivity.
Defined.

(** X3, witness: the scenario of the specification. *)
Lemma trade_ids_sequential_witness :
  exists st,
    run_backtest 2 3 scenario_bars scenario_signals = inr st /\
    map TradeLedger.trade_id (TradeLedger.trades (ledger st)) = [1] /\
    ids_sequential (ledger st).
Proof.
  eexists. split; [vm_compute; reflexivity |].
  split; [reflexivity |].
  apply (trade_ids_sequential 2 3 scenario_bars scenario_signals).
  vm_compute. reflexivity.
Defined.

(** X4, witness: two LONG trades entered at 1.1000, one exited a tick
    higher than the other; the first is a winner. *)
Lemma net_pnl_monotone_witness :
  Qle
    (TradeLedger.net_pnl
       (TradeLedger.build_trade 1 LONG 0 1 (11000 # 10000) (110050 # 100000)))
    (TradeLedger.net_pnl
       (TradeLedger.build_trade 2 LONG 2 3 (11000 # 10000) (110055 # 100000)))
  /\ ((11000 # 10000) < (110050 # 100000))%Q.
Proof.
  assert (H : ((110050 # 100000) - (11000 # 10000) <=
               (110055 # 100000) - (11000 # 10000))%Q)
    by (apply Qle_bool_iff; reflexivity).
  pose proof (net_pnl_monotone 1 2 LONG 0 1 2 3 (11000 # 10000)
                (110050 # 100000) (11000 # 10000) (110055 # 100000) H)
    as (H1 & _ & H3).
  split; [exact (H1 eq_refl) |].
  exact (proj1 (H3 eq_refl) eq_refl).
Defined.

(** X5, witness: the queued long entry meets the roll bar of
    [roll_bars]. *)
Lemma roll_bar_queues_only_a_close_witness :
  exists st',
    bar_step 2 3 roll_signals 1 (bar_at 1 (11010 # 10000) true)
             queued_entry_state = inr st' /\
    roll_freeze_remaining st' = 3.
Proof.
  assert (Hok : state_ok queued_entry_state).
  { split; [exact I |]. simpl. unfold pending_ok. simpl.
    split; [reflexivity | discriminate]. }
  eexists. split; [vm_compute; reflexivity |].
  refine (proj1 (roll_bar_queues_only_a_close 2 3 roll_signals 1%nat
                   (bar_at 1 (11010 # 10000) true) queued_entry_state _
                   Hok eq_refl _)).
  vm_compute. reflexivity.
Defined.

(* ================================================================== *)
(** * More properties of the engine *)

(** Splits an equation [bind m k = inr b] of the context. *)
Ltac bind_dest H :=
  let a := fresh "a" in
  let Ha := fresh "Ha" in
  apply bind_inr in H; destruct H as (a & Ha & H).

Section MoreEngine.
Variable ROLL_CLOSE_SLIPPAGE_TICKS : Z.
Variable ROLL_FREEZE_BARS_POST : Z.

Abbreviation execute_pending := (_execute_pending ROLL_CLOSE_SLIPPAGE_TICKS).
Abbreviation force_close := (_force_close_at_end ROLL_CLOSE_SLIPPAGE_TICKS).
Abbreviation step := (bar_step ROLL_CLOSE_SLIPPAGE_TICKS ROLL_FREEZE_BARS_POST).
Abbreviation loop := (bar_loop ROLL_CLOSE_SLIPPAGE_TICKS ROLL_FREEZE_BARS_POST).
Abbreviation run := (run_backtest ROLL_CLOSE_SLIPPAGE_TICKS ROLL_FREEZE_BARS_POST).
Abbreviation executed_at := (executed ROLL_CLOSE_SLIPPAGE_TICKS).
Abbreviation step1 := (after_step1 ROLL_CLOSE_SLIPPAGE_TICKS).

Lemma ForallOrdPairs_snoc {A : Type} (R : A -> A -> Prop) (l : list A) (a : A) :
  ForallOrdPairs R l -> Forall (fun x => R x a) l ->
  ForallOrdPairs R (l ++ [a]).
Proof.
  induction 1 as [| x l Hx Hl IH]; simpl; intros Ha.
  - constructor; constructor.
  - inversion Ha; subst. constructor.
    + apply Forall_app. split; [exact Hx | constructor; [assumption | constructor]].
    + apply IH. assumption.
Qed.

Lemma last_cons {A : Type} (l : list A) (a d : A) :
  last (a :: l) d = last l a.
Proof.
  revert a d. induction l as [| b l IH]; intros a d; [reflexivity |].
  change (last (a :: b :: l) d) with (last (b :: l) d).
  rewrite (IH b d), (IH b a). reflexivity.
Qed.

Lemma after_step1_timeline (T : Timestamp) (st : BacktestState) (bar : Bar) :
  state_ok st -> timeline_ok T st -> T <= ts_event bar ->
  timeline_ok (ts_event bar) (step1 st bar).
Proof.
  intros [Hc Hp] (Hall & Hord & Hentry) HT.
  assert (Hall' : Forall (fun t => TradeLedger.direction t <> FLAT /\
                     TradeLedger.entry_bar t <= TradeLedger.exit_bar t /\
                     TradeLedger.exit_bar t <= ts_event bar)
                    (TradeLedger.trades (ledger st))).
  { eapply Forall_impl; [| exact Hall]. simpl. intros t (H1 & H2 & H3).
    repeat split; auto. lia. }
  unfold after_step1. destruct (pending st) as [p |] eqn:Ep.
  2:{ split; [exact Hall' |]. split; [exact Hord |].
      intros eb Heb. destruct (Hentry eb Heb). split; [lia | assumption]. }
  unfold pending_ok in Hp. unfold entry_cache_ok in Hc. unfold executed.
  destruct st as [[dir idx] led pend ep eb fr]; simpl in *.
  destruct (close_direction p) as [cd |], (open_direction p) as [od |];
    try contradiction.
  - (* reversal *)
    destruct Hp as (-> & Hcd & Hod).
    destruct dir, ep as [ep |], eb as [eb |]; try contradiction; try congruence;
      destruct (Hentry eb eq_refl) as [Hle Hex];
      (split; [| split]); simpl.
    all: try (apply Forall_app; split; [exact Hall' |];
              constructor; [| constructor]; simpl;
              repeat split; [congruence | lia | lia]).
    all: try (apply ForallOrdPairs_snoc; [exact Hord | exact Hex]).
    all: intros eb' [= <-]; split; [lia |];
         apply Forall_app; split;
         [eapply Forall_impl; [| exact Hall']; simpl; intros t (_ & _ & H3); exact H3
         | constructor; [simpl; lia | constructor]].
  - (* close only *)
    destruct Hp as (-> & Hcd).
    destruct dir, ep as [ep |], eb as [eb |]; try contradiction; try congruence;
      destruct (Hentry eb eq_refl) as [Hle Hex];
      (split; [| split]); simpl.
    all: try (apply Forall_app; split; [exact Hall' |];
              constructor; [| constructor]; simpl;
              repeat split; [congruence | lia | lia]).
    all: try (apply ForallOrdPairs_snoc; [exact Hord | exact Hex]).
    all: intros eb' H; discriminate.
  - (* open only *)
    destruct Hp as (-> & Hod). simpl.
    split; [exact Hall' |]. split; [exact Hord |].
    intros eb' [= <-]. split; [lia |].
    eapply Forall_impl; [| exact Hall']. simpl. intros t (_ & _ & H3). exact H3.
Qed.

Lemma step_timeline (signals : list Z) (i : nat) (bar : Bar) (T : Timestamp)
  (st st' : BacktestState) :
  state_ok st -> timeline_ok T st -> T <= ts_event bar ->
  step signals i bar st = inr st' ->
  timeline_ok (ts_event bar) st'.
Proof.
  intros Hok Ht HT H. rewrite (step_unfold _ _ _ _ _ _ Hok) in H.
  destruct (after_step1_ok ROLL_CLOSE_SLIPPAGE_TICKS st bar Hok) as [H1 H2].
  destruct (after_pending_state_ok _ _ _ _ _ _ H1 H2 H)
    as (_ & El & _ & _ & Eeb).
  pose proof (after_step1_timeline T st bar Hok Ht HT) as (A & B & C).
  unfold timeline_ok. rewrite El, Eeb. auto.
Qed.

Lemma loop_timeline (signals : list Z) (bars : list Bar) :
  forall (i : nat) (T : Timestamp) (st st' : BacktestState),
    state_ok st -> timeline_ok T st ->
    StronglySorted Z.le (T :: map ts_event bars) ->
    loop signals i bars st = inr st' ->
    timeline_ok (last (map ts_event bars) T) st'.
Proof.
  induction bars as [| bar rest IH]; intros i T st st' Hok Ht Hs H.
  - simpl in *. inversion H. subst. exact Ht.
  - simpl in H. bind_dest H.
    apply StronglySorted_inv in Hs. destruct Hs as [Hs HT].
    assert (HTb : T <= ts_event bar) by (inversion HT; assumption).
    pose proof (step_timeline _ _ _ _ _ _ Hok Ht HTb Ha) as Ht1.
    assert (Hok1 : state_ok a) by (eapply step_state_ok; eassumption).
    specialize (IH (S i) (ts_event bar) a st' Hok1 Ht1 Hs H).
    change (map ts_event (bar :: rest))
      with (ts_event bar :: map ts_event rest).
    rewrite last_cons. exact IH.
Qed.

Lemma iloc_last_last (bars : list Bar) (b : Bar) (d : Timestamp) :
  iloc_last bars = inr b -> last (map ts_event bars) d = ts_event b.
Proof.
  intros H. destruct (iloc_last_In _ _ H) as [front ->].
  rewrite map_app. simpl. apply last_last.
Qed.

(** X6.  On bars in chronological order the ledger of a finished run is
    a sequence of round trips that do not overlap: every trade is LONG
    or SHORT, exits at or after its entry, and exits at or before the
    entry of every later trade of the ledger. *)
Theorem trades_do_not_overlap
  (bars : list Bar) (signals : list Z) (st : BacktestState) :
  chronological bars ->
  run bars signals = inr st ->
  Forall (fun t => (TradeLedger.direction t = LONG \/
                    TradeLedger.direction t = SHORT) /\
                   TradeLedger.entry_bar t <= TradeLedger.exit_bar t)
         (TradeLedger.trades (ledger st)) /\
  ForallOrdPairs (fun a b => TradeLedger.exit_bar a <= TradeLedger.entry_bar b)
                 (TradeLedger.trades (ledger st)).
Proof.
  intros Hch H.
  assert (Hgoal : forall T l,
            Forall (fun t => TradeLedger.direction t <> FLAT /\
                             TradeLedger.entry_bar t <= TradeLedger.exit_bar t /\
                             TradeLedger.exit_bar t <= T) l ->
            Forall (fun t => (TradeLedger.direction t = LONG \/
                              TradeLedger.direction t = SHORT) /\
                             TradeLedger.entry_bar t <= TradeLedger.exit_bar t)
                   l).
  { intros T l A. eapply Forall_impl; [| exact A]. simpl.
    intros t (H1 & H2 & _).
    split; [| exact H2]. destruct (TradeLedger.direction t); auto; congruence. }
  destruct (run_inr _ _ _ _ _ H) as (sl & Hl & Hok & Hf).
  destruct bars as [| b0 rest].
  { simpl in Hl. inversion Hl. subst sl. simpl in Hf. inversion Hf. subst st.
    simpl. split; constructor. }
  assert (Ht0 : timeline_ok (ts_event b0) BacktestState_default).
  { split; [constructor |]. split; [constructor |]. intros eb; discriminate. }
  assert (Hs : StronglySorted Z.le (ts_event b0 :: map ts_event (b0 :: rest))).
  { constructor; [exact Hch |]. unfold chronological in Hch. simpl in Hch.
    apply StronglySorted_inv in Hch. destruct Hch as [_ Hall].
    constructor; [lia | exact Hall]. }
  pose proof (loop_timeline signals (b0 :: rest) 0%nat (ts_event b0) _ _
                default_state_ok Ht0 Hs Hl) as Htl.
  destruct (is_flat (position sl)) eqn:Ef.
  - rewrite (force_close_flat _ _ _ Ef) in Hf. inversion Hf. subst st.
    destruct Htl as (A & B & _). split; [eapply Hgoal; exact A | exact B].
  - assert (Hlast : exists b, iloc_last (b0 :: rest) = inr b).
    { unfold _force_close_at_end in Hf. rewrite Ef in Hf.
      destruct (iloc_last (b0 :: rest)) as [e | b]; [discriminate | eauto]. }
    destruct Hlast as [b Hb].
    destruct (force_close_held ROLL_CLOSE_SLIPPAGE_TICKS sl _ b Hok Ef Hb) as (ep & eb & Eep & Eeb & E).
    rewrite E in Hf. inversion Hf. subst st. clear Hf E.
    rewrite (iloc_last_last _ _ _ Hb) in Htl.
    destruct Htl as (A & B & C). destruct (C eb Eeb) as [Hle Hex].
    unfold force_closed. simpl. split.
    + apply (Hgoal (ts_event b)).
      apply Forall_app. split; [exact A |]. constructor; [| constructor].
      simpl. repeat split; try lia.
      unfold is_flat in Ef. intros Hd. rewrite Hd in Ef. discriminate.
    + apply ForallOrdPairs_snoc; [exact B | exact Hex].
Qed.

(** X7.  On a bar inside the freeze window (not a roll bar, freeze
    counter positive) the signal series is not read: whatever the
    signals and the bar index, the step succeeds with the same state,
    in which no order is queued and the counter is one lower.  The
    pending order of the previous bar is still executed first. *)
Theorem frozen_bar_discards_signal
  (bar : Bar) (st : BacktestState) :
  state_ok st ->
  contains_roll bar = false ->
  0 < roll_freeze_remaining st ->
  exists st',
    (forall (signals : list Z) (i : nat), step signals i bar st = inr st') /\
    pending st' = None /\
    roll_freeze_remaining st' = roll_freeze_remaining st - 1 /\
    position st' = position (step1 st bar) /\
    ledger st' = ledger (step1 st bar).
Proof.
  intros Hok Hroll Hfr.
  destruct (after_step1_ok ROLL_CLOSE_SLIPPAGE_TICKS st bar Hok) as [_ Hp].
  assert (Efr : roll_freeze_remaining (step1 st bar) = roll_freeze_remaining st).
  { unfold after_step1. destruct (pending st) as [p |]; [| reflexivity].
    unfold executed.
    destruct (close_direction p), (entry_price st), (entry_bar st),
      (open_direction p); reflexivity. }
  exists (set_roll_freeze_remaining (step1 st bar)
            (roll_freeze_remaining (step1 st bar) - 1)).
  split; [| split; [exact Hp | split; [simpl; rewrite Efr; reflexivity | split; reflexivity]]].
  intros signals i. rewrite (step_unfold _ _ _ _ _ _ Hok).
  unfold after_pending. rewrite Hroll, Efr.
  assert (E : (0 <? roll_freeze_remaining st) = true) by (apply Z.ltb_lt; exact Hfr).
  rewrite E. reflexivity.
Qed.

(** X8.  A reversal exits and re-enters at the same price.  When a
    held position [d] meets the opposite signal on an ordinary bar, the
    next bar closes the old position and opens the opposite one in the
    same execution: one trade is appended, its exit_bar is the new
    entry_bar, and its exit_price is the new entry_price (both legs are
    orders of the same direction at the same open). *)
Theorem reversal_reenters_at_exit_price
  (signals : list Z) (i : nat) (bar next_bar : Bar) (d : Direction)
  (st st1 st2 : BacktestState) :
  state_ok st ->
  pending st = None ->
  current_direction (position st) = d ->
  d = LONG \/ d = SHORT ->
  contains_roll bar = false ->
  roll_freeze_remaining st <= 0 ->
  nth_error signals i = Some (- value d) ->
  step signals i bar st = inr st1 ->
  step signals (S i) next_bar st1 = inr st2 ->
  exists t,
    TradeLedger.trades (ledger st2) = TradeLedger.trades (ledger st) ++ [t] /\
    TradeLedger.direction t = d /\
    TradeLedger.exit_bar t = ts_event next_bar /\
    value (current_direction (position st2)) = - value d /\
    entry_bar st2 = Some (TradeLedger.exit_bar t) /\
    entry_price st2 = Some (TradeLedger.exit_price t).
Proof.
  intros Hok Hp Hd Hdir Hroll Hfr Hn H1 H2.
  assert (Hok1 : state_ok st1) by (eapply step_state_ok; eassumption).
  (* the first bar queues the reversal *)
  assert (E1 : st1 = set_pending st
                 (Some (mkPendingOrder (Some d) (Some (opposite d))
                                       (Some (ts_event bar)) "signal"))).
  { unfold bar_step in H1. rewrite Hp in H1. rewrite bind_ret_l in H1.
    unfold after_pending in H1. rewrite Hroll in H1.
    assert (E : (0 <? roll_freeze_remaining st) = false) by (apply Z.ltb_ge; exact Hfr).
    rewrite E in H1. unfold iloc in H1. rewrite Hn, bind_ret_l in H1.
    unfold evaluate_signal, is_flat in H1. rewrite Hd in H1.
    destruct Hdir as [-> | ->]; simpl in H1; inversion H1; reflexivity. }
  rewrite (step_unfold _ _ _ _ _ _ Hok1) in H2.
  destruct (after_step1_ok ROLL_CLOSE_SLIPPAGE_TICKS st1 next_bar Hok1) as [Hs1 Hs2].
  destruct (after_pending_state_ok _ _ _ _ _ _ Hs1 Hs2 H2)
    as (_ & El & Epos & Eep & Eeb).
  rewrite El, Epos, Eep, Eeb. subst st1.
  destruct Hok as [Hc _]. unfold entry_cache_ok in Hc.
  unfold after_step1, executed. simpl.
  destruct st as [[dir idx] led pend ep eb fr]; simpl in *. subst dir.
  destruct Hdir as [-> | ->];
    destruct ep as [ep |], eb as [eb |]; try contradiction; simpl;
    (eexists; split; [reflexivity |]; simpl;
     repeat split; reflexivity).
Qed.

(** On well-formed signals the run returns, flat. *)
Lemma run_returns (bars : list Bar) (signals : list Z) :
  Forall valid_signal signals ->
  (List.length bars <= List.length signals)%nat ->
  exists st, run bars signals = inr st /\
             current_direction (position st) = FLAT.
Proof.
  intros Hsig Hlen.
  destruct (loop_total ROLL_CLOSE_SLIPPAGE_TICKS ROLL_FREEZE_BARS_POST
              signals bars Hsig 0%nat BacktestState_default Hlen
              default_state_ok) as [sl Hl].
  assert (Hok : state_ok sl)
    by (eapply loop_state_ok; [apply default_state_ok | exact Hl]).
  unfold run_backtest. rewrite Hl, bind_ret_l.
  destruct (is_flat (position sl)) eqn:Ef.
  - exists sl. split; [apply force_close_flat; exact Ef |].
    apply Direction_eqb_eq. exact Ef.
  - assert (Hne : bars <> []).
    { intros ->. apply loop_nil_flat in Hl. congruence. }
    destruct (iloc_last_nonempty bars Hne) as [b Hb].
    destruct (force_close_held ROLL_CLOSE_SLIPPAGE_TICKS sl bars b Hok Ef Hb)
      as (ep & eb & _ & _ & E).
    eexists. split; [exact E | reflexivity].
Qed.

End MoreEngine.
(* ================================================================== *)
(** * Series columns *)

Section Columns.
Import Pandas.

Lemma index_equals_eq (a b : list Timestamp) :
  index_equals a b = true <-> a = b.
Proof.
  revert b. induction a as [| x a IH]; intros [| y b]; simpl;
    try (split; [discriminate | congruence]); [tauto |].
  rewrite andb_true_iff, Z.eqb_eq, IH. split.
  - intros [-> ->]. reflexivity.
  - intros [= -> ->]. auto.
Qed.

Lemma zip_with_length {A B C : Type} (f : A -> B -> C) (a : list A) (b : list B) :
  List.length a = List.length b ->
  List.length (zip_with f a b) = List.length a.
Proof.
  revert b. induction a as [| x a IH]; intros [| y b]; simpl;
    try discriminate; auto.
Qed.

Lemma zip_with_map_same {A B C D : Type} (f : B -> C -> D)
  (g : A -> B) (h : A -> C) (c : list A) :
  zip_with f (map g c) (map h c) = map (fun x => f (g x) (h x)) c.
Proof. induction c as [| x c IH]; simpl; [| rewrite IH]; reflexivity. Qed.

Lemma zip_with_firstn {A B C : Type} (f : A -> B -> C) (k : nat)
  (a : list A) (b : list B) :
  zip_with f (firstn k a) (firstn k b) = firstn k (zip_with f a b).
Proof.
  revert a b. induction k as [| k IH]; intros [| x a] [| y b]; simpl;
    try reflexivity.
  rewrite IH. reflexivity.
Qed.

Lemma map_const_length {A B C : Type} (k : C) (a : list A) (b : list B) :
  List.length a = List.length b ->
  map (fun _ => k) a = map (fun _ => k) b.
Proof.
  revert b. induction a as [| x a IH]; intros [| y b]; simpl;
    try discriminate; [reflexivity |].
  intros [= H]. rewrite (IH b H). reflexivity.
Qed.

Lemma shift1_length {A : Type} (l : list A) :
  List.length (shift1 l) = List.length l.
Proof.
  destruct l as [| x l]; [reflexivity |].
  unfold shift1. cbn [List.length]. rewrite length_map.
  revert x. induction l as [| y l IH]; intros x; [reflexivity |].
  change (removelast (x :: y :: l)) with (x :: removelast (y :: l)).
  cbn [List.length]. rewrite IH. reflexivity.
Qed.

Lemma combine_removelast {A : Type} (r : list A) (d : A) :
  combine r (removelast (d :: r)) = with_prev d r.
Proof.
  revert d. induction r as [| x r IH]; intros d; [reflexivity |].
  change (removelast (d :: x :: r)) with (d :: removelast (x :: r)).
  change (combine (x :: r) (d :: removelast (x :: r)))
    with ((x, d) :: combine r (removelast (x :: r))).
  rewrite IH. reflexivity.
Qed.

Lemma combine_map_r {A B C : Type} (g : B -> C) (a : list A) (b : list B) :
  combine a (map g b) = map (fun c => (fst c, g (snd c))) (combine a b).
Proof.
  revert b. induction a as [| x a IH]; intros [| y b]; simpl; try reflexivity.
  rewrite IH. reflexivity.
Qed.

Lemma combine_shift1 {A : Type} (l : list A) :
  combine l (shift1 l) =
  match l with
  | [] => []
  | d :: r => (d, None) :: map (fun c => (fst c, Some (snd c))) (with_prev d r)
  end.
Proof.
  destruct l as [| d r]; [reflexivity |].
  unfold shift1.
  change (combine (d :: r) (None :: map Some (removelast (d :: r))))
    with ((d, @None A) :: combine r (map Some (removelast (d :: r)))).
  rewrite combine_map_r, combine_removelast. reflexivity.
Qed.

Lemma map_fst_combine_eq {A B : Type} (a : list A) (b : list B) :
  List.length a = List.length b -> map fst (combine a b) = a.
Proof.
  revert b. induction a as [| x a IH]; intros [| y b]; simpl;
    try discriminate; [reflexivity |].
  intros [= H]. rewrite (IH b H). reflexivity.
Qed.

Lemma map_snd_combine_eq {A B : Type} (a : list A) (b : list B) :
  List.length a = List.length b -> map snd (combine a b) = b.
Proof.
  revert b. induction a as [| x a IH]; intros [| y b]; simpl;
    try discriminate; [reflexivity |].
  intros [= H]. rewrite (IH b H). reflexivity.
Qed.

Lemma index_length {A : Type} (s : Series A) :
  List.length (index s) = List.length s.
Proof. apply length_map. Qed.

Lemma values_length {A : Type} (s : Series A) :
  List.length (values s) = List.length s.
Proof. apply length_map. Qed.

End Columns.

(* ================================================================== *)
(** * Crossover signals *)

Section CrossoverProperties.
Import Pandas Crossover.

Lemma signal_columns (c : list (float * float)) (idx : list Timestamp) :
  List.length idx = List.length c ->
  let diff := map fst c in
  let prev_diff := map snd c in
  let valid := zip_with andb (map notna diff) (map notna prev_diff) in
  let cross_up :=
    zip_with andb (zip_with andb valid (map gt0 diff)) (map le0 prev_diff) in
  let cross_dn :=
    zip_with andb (zip_with andb valid (map lt0 diff)) (map ge0 prev_diff) in
  set_where (set_where (map (fun _ => 0) idx) cross_up 1) cross_dn (-1) =
  map (fun x => crossover_rule (fst x) (snd x)) c.
Proof.
  intros Hlen. cbv zeta. unfold set_where.
  rewrite (map_const_length 0 idx c Hlen).
  rewrite !map_map. rewrite !zip_with_map_same.
  apply map_ext. intros [d p]. unfold crossover_rule. simpl.
  destruct (notna d && notna p), (gt0 d), (le0 p), (lt0 d), (ge0 p);
    reflexivity.
Qed.

Lemma combine_with_shift (diff : list float) :
  combine diff
    (map (fun c => match c with Some x => x | None => None end) (shift1 diff))
  = with_prev None diff.
Proof.
  rewrite combine_map_r, combine_shift1.
  destruct diff as [| d r]; [reflexivity |]. simpl. f_equal.
  rewrite map_map.
  transitivity (map (fun c : float * float => c) (with_prev d r));
    [apply map_ext; intros [x y]; reflexivity | apply map_id].
Qed.

(** [generate_crossover_signals] on two EMA series with the same index. *)
Lemma generate_crossover_signals_eq (ema_fast ema_slow : Series float) :
  index ema_fast = index ema_slow ->
  generate_crossover_signals ema_fast ema_slow =
  inr (make_series (index ema_fast) (crossover_values ema_fast ema_slow)).
Proof.
  intros Hidx. unfold generate_crossover_signals, crossover_values.
  rewrite (proj2 (index_equals_eq _ _) Hidx). simpl negb. cbv iota.
  assert (Hlen : List.length (values ema_fast) = List.length (values ema_slow)).
  { rewrite !values_length, <- !index_length, Hidx. reflexivity. }
  set (diff := zip_with fsub (values ema_fast) (values ema_slow)).
  assert (Hdl : List.length diff = List.length (values ema_fast))
    by (apply zip_with_length; exact Hlen).
  set (prevs := map (fun c => match c with Some x => x | None => None end)
                    (shift1 diff)).
  assert (Hc : combine diff prevs = with_prev None diff)
    by apply combine_with_shift.
  assert (Hpl : List.length diff = List.length prevs).
  { unfold prevs. rewrite length_map, shift1_length. reflexivity. }
  assert (Hd : diff = map fst (with_prev None diff)).
  { rewrite <- Hc. symmetry. apply map_fst_combine_eq. exact Hpl. }
  assert (Hp : prevs = map snd (with_prev None diff)).
  { rewrite <- Hc. symmetry. apply map_snd_combine_eq. exact Hpl. }
  assert (Hil : List.length (index ema_fast) = List.length (with_prev None diff)).
  { rewrite <- Hc, length_combine, <- Hpl, Nat.min_id, Hdl.
    rewrite index_length, values_length. reflexivity. }
  cbv zeta. rewrite Hp. clearbody prevs. clear Hp Hc Hpl prevs.
  set (c := with_prev None diff) in *.
  rewrite Hd. f_equal. f_equal.
  apply (signal_columns c (index ema_fast) Hil).
Qed.

Lemma values_make_series {A : Type} (idx : list Timestamp) (v : list A) :
  List.length idx = List.length v -> values (make_series idx v) = v.
Proof. apply map_snd_combine_eq. Qed.

Lemma index_make_series {A : Type} (idx : list Timestamp) (v : list A) :
  List.length idx = List.length v -> index (make_series idx v) = idx.
Proof. apply map_fst_combine_eq. Qed.

Lemma with_prev_length {A : Type} (l : list A) (p : A) :
  List.length (with_prev p l) = List.length l.
Proof.
  revert p. induction l as [| d r IH]; intros p; simpl; [| rewrite IH];
    reflexivity.
Qed.

Lemma with_prev_firstn {A : Type} (k : nat) (l : list A) (p : A) :
  with_prev p (firstn k l) = firstn k (with_prev p l).
Proof.
  revert l p. induction k as [| k IH]; intros [| d r] p; simpl;
    try reflexivity.
  rewrite IH. reflexivity.
Qed.

Lemma crossover_values_length (ema_fast ema_slow : Series float) :
  index ema_fast = index ema_slow ->
  List.length (crossover_values ema_fast ema_slow) =
  List.length (index ema_fast).
Proof.
  intros Hidx. unfold crossover_values.
  rewrite length_map, with_prev_length, zip_with_length.
  - rewrite values_length, index_length. reflexivity.
  - rewrite !values_length, <- !index_length, Hidx. reflexivity.
Qed.

Lemma crossover_rule_valid (d p : float) : valid_signal (crossover_rule d p).
Proof.
  unfold crossover_rule, valid_signal.
  destruct ((notna d && notna p && lt0 d) && ge0 p); [auto |].
  destruct ((notna d && notna p && gt0 d) && le0 p); auto.
Qed.

Lemma crossover_rule_nan_l (p : float) : crossover_rule None p = 0.
Proof. reflexivity. Qed.

Lemma crossover_rule_nan_r (d : float) : crossover_rule d None = 0.
Proof. unfold crossover_rule. destruct (notna d); reflexivity. Qed.

Lemma generate_inr_index (ema_fast ema_slow : Series float) (sig : Series Z) :
  generate_crossover_signals ema_fast ema_slow = inr sig ->
  index ema_fast = index ema_slow.
Proof.
  unfold generate_crossover_signals.
  destruct (index_equals (index ema_fast) (index ema_slow)) eqn:E;
    [| discriminate].
  intros _. apply index_equals_eq. exact E.
Qed.

Lemma crossover_values_valid (ema_fast ema_slow : Series float) :
  Forall valid_signal (crossover_values ema_fast ema_slow).
Proof.
  unfold crossover_values. apply Forall_forall. intros z Hz.
  apply in_map_iff in Hz. destruct Hz as ([d p] & <- & _).
  apply crossover_rule_valid.
Qed.

(** X9.  [generate_crossover_signals] fails, with its ValueError,
    exactly when the two EMA series have different indices; otherwise it
    returns a series on the index of the inputs whose values are all in
    {-1, 0, 1} and whose first value is 0. *)
Theorem crossover_signals_well_formed (ema_fast ema_slow : Series float) :
  match generate_crossover_signals ema_fast ema_slow with
  | inl e => e = ValueError_index_mismatch /\ index ema_fast <> index ema_slow
  | inr sig =>
      index ema_fast = index ema_slow /\
      index sig = index ema_fast /\
      Forall valid_signal (values sig) /\
      hd 0 (values sig) = 0
  end.
Proof.
  destruct (index_equals (index ema_fast) (index ema_slow)) eqn:E.
  - apply index_equals_eq in E.
    rewrite (generate_crossover_signals_eq _ _ E).
    pose proof (crossover_values_length _ _ E) as Hlen.
    split; [exact E |].
    rewrite index_make_series, values_make_series by (symmetry; exact Hlen).
    split; [reflexivity |]. split.
    + apply crossover_values_valid.
    + unfold crossover_values.
      destruct (zip_with fsub (values ema_fast) (values ema_slow))
        as [| d r]; [reflexivity |].
      simpl. apply crossover_rule_nan_r.
  - unfold generate_crossover_signals. rewrite E. simpl.
    split; [reflexivity |]. intros H. apply index_equals_eq in H. congruence.
Qed.

(** X10.  The signal of a bar is computed from the EMA values up to that
    bar only: on the series cut after their first [k] rows the function
    returns the first [k] rows of the full signal series. *)
Theorem crossover_signals_no_lookahead
  (ema_fast ema_slow : Series float) (sig : Series Z) (k : nat) :
  generate_crossover_signals ema_fast ema_slow = inr sig ->
  generate_crossover_signals (firstn k ema_fast) (firstn k ema_slow) =
  inr (firstn k sig).
Proof.
  intros H. pose proof (generate_inr_index _ _ _ H) as Hidx.
  rewrite (generate_crossover_signals_eq _ _ Hidx) in H. inversion H. clear H.
  assert (Hk : index (firstn k ema_fast) = index (firstn k ema_slow)).
  { unfold index. rewrite <- !firstn_map. fold (index ema_fast).
    fold (index ema_slow). rewrite Hidx. reflexivity. }
  rewrite (generate_crossover_signals_eq _ _ Hk). f_equal.
  unfold make_series. rewrite combine_firstn. f_equal.
  - unfold index. rewrite firstn_map. reflexivity.
  - unfold crossover_values, values.
    rewrite <- !firstn_map, zip_with_firstn, with_prev_firstn, <- firstn_map.
    reflexivity.
Qed.

Lemma gt0_not_le0 (d : float) : gt0 d = true -> le0 d = false.
Proof.
  destruct d as [q |]; simpl; [| discriminate].
  unfold Qltb. destruct (0 ?= q)%Q eqn:E; try discriminate. intros _.
  apply (proj2 (Qlt_alt _ _)) in E.
  destruct (Qle_bool q 0) eqn:L; [| reflexivity].
  apply Qle_bool_iff in L. lra.
Qed.

Lemma lt0_not_ge0 (d : float) : lt0 d = true -> ge0 d = false.
Proof.
  destruct d as [q |]; simpl; [| discriminate].
  unfold Qltb. destruct (q ?= 0)%Q eqn:E; try discriminate. intros _.
  apply (proj2 (Qlt_alt _ _)) in E.
  destruct (Qle_bool 0 q) eqn:L; [| reflexivity].
  apply Qle_bool_iff in L. lra.
Qed.

Lemma crossover_rule_successive (d p d' : float) :
  crossover_rule d p = 0 \/ crossover_rule d' d = 0 \/
  crossover_rule d' d = - crossover_rule d p.
Proof.
  unfold crossover_rule.
  destruct (lt0 d) eqn:Hlt; [rewrite (lt0_not_ge0 d Hlt) |];
  destruct (gt0 d) eqn:Hgt; try rewrite (gt0_not_le0 d Hgt);
  destruct (notna d), (notna p), (notna d'), (ge0 p), (le0 p),
    (lt0 d'), (gt0 d'), (ge0 d), (le0 d); simpl; auto.
Qed.

Lemma with_prev_successive (l : list float) :
  forall (p : float) (i : nat) (a b : Z),
    nth_error (map (fun c => crossover_rule (fst c) (snd c)) (with_prev p l)) i
      = Some a ->
    nth_error (map (fun c => crossover_rule (fst c) (snd c)) (with_prev p l))
              (S i) = Some b ->
    a = 0 \/ b = 0 \/ b = - a.
Proof.
  induction l as [| d r IH]; intros p i a b Ha Hb.
  - destruct i; discriminate.
  - destruct i as [| i].
    + destruct r as [| d' r']; [discriminate |].
      simpl in Ha, Hb. inversion Ha. inversion Hb.
      apply crossover_rule_successive.
    + simpl in Ha, Hb. eapply IH; eassumption.
Qed.

(** X11.  Crossovers alternate: two consecutive bars never carry the
    same non-zero signal (of two consecutive signals one is 0, or they
    are +1 and -1 in either order). *)
Theorem crossover_signals_never_repeat
  (ema_fast ema_slow : Series float) (sig : Series Z) (i : nat) (a b : Z) :
  generate_crossover_signals ema_fast ema_slow = inr sig ->
  nth_error (values sig) i = Some a ->
  nth_error (values sig) (S i) = Some b ->
  a = 0 \/ b = 0 \/ b = - a.
Proof.
  intros H. pose proof (generate_inr_index _ _ _ H) as Hidx.
  rewrite (generate_crossover_signals_eq _ _ Hidx) in H. inversion H. clear H.
  rewrite values_make_series
    by (symmetry; apply crossover_values_length; exact Hidx).
  apply with_prev_successive.
Qed.

Lemma nth_zip_with {A B C : Type} (f : A -> B -> C) (a : list A) (b : list B)
  (i : nat) :
  nth_error (zip_with f a b) i =
  match nth_error a i, nth_error b i with
  | Some x, Some y => Some (f x y)
  | _, _ => None
  end.
Proof.
  revert a b. induction i as [| i IH]; intros [| x a] [| y b]; simpl;
    try reflexivity.
  - destruct (nth_error a i); reflexivity.
  - apply IH.
Qed.

Lemma nth_with_prev {A : Type} (l : list A) (p : A) (i : nat) :
  nth_error (with_prev p l) i =
  match nth_error l i with
  | Some d => Some (d, match i with O => p | S j => nth j l p end)
  | None => None
  end.
Proof.
  revert p i. induction l as [| x r IH]; intros p [| i]; simpl;
    try reflexivity.
  rewrite IH. destruct (nth_error r i) as [d |] eqn:E; [| reflexivity].
  destruct i as [| j]; [reflexivity |].
  do 2 f_equal. apply nth_indep.
  assert (H : (S j < List.length r)%nat)
    by (apply nth_error_Some; congruence).
  lia.
Qed.

(** A row where either EMA is NaN carries signal 0, and so does the row
    after it. *)
Lemma crossover_values_nan (ema_fast ema_slow : Series float) (i : nat) (z : Z) :
  nth_error (values ema_fast) i = Some None \/
  nth_error (values ema_slow) i = Some None ->
  (nth_error (crossover_values ema_fast ema_slow) i = Some z -> z = 0) /\
  (nth_error (crossover_values ema_fast ema_slow) (S i) = Some z -> z = 0).
Proof.
  intros Hnan. unfold crossover_values.
  set (diff := zip_with fsub (values ema_fast) (values ema_slow)).
  rewrite !nth_error_map, !nth_with_prev.
  assert (Hd : nth_error diff i = None \/ nth_error diff i = Some None).
  { unfold diff. rewrite nth_zip_with.
    destruct Hnan as [-> | H].
    - destruct (nth_error (values ema_slow) i); auto.
    - rewrite H. destruct (nth_error (values ema_fast) i) as [[q |] |]; auto. }
  split.
  - destruct Hd as [-> | ->]; simpl; [discriminate |].
    intros [= <-]. reflexivity.
  - destruct (nth_error diff (S i)) as [d |] eqn:E; simpl; [| discriminate].
    intros [= <-].
    assert (Hn : nth i diff None = None).
    { destruct Hd as [H | H].
      - apply nth_error_None in H. apply nth_overflow. exact H.
      - apply nth_error_nth. exact H. }
    rewrite Hn. apply crossover_rule_nan_r.
Qed.

End CrossoverProperties.
(* ================================================================== *)
(** * Exponential moving averages *)

Section EmaProperties.
Import Pandas Ema.

Lemma ewm_from_length (alpha y : Q) (xs : list Q) :
  List.length (ewm_from alpha y xs) = List.length xs.
Proof.
  revert y. induction xs as [| x r IH]; intros y; simpl; [| rewrite IH];
    reflexivity.
Qed.

Lemma ewm_mean_length (alpha : Q) (xs : list Q) :
  List.length (ewm_mean alpha xs) = List.length xs.
Proof. destruct xs; simpl; [| rewrite ewm_from_length]; reflexivity. Qed.

Lemma ewm_from_firstn (alpha : Q) (k : nat) (xs : list Q) (y : Q) :
  ewm_from alpha y (firstn k xs) = firstn k (ewm_from alpha y xs).
Proof.
  revert xs y. induction k as [| k IH]; intros [| x r] y; simpl;
    try reflexivity.
  rewrite IH. reflexivity.
Qed.

Lemma ewm_mean_firstn (alpha : Q) (k : nat) (xs : list Q) :
  ewm_mean alpha (firstn k xs) = firstn k (ewm_mean alpha xs).
Proof.
  destruct k as [| k], xs as [| x r]; simpl; try reflexivity.
  rewrite ewm_from_firstn. reflexivity.
Qed.

Lemma ewm_from_flat (alpha c : Q) (xs : list Q) :
  Forall (fun x => x == c)%Q xs ->
  forall y, (y == c)%Q ->
  Forall (fun x => x == c)%Q (ewm_from alpha y xs).
Proof.
  induction 1 as [| x r Hx Hr IH]; intros y Hy; simpl; constructor.
  - assert (E : Qeq_bool y x = true)
      by (apply Qeq_bool_iff; rewrite Hx, Hy; reflexivity).
    rewrite E. exact Hy.
  - apply IH.
    assert (E : Qeq_bool y x = true)
      by (apply Qeq_bool_iff; rewrite Hx, Hy; reflexivity).
    rewrite E. exact Hy.
Qed.

Lemma ewm_mean_flat (alpha c : Q) (xs : list Q) :
  Forall (fun x => x == c)%Q xs ->
  Forall (fun x => x == c)%Q (ewm_mean alpha xs).
Proof.
  intros Hx. destruct xs as [| x r]; [constructor |].
  inversion Hx; subst. simpl. constructor; [assumption |].
  apply ewm_from_flat; assumption.
Qed.

(** [compute_ema] on a valid period and a non-empty series. *)
Lemma compute_ema_eq (series : Series Q) (period : Z) :
  2 <= period -> series <> [] ->
  compute_ema series period =
  inr (make_series (index series)
         (let raw := map Some (ewm_mean (2 / inject_Z (period + 1))
                                        (values series)) in
          if (WARMUP_BARS <=? List.length raw)%nat
          then repeat None WARMUP_BARS ++ skipn WARMUP_BARS raw
          else raw)).
Proof.
  intros Hp Hs. unfold compute_ema.
  assert (E : (period <? 2) = false) by (apply Z.ltb_ge; exact Hp).
  rewrite E. destruct series; [congruence | reflexivity].
Qed.

Lemma masked_length {A : Type} (w : nat) (raw : list (option A)) :
  List.length (if (w <=? List.length raw)%nat
               then repeat None w ++ skipn w raw else raw)
  = List.length raw.
Proof.
  destruct (w <=? List.length raw)%nat eqn:E; [| reflexivity].
  apply Nat.leb_le in E.
  rewrite length_app, repeat_length, length_skipn. lia.
Qed.

Lemma compute_ema_values (series : Series Q) (period : Z) (ema : Series float) :
  compute_ema series period = inr ema ->
  2 <= period /\ series <> [] /\ index ema = index series /\
  values ema =
    (let raw := map Some (ewm_mean (2 / inject_Z (period + 1))
                                   (values series)) in
     if (WARMUP_BARS <=? List.length raw)%nat
     then repeat None WARMUP_BARS ++ skipn WARMUP_BARS raw
     else raw).
Proof.
  intros H.
  assert (Hp : 2 <= period).
  { unfold compute_ema in H. destruct (period <? 2) eqn:E; [discriminate |].
    apply Z.ltb_ge. exact E. }
  assert (Hs : series <> []).
  { intros ->. unfold compute_ema in H.
    destruct (period <? 2); discriminate. }
  rewrite (compute_ema_eq _ _ Hp Hs) in H. inversion H. clear H.
  assert (Hlen : List.length (index series) =
                 List.length (let raw := map Some (ewm_mean (2 / inject_Z (period + 1))
                                   (values series)) in
     if (WARMUP_BARS <=? List.length raw)%nat
     then repeat None WARMUP_BARS ++ skipn WARMUP_BARS raw
     else raw)).
  { cbv zeta. rewrite masked_length, length_map, ewm_mean_length.
    rewrite index_length, values_length. reflexivity. }
  rewrite index_make_series, values_make_series by exact Hlen.
  auto.
Qed.

(** X12.  [compute_ema] rejects a period below 2 (checked first) and an
    empty series; otherwise it returns a series on the index of the
    prices.  When the series has at least WARMUP_BARS rows, exactly its
    first WARMUP_BARS values are NaN; a shorter series is returned with
    no NaN at all (the warmup mask is skipped). *)
Theorem compute_ema_shape (series : Series Q) (period : Z) :
  match compute_ema series period with
  | inl e =>
      (period < 2 /\ e = ValueError_period period) \/
      (2 <= period /\ series = [] /\ e = ValueError_empty_series)
  | inr ema =>
      2 <= period /\ index ema = index series /\
      ((WARMUP_BARS <= List.length series)%nat ->
       firstn WARMUP_BARS (values ema) = repeat None WARMUP_BARS /\
       Forall (fun v => notna v = true) (skipn WARMUP_BARS (values ema))) /\
      ((List.length series < WARMUP_BARS)%nat ->
       Forall (fun v => notna v = true) (values ema))
  end.
Proof.
  destruct (compute_ema series period) as [e | ema] eqn:H.
  - unfold compute_ema in H. destruct (period <? 2) eqn:E.
    + left. apply Z.ltb_lt in E. inversion H. auto.
    + right. apply Z.ltb_ge in E. destruct series; inversion H. auto.
  - destruct (compute_ema_values _ _ _ H) as (Hp & Hs & Hi & Hv).
    split; [exact Hp |]. split; [exact Hi |].
    rewrite Hv. cbv zeta. rewrite length_map, ewm_mean_length, values_length.
    set (raw := map Some (ewm_mean (2 / inject_Z (period + 1)) (values series))).
    assert (Hraw : Forall (fun v : float => notna v = true) raw).
    { unfold raw. apply Forall_forall. intros v Hv'.
      apply in_map_iff in Hv'. destruct Hv' as (q & <- & _). reflexivity. }
    split.
    + intros Hlen. apply Nat.leb_le in Hlen. rewrite Hlen.
      split.
      * rewrite firstn_app, repeat_length, Nat.sub_diag, firstn_O, app_nil_r.
        apply firstn_all2. rewrite repeat_length. apply Nat.le_refl.
      * rewrite skipn_app, repeat_length, Nat.sub_diag.
        rewrite skipn_all2 by (rewrite repeat_length; apply Nat.le_refl).
        rewrite skipn_O, app_nil_l.
        rewrite <- (firstn_skipn WARMUP_BARS raw) in Hraw.
        apply Forall_app in Hraw. apply Hraw.
    + intros Hlen. apply Nat.leb_gt in Hlen. rewrite Hlen. exact Hraw.
Qed.

(** X13.  A flat price gives a flat EMA: if every price is [c], so is
    every EMA value that is not NaN, whatever the period (the average
    is not recomputed when the price is equal to it, so no rounding
    enters). *)
Theorem compute_ema_of_flat_prices
  (series : Series Q) (period : Z) (ema : Series float) (c : Q) :
  compute_ema series period = inr ema ->
  Forall (fun x => x == c)%Q (values series) ->
  Forall (fun v => match v with
                   | Some y => (y == c)%Q
                   | None => True
                   end) (values ema).
Proof.
  intros H Hx. destruct (compute_ema_values _ _ _ H) as (Hp & _ & _ & Hv).
  rewrite Hv. cbv zeta.
  pose proof (ewm_mean_flat (2 / inject_Z (period + 1)) c _ Hx) as Hb.
  set (raw := map Some (ewm_mean (2 / inject_Z (period + 1)) (values series))).
  assert (Hraw : Forall (fun v : float => match v with
                   | Some y => (y == c)%Q
                   | None => True
                   end) raw).
  { unfold raw. apply Forall_forall. intros v Hv'.
    apply in_map_iff in Hv'. destruct Hv' as (q & <- & Hq).
    rewrite Forall_forall in Hb. apply Hb. exact Hq. }
  destruct (WARMUP_BARS <=? List.length raw)%nat; [| exact Hraw].
  apply Forall_app. split.
  - apply Forall_forall. intros v Hv'. apply repeat_spec in Hv'. subst v. exact I.
  - rewrite <- (firstn_skipn WARMUP_BARS raw) in Hraw.
    apply Forall_app in Hraw. apply Hraw.
Qed.

(** X14.  Past the warmup the EMA of a bar depends on the prices up to
    that bar only: for [k >= WARMUP_BARS], the EMA of the first [k]
    prices is the first [k] rows of the EMA of the whole series. *)
Theorem compute_ema_no_lookahead
  (series : Series Q) (period : Z) (ema : Series float) (k : nat) :
  compute_ema series period = inr ema ->
  (WARMUP_BARS <= k)%nat ->
  compute_ema (firstn k series) period = inr (firstn k ema).
Proof.
  intros H Hk. destruct (compute_ema_values _ _ _ H) as (Hp & Hs & _ & _).
  pose proof (compute_ema_eq _ _ Hp Hs) as Heq.
  assert (Hema : inr ema = inr (A:=DataError)
            (make_series (index series)
               (let raw := map Some (ewm_mean (2 / inject_Z (period + 1))
                                              (values series)) in
                if (WARMUP_BARS <=? List.length raw)%nat
                then repeat None WARMUP_BARS ++ skipn WARMUP_BARS raw
                else raw)))
    by (rewrite <- H, <- Heq; reflexivity).
  apply (f_equal (fun r => match r with inr x => x | inl _ => ema end)) in Hema.
  rewrite Hema. clear Hema Heq H.
  assert (Hs' : firstn k series <> []).
  { destruct series as [| r s]; [congruence |].
    destruct k; [unfold WARMUP_BARS in Hk; lia | discriminate]. }
  rewrite (compute_ema_eq _ _ Hp Hs'). f_equal.
  unfold make_series. rewrite combine_firstn. f_equal.
  { unfold index. rewrite firstn_map. reflexivity. }
  cbv zeta. unfold values. rewrite <- firstn_map, ewm_mean_firstn.
  rewrite <- firstn_map.
  set (raw := map Some (ewm_mean (2 / inject_Z (period + 1)) (map snd series))).
  rewrite length_firstn.
  destruct (WARMUP_BARS <=? List.length raw)%nat eqn:E.
  - apply Nat.leb_le in E.
    assert (E' : (WARMUP_BARS <=? Nat.min k (List.length raw))%nat = true)
      by (apply Nat.leb_le; lia).
    rewrite E'. rewrite firstn_app, repeat_length.
    rewrite (firstn_all2 (repeat None WARMUP_BARS))
      by (rewrite repeat_length; exact Hk).
    rewrite skipn_firstn_comm. reflexivity.
  - apply Nat.leb_gt in E.
    assert (E' : (WARMUP_BARS <=? Nat.min k (List.length raw))%nat = false)
      by (apply Nat.leb_gt; lia).
    rewrite E'. reflexivity.
Qed.

End EmaProperties.
(* ================================================================== *)
(** * From prices to signals to trades *)

Section PipelineProperties.
Import Pandas Ema Crossover.
Variable ROLL_CLOSE_SLIPPAGE_TICKS : Z.
Variable ROLL_FREEZE_BARS_POST : Z.

Abbreviation run := (run_backtest ROLL_CLOSE_SLIPPAGE_TICKS ROLL_FREEZE_BARS_POST).

Lemma compute_ema_pair_inr (close : Series Q) (fp sp : option Z)
  (ema_fast ema_slow : Series float) :
  compute_ema_pair close fp sp = inr (ema_fast, ema_slow) ->
  exists p q,
    compute_ema close p = inr ema_fast /\ compute_ema close q = inr ema_slow.
Proof.
  unfold compute_ema_pair.
  set (p := match fp with Some p => p | None => EMA_FAST end).
  set (q := match sp with Some p => p | None => EMA_SLOW end).
  destruct (compute_ema close p) as [e | f] eqn:Ef; [discriminate |].
  destruct (compute_ema close q) as [e | s] eqn:Es; [discriminate |].
  intros H. exists p, q. injection H as -> ->. auto.
Qed.

Lemma warmup_rows_nan (series : Series Q) (period : Z) (ema : Series float)
  (i : nat) :
  compute_ema series period = inr ema ->
  (WARMUP_BARS <= List.length series)%nat -> (i < WARMUP_BARS)%nat ->
  nth_error (values ema) i = Some None.
Proof.
  intros H Hlen Hi. destruct (compute_ema_values _ _ _ H) as (_ & _ & _ & Hv).
  rewrite Hv. cbv zeta. rewrite length_map, ewm_mean_length, values_length.
  apply Nat.leb_le in Hlen. rewrite Hlen.
  rewrite nth_error_app1 by (rewrite repeat_length; exact Hi).
  apply nth_error_repeat. exact Hi.
Qed.

(** X15.  The EMA pair of one price series always has a common index,
    so the crossover never rejects it, and the signal series is on the
    index of the prices.  When the series has at least WARMUP_BARS
    rows, the signals of rows 0 to WARMUP_BARS (inclusive) are all 0:
    no signal fires before both EMAs have two valid rows. *)
Theorem no_signal_during_warmup
  (close : Series Q) (fast_period slow_period : option Z)
  (ema_fast ema_slow : Series float) :
  compute_ema_pair close fast_period slow_period = inr (ema_fast, ema_slow) ->
  exists sig,
    generate_crossover_signals ema_fast ema_slow = inr sig /\
    index sig = index close /\
    ((WARMUP_BARS <= List.length close)%nat ->
     forall (i : nat) (z : Z),
       (i <= WARMUP_BARS)%nat -> nth_error (values sig) i = Some z -> z = 0).
Proof.
  intros H. destruct (compute_ema_pair_inr _ _ _ _ _ H) as (p & q & Hf & Hs).
  destruct (compute_ema_values _ _ _ Hf) as (_ & _ & Hif & _).
  destruct (compute_ema_values _ _ _ Hs) as (_ & _ & His & _).
  assert (Hidx : index ema_fast = index ema_slow) by congruence.
  pose proof (crossover_values_length _ _ Hidx) as Hlen.
  exists (make_series (index ema_fast) (crossover_values ema_fast ema_slow)).
  split; [apply generate_crossover_signals_eq; exact Hidx |].
  rewrite index_make_series, values_make_series by (symmetry; exact Hlen).
  split; [exact Hif |].
  intros Hw i z Hi Hz.
  destruct (Nat.eq_dec i WARMUP_BARS) as [-> | Hne].
  - assert (Hprev : nth_error (values ema_fast) (WARMUP_BARS - 1) = Some None).
    { apply (warmup_rows_nan close p); [exact Hf | exact Hw |].
      unfold WARMUP_BARS. lia. }
    destruct (crossover_values_nan ema_fast ema_slow (WARMUP_BARS - 1) z
                (or_introl Hprev)) as [_ Hnext].
    apply Hnext.
    replace (S (WARMUP_BARS - 1)) with WARMUP_BARS by (unfold WARMUP_BARS; lia).
    exact Hz.
  - assert (Hrow : nth_error (values ema_fast) i = Some None).
    { apply (warmup_rows_nan close p); [exact Hf | exact Hw | lia]. }
    destruct (crossover_values_nan ema_fast ema_slow i z (or_introl Hrow))
      as [Hthis _].
    apply Hthis. exact Hz.
Qed.

(** X16.  Prices to trades without an exception.  On a non-empty bar
    frame the default EMA pair of the close column is computed, the
    crossover accepts it, the signal series is aligned with the bars,
    and [run_backtest] on these signals returns with a FLAT position;
    on an empty frame the EMA stage raises its "empty series" error. *)
Theorem signals_from_closes_drive_the_engine (bars : list Bar) :
  match compute_ema_pair (close_column bars) None None with
  | inl e => bars = [] /\ e = ValueError_empty_series
  | inr (ema_fast, ema_slow) =>
      exists sig st,
        generate_crossover_signals ema_fast ema_slow = inr sig /\
        index sig = map ts_event bars /\
        run bars (values sig) = inr st /\
        current_direction (position st) = FLAT
  end.
Proof.
  destruct bars as [| b0 rest].
  { simpl. auto. }
  set (bars := b0 :: rest).
  assert (Hne : close_column bars <> []) by discriminate.
  assert (exists ema_fast,
            compute_ema (close_column bars) EMA_FAST = inr ema_fast)
    as [ema_fast Hf]
    by (eexists; apply compute_ema_eq; [unfold EMA_FAST; lia | exact Hne]).
  assert (exists ema_slow,
            compute_ema (close_column bars) EMA_SLOW = inr ema_slow)
    as [ema_slow Hs]
    by (eexists; apply compute_ema_eq; [unfold EMA_SLOW; lia | exact Hne]).
  unfold compute_ema_pair. rewrite Hf, Hs.
  destruct (compute_ema_values _ _ _ Hf) as (_ & _ & Hif & _).
  destruct (compute_ema_values _ _ _ Hs) as (_ & _ & His & _).
  assert (Hidx : index ema_fast = index ema_slow) by congruence.
  pose proof (crossover_values_length _ _ Hidx) as Hlen.
  assert (Hcol : index (close_column bars) = map ts_event bars).
  { unfold index, close_column. rewrite map_map. reflexivity. }
  destruct (run_returns ROLL_CLOSE_SLIPPAGE_TICKS ROLL_FREEZE_BARS_POST bars
              (crossover_values ema_fast ema_slow)
              (crossover_values_valid _ _)) as (st & Hrun & Hflat).
  { rewrite Hlen, Hif, Hcol, length_map. apply Nat.le_refl. }
  exists (make_series (index ema_fast) (crossover_values ema_fast ema_slow)), st.
  split; [apply generate_crossover_signals_eq; exact Hidx |].
  rewrite index_make_series, values_make_series by (symmetry; exact Hlen).
  split; [congruence |]. split; assumption.
Qed.

End PipelineProperties.
(* ================================================================== *)
(** * Contract rolls *)

Section RollProperties.
Import Pandas RollManager.

Lemma shifted_ids_float (ids : list Z) : Forall float_cell (shifted_ids ids).
Proof.
  apply Forall_forall. intros p H. unfold shifted_ids in H.
  apply in_map_iff in H. destruct H as ([y |] & <- & _); simpl; [| exact I].
  apply int_to_float_idem.
Qed.

Lemma shifted_ids_length (ids : list Z) :
  List.length (shifted_ids ids) = List.length ids.
Proof. unfold shifted_ids. rewrite length_map. apply shift1_length. Qed.

Lemma select_rolls_spec (col : Series Z) :
  forall prev : list (option Z),
    Forall float_cell prev ->
    let rows := select_rolls col prev (zip_with roll_rule (values col) prev) in
    map roll_ts rows =
      map fst (filter snd
                 (combine (index col) (zip_with roll_rule (values col) prev)))
    /\ Forall (fun r => prev_instrument_id r <> new_instrument_id r) rows.
Proof.
  induction col as [| [ts id] col IH]; intros prev Hprev; cbv zeta.
  - simpl. auto.
  - destruct prev as [| p prev]; [simpl; auto |].
    inversion Hprev as [| ? ? Hp Hprev']; subst.
    specialize (IH prev Hprev'). cbv zeta in IH. destruct IH as [IH1 IH2].
    simpl. destruct p as [y |].
    + replace (roll_rule id (Some y))
        with (negb (Binary64.int_to_float id =? y))
        by (unfold roll_rule; simpl; rewrite andb_true_r; reflexivity).
      destruct (Binary64.int_to_float id =? y) eqn:E; simpl.
      * split; assumption.
      * split; [rewrite IH1; reflexivity |].
        constructor; [| exact IH2]. simpl.
        apply Z.eqb_neq in E. simpl in Hp. congruence.
    + change (roll_rule id None) with false. simpl. split; assumption.
Qed.

Lemma roll_mask_length (ids : list Z) :
  List.length (roll_mask ids) = List.length ids.
Proof.
  unfold roll_mask. apply zip_with_length. rewrite shifted_ids_length.
  reflexivity.
Qed.

Lemma zip_with_combine {A B C : Type} (f : A -> B -> C) (a : list A) (b : list B) :
  zip_with f a b = map (fun c => f (fst c) (snd c)) (combine a b).
Proof.
  revert b. induction a as [| x a IH]; intros [| y b]; simpl; try reflexivity.
  rewrite IH. reflexivity.
Qed.

(** The flags, row by row: never on the first row, then exactly where
    the float of the id differs from the float of the one before. *)
Lemma roll_mask_rows (ids : list Z) :
  roll_mask ids =
  match ids with
  | [] => []
  | d :: r =>
      false :: map (fun c => negb (Binary64.int_to_float (fst c) =?
                                   Binary64.int_to_float (snd c)))
                   (with_prev d r)
  end.
Proof.
  unfold roll_mask, shifted_ids.
  rewrite zip_with_combine, combine_map_r, combine_shift1.
  destruct ids as [| d r]; [reflexivity |]. simpl. f_equal.
  rewrite !map_map. apply map_ext. intros [x y]. simpl.
  rewrite andb_true_r. reflexivity.
Qed.

(** X17.  The roll log and the roll flags agree.  With an
    [instrument_id] column, [detect_rolls] returns one row for each row
    that [annotate_rolls] flags, at the same timestamps and in the same
    order, and in each of them the outgoing and the incoming id differ;
    the flags are on the frame's index and the first row is never
    flagged.  Without the column [detect_rolls] raises KeyError while
    [annotate_rolls] flags no row. *)
Theorem roll_log_matches_roll_flags (df : M1Frame) :
  match df with
  | with_instrument_id col =>
      exists rows,
        detect_rolls df = inr rows /\
        map roll_ts rows = map fst (filter snd (annotate_rolls df)) /\
        Forall (fun r => prev_instrument_id r <> new_instrument_id r) rows /\
        index (annotate_rolls df) = index col /\
        hd false (values (annotate_rolls df)) = false
  | without_instrument_id idx =>
      detect_rolls df = inl KeyError_instrument_id /\
      index (annotate_rolls df) = idx /\
      Forall (fun flag => flag = false) (values (annotate_rolls df))
  end.
Proof.
  destruct df as [col | idx].
  - eexists. split; [reflexivity |].
    pose proof (select_rolls_spec col (shifted_ids (values col))
                  (shifted_ids_float (values col))) as H.
    cbv zeta in H. fold roll_rule in H. destruct H as [H1 H2].
    assert (Hlen : List.length (index col) = List.length (roll_mask (values col))).
    { rewrite roll_mask_length, index_length, values_length. reflexivity. }
    split; [exact H1 |]. split; [exact H2 |].
    unfold annotate_rolls.
    rewrite index_make_series, values_make_series by exact Hlen.
    split; [reflexivity |].
    rewrite roll_mask_rows. destruct (values col); reflexivity.
  - split; [reflexivity |]. unfold annotate_rolls.
    rewrite index_make_series, values_make_series
      by (rewrite length_map; reflexivity).
    split; [reflexivity |].
    apply Forall_forall. intros flag H. apply in_map_iff in H.
    destruct H as (x & <- & _). reflexivity.
Qed.

(** X18.  A row after the first is flagged as a roll exactly when the
    float of its [instrument_id] differs from the float of the id of
    the row before it (the comparison is made in float64, because the
    shifted column is).  For ids of at most 53 bits, which are their own
    floats, that is exactly when the two ids differ. *)
Theorem roll_flag_iff_id_changes (col : Series Z) (i : nat) (a b : Z) :
  nth_error (values col) i = Some a ->
  nth_error (values col) (S i) = Some b ->
  nth_error (values (annotate_rolls (with_instrument_id col))) (S i) =
    Some (negb (Binary64.int_to_float b =? Binary64.int_to_float a)) /\
  (Z.abs a <= 2 ^ 53 -> Z.abs b <= 2 ^ 53 ->
   nth_error (values (annotate_rolls (with_instrument_id col))) (S i) =
     Some (negb (b =? a))).
Proof.
  intros Ha Hb.
  assert (H : nth_error (values (annotate_rolls (with_instrument_id col)))
                (S i) =
              Some (negb (Binary64.int_to_float b =?
                          Binary64.int_to_float a))).
  { unfold annotate_rolls.
    rewrite values_make_series
      by (rewrite roll_mask_length, index_length, values_length; reflexivity).
    rewrite roll_mask_rows.
    destruct (values col) as [| d r]; [discriminate |].
    simpl nth_error. rewrite nth_error_map, nth_with_prev.
    simpl in Hb. rewrite Hb. simpl. do 4 f_equal.
    destruct i as [| j]; simpl in Ha.
    - congruence.
    - rewrite (nth_error_nth r j d Ha). reflexivity. }
  split; [exact H |]. intros Sa Sb.
  rewrite H, (int_to_float_small a Sa), (int_to_float_small b Sb).
  reflexivity.
Qed.

End RollProperties.
(* ================================================================== *)
(** * Equity curve *)

Section EquityProperties.
Import Pandas LedgerFrame Equity.

Lemma fold_Qplus_acc (l : list Q) (a : Q) :
  (fold_left Qplus l a == a + fold_left Qplus l 0)%Q.
Proof.
  revert a. induction l as [| x l IH]; intros a; simpl.
  - ring.
  - rewrite (IH (a + x)%Q), (IH (0 + x)%Q). ring.
Qed.

Lemma col_sum_cons (x : Q) (l : list Q) :
  (col_sum (x :: l) == x + col_sum l)%Q.
Proof.
  unfold col_sum. simpl. rewrite fold_Qplus_acc. ring.
Qed.

(** A bar on which no trade exits carries no PnL. *)
Lemma pnl_at_no_exit (df : TradeFrame) (b : Timestamp) :
  Forall (fun r => exit_bar r <> b) df -> pnl_at df b = 0%Q.
Proof.
  intros H. unfold pnl_at.
  replace (filter (fun r => exit_bar r =? b) df) with (@nil TradeRow);
    [reflexivity |].
  induction H as [| r df Hr Hdf IH]; [reflexivity |].
  simpl. apply Z.eqb_neq in Hr. rewrite Hr. exact IH.
Qed.

Lemma cumsum_from_length (acc : Q) (l : list Q) :
  List.length (cumsum_from acc l) = List.length l.
Proof.
  revert acc. induction l as [| x l IH]; intros acc; simpl; [| rewrite IH];
    reflexivity.
Qed.

Lemma cumsum_length (l : list Q) : List.length (cumsum l) = List.length l.
Proof. destruct l; simpl; [| rewrite cumsum_from_length]; reflexivity. Qed.

Lemma cumsum_from_step (l : list Q) :
  forall (acc : Q) (i : nat) (c v : Q),
    nth_error (acc :: cumsum_from acc l) i = Some c ->
    nth_error l i = Some v ->
    nth_error (cumsum_from acc l) i = Some (c + v)%Q.
Proof.
  induction l as [| x l IH]; intros acc i c v Hc Hv.
  - destruct i; discriminate.
  - destruct i as [| i]; simpl in *.
    + congruence.
    + apply IH; assumption.
Qed.

(** [build_equity_curve] when it returns. *)
Lemma build_equity_curve_values (df : TradeFrame) (idx : list Timestamp)
  (initial : Q) (equity : Series Q) :
  build_equity_curve df idx initial = inr equity ->
  index equity = idx /\
  values equity =
    match df with
    | [] => map (fun _ => initial) idx
    | _ :: _ => map (fun c => (initial + c)%Q) (cumsum (map (pnl_at df) idx))
    end.
Proof.
  unfold build_equity_curve. destruct df as [| r df].
  - intros [= <-].
    split; [apply index_make_series | apply values_make_series];
      rewrite length_map; reflexivity.
  - intros H.
    assert (E : equity =
                make_series idx
                  (map (fun c => (initial + c)%Q)
                     (cumsum (map (pnl_at (r :: df)) idx)))).
    { destruct idx; [discriminate |]. injection H as <-. reflexivity. }
    subst equity.
    split; [apply index_make_series | apply values_make_series];
      rewrite length_map, cumsum_length, length_map; reflexivity.
Qed.

(** X19.  [build_equity_curve] returns a curve on the given bar index;
    without trades the curve is flat at the initial capital.  Its only
    failure is an IndexError, raised when there are trades but the bar
    index is empty. *)
Theorem equity_curve_shape (df : TradeFrame) (idx : list Timestamp)
  (initial : Q) :
  match build_equity_curve df idx initial with
  | inl e => e = IndexError_empty_curve /\ df <> [] /\ idx = []
  | inr equity =>
      index equity = idx /\
      (df = [] -> Forall (fun v => v = initial) (values equity))
  end.
Proof.
  destruct (build_equity_curve df idx initial) as [e | equity] eqn:H.
  - unfold build_equity_curve in H. destruct df as [| r df]; [discriminate |].
    destruct idx; [| discriminate]. inversion H.
    repeat split; congruence.
  - destruct (build_equity_curve_values _ _ _ _ H) as [Hi Hv].
    split; [exact Hi |]. intros ->. rewrite Hv.
    apply Forall_forall. intros v Hin. apply in_map_iff in Hin.
    destruct Hin as (b & <- & _). reflexivity.
Qed.

(** X20.  The curve moves only where trades exit, and in the
    direction of their PnL.  Its first value is the initial capital plus
    the net PnL of the trades exiting on the first bar.  From one bar to
    the next it stays as it is when no trade exits on the later bar,
    does not fall when the net PnL of the trades exiting there is not
    negative, and does not rise when it is not positive.  With the
    default initial capital 0 the change is the summed net PnL of the
    trades exiting on the later bar. *)
Theorem equity_curve_steps (df : TradeFrame) (idx : list Timestamp)
  (initial : Q) (equity : Series Q) :
  build_equity_curve df idx initial = inr equity ->
  (forall b x, nth_error idx 0 = Some b ->
               nth_error (values equity) 0 = Some x ->
               (x == initial + pnl_at df b)%Q) /\
  (forall i b x y,
      nth_error idx (S i) = Some b ->
      nth_error (values equity) i = Some x ->
      nth_error (values equity) (S i) = Some y ->
      (Forall (fun r => exit_bar r <> b) df -> (y == x)%Q) /\
      ((0 <= pnl_at df b)%Q -> (x <= y)%Q) /\
      ((pnl_at df b <= 0)%Q -> (y <= x)%Q) /\
      ((initial == 0)%Q -> (y == x + pnl_at df b)%Q)).
Proof.
  intros H. destruct (build_equity_curve_values _ _ _ _ H) as [_ Hv].
  rewrite Hv. clear H Hv.
  assert (Hsteps :
    forall i b x y,
      nth_error idx (S i) = Some b ->
      nth_error
        match df with
        | [] => map (fun _ => initial) idx
        | _ :: _ =>
            map (fun c => (initial + c)%Q) (cumsum (map (pnl_at df) idx))
        end i = Some x ->
      nth_error
        match df with
        | [] => map (fun _ => initial) idx
        | _ :: _ =>
            map (fun c => (initial + c)%Q) (cumsum (map (pnl_at df) idx))
        end (S i) = Some y ->
      (y == x + pnl_at df b)%Q).
  { destruct df as [| r df].
    - intros i b x y Hb Hx Hy. rewrite nth_error_map in Hx, Hy.
      rewrite Hb in Hy. destruct (nth_error idx i); [| discriminate].
      injection Hx as <-. injection Hy as <-.
      unfold pnl_at, col_sum. simpl. ring.
    - set (g := r :: df). intros i b x y Hb Hx Hy.
      rewrite nth_error_map in Hx, Hy.
      destruct (nth_error (cumsum (map (pnl_at g) idx)) i) as [c |] eqn:Ec;
        [| discriminate].
      destruct idx as [| b0 idx]; [discriminate |].
      simpl in Hb. simpl cumsum in Ec, Hy.
      assert (Hstep : nth_error (cumsum_from (pnl_at g b0) (map (pnl_at g) idx)) i
                      = Some (c + pnl_at g b)%Q).
      { apply cumsum_from_step; [exact Ec |].
        rewrite nth_error_map, Hb. reflexivity. }
      simpl nth_error in Hy. rewrite Hstep in Hy.
      simpl in Hx, Hy. injection Hx as <-. injection Hy as <-. ring. }
  split.
  - destruct df as [| r df].
    + intros b x Hb Hx. rewrite nth_error_map, Hb in Hx.
      injection Hx as <-. unfold pnl_at, col_sum. simpl. ring.
    + intros b x Hb Hx. destruct idx as [| b0 idx]; [discriminate |].
      simpl in Hb, Hx. injection Hb as <-. injection Hx as <-. reflexivity.
  - intros i b x y Hb Hx Hy.
    pose proof (Hsteps i b x y Hb Hx Hy) as E.
    split; [| split; [| split]].
    + intros Hno. rewrite (pnl_at_no_exit _ _ Hno) in E. lra.
    + intros Hp. lra.
    + intros Hp. lra.
    + intros _. exact E.
Qed.

End EquityProperties.
(* ================================================================== *)
(** * Drawdown *)

Section DrawdownProperties.
Import Pandas Drawdown.

Lemma Qmax2_spec (a b : Q) :
  (a <= Qmax2 a b)%Q /\ (b <= Qmax2 a b)%Q /\
  (Qmax2 a b = a \/ Qmax2 a b = b).
Proof.
  unfold Qmax2. destruct (Qle_bool a b) eqn:E.
  - apply Qle_bool_iff in E. repeat split; [exact E | apply Qle_refl | auto].
  - assert (H : ~ (a <= b)%Q).
    { intros Hle. apply Qle_bool_iff in Hle. congruence. }
    apply Qnot_le_lt in H.
    repeat split; [apply Qle_refl | apply Qlt_le_weak; exact H | auto].
Qed.

Lemma Qmax2_le (a b : Q) : (a <= b)%Q -> Qmax2 a b = b.
Proof.
  intros H. unfold Qmax2. apply Qle_bool_iff in H. rewrite H. reflexivity.
Qed.

Lemma Qmin2_spec (a b : Q) :
  (Qmin2 a b <= a)%Q /\ (Qmin2 a b <= b)%Q /\
  (Qmin2 a b = a \/ Qmin2 a b = b).
Proof.
  unfold Qmin2. destruct (Qle_bool a b) eqn:E.
  - apply Qle_bool_iff in E. repeat split; [apply Qle_refl | exact E | auto].
  - assert (H : ~ (a <= b)%Q).
    { intros Hle. apply Qle_bool_iff in Hle. congruence. }
    apply Qnot_le_lt in H.
    repeat split; [apply Qlt_le_weak; exact H | apply Qle_refl | auto].
Qed.

(** [min()] returns a cell of the column, and no cell is below it. *)
Lemma col_min_spec (l : list Q) :
  forall x : Q,
    In (col_min x l) (x :: l) /\
    Forall (fun d => (col_min x l <= d)%Q) (x :: l).
Proof.
  unfold col_min. induction l as [| y l IH]; intros x.
  - simpl. split; [auto |]. constructor; [apply Qle_refl | constructor].
  - simpl fold_left. destruct (IH (Qmin2 x y)) as [Hin Hall].
    destruct (Qmin2_spec x y) as (Hx & Hy & Hc).
    inversion Hall as [| ? ? Hm Hl]; subst.
    split.
    + destruct Hin as [Hin | Hin].
      * rewrite <- Hin. destruct Hc as [-> | ->]; simpl; auto.
      * right. right. exact Hin.
    + constructor; [eapply Qle_trans; eassumption |].
      constructor; [eapply Qle_trans; eassumption | exact Hl].
Qed.

Lemma cummax_from_length (acc : Q) (l : list Q) :
  List.length (cummax_from acc l) = List.length l.
Proof.
  revert acc. induction l as [| x l IH]; intros acc; simpl; [| rewrite IH];
    reflexivity.
Qed.

Lemma cummax_length (l : list Q) : List.length (cummax l) = List.length l.
Proof. destruct l; simpl; [| rewrite cummax_from_length]; reflexivity. Qed.

(** A cell of the running maximum is the largest value seen so far. *)
Lemma cummax_from_nth (l : list Q) :
  forall (acc : Q) (i : nat) (p : Q),
    nth_error (cummax_from acc l) i = Some p ->
    In p (acc :: firstn (S i) l) /\
    Forall (fun x => (x <= p)%Q) (acc :: firstn (S i) l).
Proof.
  induction l as [| x r IH]; intros acc i p H.
  - destruct i; discriminate.
  - destruct (Qmax2_spec acc x) as (Ha & Hx & Hc).
    destruct i as [| i].
    + simpl in H. injection H as <-. simpl. split.
      * destruct Hc as [-> | ->]; auto.
      * repeat constructor; assumption.
    + simpl in H. destruct (IH _ _ _ H) as [Hin Hall].
      change (firstn (S (S i)) (x :: r)) with (x :: firstn (S i) r).
      inversion Hall as [| ? ? Hm Hl]; subst. split.
      * destruct Hin as [Hin | Hin].
        -- rewrite <- Hin. destruct Hc as [-> | ->]; simpl; auto.
        -- right. right. exact Hin.
      * constructor; [eapply Qle_trans; eassumption |].
        constructor; [eapply Qle_trans; eassumption | exact Hl].
Qed.

Lemma cummax_nth (l : list Q) (i : nat) (p : Q) :
  nth_error (cummax l) i = Some p ->
  In p (firstn (S i) l) /\ Forall (fun x => (x <= p)%Q) (firstn (S i) l).
Proof.
  destruct l as [| x r]; [destruct i; discriminate |].
  destruct i as [| i]; simpl cummax; intros H.
  - simpl in H. injection H as <-. simpl. split; [auto |].
    repeat constructor. apply Qle_refl.
  - simpl in H. apply cummax_from_nth in H. exact H.
Qed.

Lemma drawdown_from_nonpositive (l : list Q) :
  forall acc : Q,
    Forall (fun d => (d <= 0)%Q) (zip_with Qminus l (cummax_from acc l)).
Proof.
  induction l as [| x r IH]; intros acc; simpl; constructor.
  - destruct (Qmax2_spec acc x) as (_ & Hx & _). lra.
  - apply IH.
Qed.

Lemma drawdown_from_zero_iff_sorted (l : list Q) :
  forall acc : Q,
    Forall (fun d => (d == 0)%Q) (zip_with Qminus l (cummax_from acc l)) <->
    Sorted Qle (acc :: l).
Proof.
  induction l as [| x r IH]; intros acc; simpl.
  - split; intros _; repeat constructor.
  - split; intros H.
    + inversion H as [| ? ? H0 Hr]; subst.
      destruct (Qmax2_spec acc x) as (Ha & _ & _).
      assert (Hle : (acc <= x)%Q) by lra.
      rewrite (Qmax2_le _ _ Hle) in Hr. apply IH in Hr.
      constructor; [exact Hr | constructor; exact Hle].
    + inversion H as [| ? ? Hs Hh]; subst. inversion Hh; subst.
      rewrite Qmax2_le by assumption. constructor; [lra |].
      apply IH. exact Hs.
Qed.

(** [compute_drawdown] when it returns. *)
Lemma compute_drawdown_values (equity : Series Q) (r : DrawdownResult) :
  compute_drawdown equity = inr r ->
  exists e0 rest,
    values equity = e0 :: rest /\
    values (peak_series r) = e0 :: cummax_from e0 rest /\
    values (drawdown_series r) =
      (e0 - e0)%Q :: zip_with Qminus rest (cummax_from e0 rest) /\
    index (peak_series r) = index equity /\
    index (drawdown_series r) = index equity /\
    max_drawdown_usd r =
      col_min (e0 - e0)%Q (zip_with Qminus rest (cummax_from e0 rest)) /\
    max_drawdown_pct r =
      nanmin (zip_with (fun p d : Q =>
                          if negb (Qeq_bool p 0) then Some (d / p)%Q else None)
                       (values (peak_series r))
                       (values (drawdown_series r))).
Proof.
  unfold compute_drawdown. intros H.
  pose proof (index_length equity) as Li.
  pose proof (values_length equity) as Lv.
  destruct (values equity) as [| e0 rest] eqn:Ev; [discriminate |].
  exists e0, rest. split; [reflexivity |].
  assert (Lp : List.length (index equity) =
               List.length (cummax (e0 :: rest))).
  { rewrite cummax_length. congruence. }
  assert (Ld : List.length (index equity) =
               List.length (zip_with Qminus (e0 :: rest) (cummax (e0 :: rest)))).
  { rewrite zip_with_length by (rewrite cummax_length; reflexivity).
    congruence. }
  match type of H with
  | inr ?t = _ => assert (E : r = t) by congruence
  end.
  clear H. subst r.
  cbn [peak_series drawdown_series max_drawdown_usd max_drawdown_pct].
  rewrite !(values_make_series _ _ Lp), !(values_make_series _ _ Ld),
    (index_make_series _ _ Lp), (index_make_series _ _ Ld).
  repeat split; reflexivity.
Qed.

(** X22.  The running peak reported by [compute_drawdown] is, at every
    bar, the largest equity value seen up to and including that bar: it
    is one of those values and none of them exceeds it.  The peak series
    has the index of the equity curve. *)
Theorem peak_is_running_maximum (equity : Series Q) (r : DrawdownResult) :
  compute_drawdown equity = inr r ->
  index (peak_series r) = index equity /\
  List.length (values (peak_series r)) = List.length (values equity) /\
  forall (i : nat) (p : Q),
    nth_error (values (peak_series r)) i = Some p ->
    In p (firstn (S i) (values equity)) /\
    Forall (fun x => (x <= p)%Q) (firstn (S i) (values equity)).
Proof.
  intros H.
  destruct (compute_drawdown_values _ _ H)
    as (e0 & rest & Ev & Ep & _ & Hi & _).
  split; [exact Hi |]. rewrite Ev, Ep. split.
  - simpl. rewrite cummax_from_length. reflexivity.
  - intros i p Hp. apply (cummax_nth (e0 :: rest)). exact Hp.
Qed.

(** X23.  Drawdowns are never positive and start at zero; the reported
    [max_drawdown_usd] is the deepest one: it is a cell of the drawdown
    series, it is at most 0, and no cell lies below it.  The only error
    is the ValueError for an empty curve. *)
Theorem drawdown_never_positive (equity : Series Q) :
  match compute_drawdown equity with
  | inl e => e = ValueError_empty_equity /\ equity = []
  | inr r =>
      index (drawdown_series r) = index equity /\
      Forall (fun d => (d <= 0)%Q) (values (drawdown_series r)) /\
      (exists d0, hd_error (values (drawdown_series r)) = Some d0 /\
                  (d0 == 0)%Q) /\
      (max_drawdown_usd r <= 0)%Q /\
      In (max_drawdown_usd r) (values (drawdown_series r)) /\
      Forall (fun d => (max_drawdown_usd r <= d)%Q)
             (values (drawdown_series r))
  end.
Proof.
  destruct (compute_drawdown equity) as [e | r] eqn:H.
  - unfold compute_drawdown in H. destruct equity as [| row equity];
      [| discriminate]. injection H as <-. auto.
  - destruct (compute_drawdown_values _ _ H)
      as (e0 & rest & _ & _ & Ed & _ & Hi & Em & _).
    rewrite Ed, Em.
    set (dd := zip_with Qminus rest (cummax_from e0 rest)).
    assert (Hneg : Forall (fun d => (d <= 0)%Q) ((e0 - e0)%Q :: dd)).
    { constructor; [lra | apply drawdown_from_nonpositive]. }
    destruct (col_min_spec dd (e0 - e0)%Q) as [Hin Hall].
    split; [exact Hi |]. split; [exact Hneg |]. split.
    { exists (e0 - e0)%Q. split; [reflexivity | ring]. }
    split; [| split; assumption].
    rewrite Forall_forall in Hneg. apply Hneg. exact Hin.
Qed.

(** X24.  [max_drawdown_usd] is zero exactly when the equity curve
    never falls: every value is at least the value of the bar before. *)
Theorem no_drawdown_iff_curve_never_falls (equity : Series Q)
  (r : DrawdownResult) :
  compute_drawdown equity = inr r ->
  ((max_drawdown_usd r == 0)%Q <-> Sorted Qle (values equity)).
Proof.
  intros H.
  destruct (compute_drawdown_values _ _ H)
    as (e0 & rest & Ev & _ & _ & _ & _ & Em & _).
  rewrite Ev, Em.
  set (dd := zip_with Qminus rest (cummax_from e0 rest)).
  destruct (col_min_spec dd (e0 - e0)%Q) as [Hin Hall].
  pose proof (drawdown_from_nonpositive rest e0) as Hneg. fold dd in Hneg.
  rewrite <- drawdown_from_zero_iff_sorted. fold dd.
  split.
  - intros Hz. inversion Hall as [| ? ? _ Hl]; subst.
    rewrite Forall_forall in *. intros d Hd.
    specialize (Hl d Hd). specialize (Hneg d Hd). simpl in Hl, Hneg. lra.
  - intros Hz. destruct Hin as [<- | Hin]; [ring |].
    rewrite Forall_forall in Hz. apply Hz. exact Hin.
Qed.

Lemma nanmin_none (l : list float) :
  nanmin l = None <-> Forall (fun c => c = None) l.
Proof.
  induction l as [| [x |] l IH]; simpl.
  - split; auto.
  - split.
    + destruct (nanmin l); discriminate.
    + intros H. inversion H. discriminate.
  - rewrite IH. split; intros H.
    + constructor; auto.
    + inversion H. assumption.
Qed.

Lemma nanmin_some (l : list float) (m : Q) :
  nanmin l = Some m -> In (Some m) l.
Proof.
  revert m. induction l as [| [x |] l IH]; simpl; intros m H.
  - discriminate.
  - destruct (nanmin l) as [m' |] eqn:E.
    + injection H as <-. destruct (Qmin2_spec x m') as (_ & _ & [-> | ->]);
        auto.
    + injection H as <-. auto.
  - right. apply IH. exact H.
Qed.

Lemma zip_with_Forall_l {A B C : Type} (f : A -> B -> C) (P : A -> Prop)
  (R : C -> Prop) :
  (forall x y, R (f x y) <-> P x) ->
  forall (a : list A) (b : list B),
    List.length a = List.length b ->
    (Forall R (zip_with f a b) <-> Forall P a).
Proof.
  intros Hf. induction a as [| x a IH]; intros [| y b] L; simpl in *;
    try discriminate.
  - split; constructor.
  - injection L as L. specialize (IH b L). split; intros H; inversion H; subst;
      constructor; try (apply Hf; assumption); try (apply IH; assumption).
    eapply Hf. eassumption.
Qed.

(** X25.  [max_drawdown_pct] is NaN exactly when every running peak is
    zero: bars whose peak is zero are skipped by [np.nanmin], and one
    bar with a non-zero peak is enough for a number to be returned. *)
Theorem max_drawdown_pct_nan_iff_all_peaks_zero (equity : Series Q)
  (r : DrawdownResult) :
  compute_drawdown equity = inr r ->
  (max_drawdown_pct r = None <->
   Forall (fun p => (p == 0)%Q) (values (peak_series r))).
Proof.
  intros H.
  destruct (compute_drawdown_values _ _ H)
    as (e0 & rest & _ & Ep & Ed & _ & _ & _ & Epct).
  rewrite Epct, nanmin_none. apply zip_with_Forall_l.
  - intros p d. destruct (Qeq_bool p 0) eqn:E; simpl.
    + apply Qeq_bool_iff in E. split; auto.
    + split; [discriminate |]. intros Hp. apply Qeq_bool_iff in Hp.
      congruence.
  - rewrite Ep, Ed. simpl.
    rewrite zip_with_length by (rewrite cummax_from_length; reflexivity).
    rewrite cummax_from_length. reflexivity.
Qed.

(** X26.  For a curve that starts above zero (a funded account) every
    peak is positive, so [max_drawdown_pct] is a number, it is at most
    0, and it is the drawdown of some bar divided by that bar's peak. *)
Theorem max_drawdown_pct_of_funded_curve (equity : Series Q)
  (r : DrawdownResult) (e0 : Q) :
  compute_drawdown equity = inr r ->
  hd_error (values equity) = Some e0 ->
  (0 < e0)%Q ->
  exists m : Q,
    max_drawdown_pct r = Some m /\ (m <= 0)%Q /\
    exists (i : nat) (p d : Q),
      nth_error (values (peak_series r)) i = Some p /\
      nth_error (values (drawdown_series r)) i = Some d /\
      (0 < p)%Q /\ m = (d / p)%Q.
Proof.
  intros H He0 Hpos.
  destruct (compute_drawdown_values _ _ H)
    as (e0' & rest & Ev & Ep & Ed & _ & _ & _ & Epct).
  rewrite Ev in He0. injection He0 as ->.
  destruct (max_drawdown_pct r) as [m |] eqn:Em.
  - exists m. split; [reflexivity |].
    symmetry in Epct. apply nanmin_some in Epct.
    apply In_nth_error in Epct. destruct Epct as [i Hi].
    rewrite nth_zip_with in Hi.
    destruct (nth_error (values (peak_series r)) i) as [p |] eqn:Hp;
      [| discriminate].
    destruct (nth_error (values (drawdown_series r)) i) as [d |] eqn:Hd;
      [| discriminate].
    destruct (negb (Qeq_bool p 0)); [| discriminate].
    injection Hi as Hm.
    assert (Hp0 : (0 < p)%Q).
    { rewrite Ep in Hp. apply (cummax_nth (e0 :: rest)) in Hp.
      destruct Hp as [_ Hall]. inversion Hall; subst. lra. }
    assert (Hd0 : (d <= 0)%Q).
    { assert (Hneg : Forall (fun d => (d <= 0)%Q) (values (drawdown_series r))).
      { rewrite Ed. constructor; [lra | apply drawdown_from_nonpositive]. }
      rewrite Forall_forall in Hneg. apply Hneg.
      eapply nth_error_In. exact Hd. }
    split.
    + subst m. unfold Qdiv.
      assert (Hinv : (0 < / p)%Q) by (apply Qinv_lt_0_compat; exact Hp0).
      nra.
    + exists i, p, d. auto.
  - exfalso. symmetry in Epct. rewrite nanmin_none, Ep, Ed in Epct.
    simpl in Epct. inversion Epct as [| ? ? Hhd _]; subst.
    destruct (Qeq_bool e0 0) eqn:E; [| discriminate].
    apply Qeq_bool_iff in E. lra.
Qed.

End DrawdownProperties.
(* ================================================================== *)
(** * Performance summary *)

Section PerformanceProperties.
Import Pandas LedgerFrame Performance.
Variable ROLL_CLOSE_SLIPPAGE_TICKS : Z.
Variable ROLL_FREEZE_BARS_POST : Z.
Variable float_pow : Q -> Q -> Performance.PyFloat.
Variable np_sqrt : Q -> Q.
Variable series_std : list Q -> float.

Abbreviation run := (run_backtest ROLL_CLOSE_SLIPPAGE_TICKS ROLL_FREEZE_BARS_POST).
Abbreviation performance := (compute_performance float_pow np_sqrt series_std).

Lemma filter_split_length {A : Type} (p : A -> bool) (l : list A) :
  (List.length (filter p l) + List.length (filter (fun a => negb (p a)) l)
   = List.length l)%nat.
Proof.
  induction l as [| a l IH]; simpl; [reflexivity |].
  destruct (p a); simpl; lia.
Qed.

Lemma sum_or_zero {A : Type} (f : A -> Q) (l : list A) :
  match l with [] => 0%Q | _ :: _ => col_sum (map f l) end = col_sum (map f l).
Proof. destruct l; reflexivity. Qed.

Lemma inject_nat_pos (n : nat) : (0 < n)%nat -> (0 < inject_Z (Z.of_nat n))%Q.
Proof. intros H. unfold Qlt. simpl. lia. Qed.

Lemma inject_nat_le (n m : nat) :
  (n <= m)%nat -> (inject_Z (Z.of_nat n) <= inject_Z (Z.of_nat m))%Q.
Proof. intros H. unfold Qle. simpl. lia. Qed.

(** [compute_performance] when it returns. *)
Lemma compute_performance_values (trade_df : TradeFrame) (equity : Series Q)
  (s : PerformanceSummary) :
  performance trade_df equity = inr s ->
  let winners := filter is_winner trade_df in
  let losers := filter (fun r => negb (is_winner r)) trade_df in
  trade_df <> [] /\
  total_trades s = List.length trade_df /\
  winning_trades s = List.length winners /\
  losing_trades s = List.length losers /\
  win_rate s = (inject_Z (Z.of_nat (List.length winners)) /
                inject_Z (Z.of_nat (List.length trade_df)))%Q /\
  gross_profit s = col_sum (map net_pnl winners) /\
  gross_loss s = col_sum (map net_pnl losers) /\
  net_profit s = (gross_profit s + gross_loss s)%Q /\
  expectancy s = col_mean (map net_pnl trade_df) /\
  profit_factor s =
    (if negb (Qeq_bool (gross_loss s) 0)
     then fin (gross_profit s / Qabs (gross_loss s))%Q else inf) /\
  avg_win s =
    match winners with
    | [] => nan
    | _ :: _ => fin (col_mean (map net_pnl winners))
    end /\
  avg_loss s =
    match losers with
    | [] => nan
    | _ :: _ => fin (col_mean (map net_pnl losers))
    end.
Proof.
  unfold compute_performance. destruct trade_df as [| r0 df]; [discriminate |].
  set (g := r0 :: df). intros H.
  match type of H with
  | inr ?t = _ => assert (E : s = t) by congruence
  end.
  clear H. subst s. cbv zeta.
  cbn [total_trades winning_trades losing_trades win_rate gross_profit
       gross_loss net_profit expectancy profit_factor avg_win avg_loss].
  rewrite !sum_or_zero.
  repeat split; try reflexivity. discriminate.
Qed.

(** X27.  The counts of the summary are consistent with the trade
    frame: every trade is counted once, as a winner or as a loser;
    [win_rate] lies between 0 and 1, is 0 exactly when there is no
    winner and 1 exactly when there is no loser.  The only error is the
    ValueError for an empty trade frame. *)
Theorem performance_counts_and_totals (trade_df : TradeFrame)
  (equity : Series Q) :
  match performance trade_df equity with
  | inl e => e = ValueError_no_trades /\ trade_df = []
  | inr s =>
      total_trades s = List.length trade_df /\
      (0 < total_trades s)%nat /\
      (winning_trades s + losing_trades s)%nat = total_trades s /\
      (0 <= win_rate s)%Q /\ (win_rate s <= 1)%Q /\
      ((win_rate s == 0)%Q <-> winning_trades s = 0%nat) /\
      ((win_rate s == 1)%Q <-> losing_trades s = 0%nat)
  end.
Proof.
  destruct (performance trade_df equity) as [e | s] eqn:H.
  - unfold compute_performance in H. destruct trade_df; [| discriminate].
    injection H as <-. auto.
  - destruct (compute_performance_values _ _ _ H)
      as (Hne & Et & Ew & El & Er & _).
    assert (Hpos : (0 < List.length trade_df)%nat).
    { destruct trade_df; [congruence | simpl; lia]. }
    pose proof (inject_nat_pos _ Hpos) as HposQ.
    pose proof (filter_split_length is_winner trade_df) as Hlen.
    assert (Hwr : (win_rate s * inject_Z (Z.of_nat (List.length trade_df)) ==
                   inject_Z (Z.of_nat (List.length (filter is_winner trade_df))))%Q).
    { rewrite Er. field. lra. }
    assert (Hwle : (inject_Z (Z.of_nat (List.length (filter is_winner trade_df)))
                    <= inject_Z (Z.of_nat (List.length trade_df)))%Q).
    { apply inject_nat_le. lia. }
    assert (Hw0 : (0 <= inject_Z (Z.of_nat (List.length (filter is_winner trade_df))))%Q).
    { apply (inject_nat_le 0). lia. }
    rewrite Et, Ew, El.
    split; [reflexivity |]. split; [exact Hpos |]. split; [exact Hlen |].
    set (nw := List.length (filter is_winner trade_df)) in *.
    set (nl := List.length (filter (fun a => negb (is_winner a)) trade_df)) in *.
    set (nt := List.length trade_df) in *.
    set (t := inject_Z (Z.of_nat nt)) in *.
    set (w := inject_Z (Z.of_nat nw)) in *.
    split; [nra |]. split; [nra |]. split.
    + split.
      * intros Hz. assert (Hw : (w == 0)%Q) by nra.
        unfold w in Hw. change 0%Q with (inject_Z 0) in Hw.
        apply (proj1 (inject_Z_injective _ _)) in Hw. lia.
      * intros Hz. assert (Hw : (w == 0)%Q) by (unfold w; rewrite Hz; reflexivity).
        rewrite Er, Hw. field. lra.
    + split.
      * intros Hz. assert (Hw : (w == t)%Q) by nra.
        unfold w, t in Hw. apply (proj1 (inject_Z_injective _ _)) in Hw. lia.
      * intros Hz. assert (Hw : (w == t)%Q).
        { unfold w, t. replace nw with nt by lia. reflexivity. }
        rewrite Er, Hw. field. lra.
Qed.

(** Sums and means of columns of one sign. *)
Lemma col_sum_nonneg (l : list Q) :
  Forall (fun x => (0 <= x)%Q) l -> (0 <= col_sum l)%Q.
Proof.
  induction 1 as [| x l Hx Hl IH]; [unfold col_sum; simpl; lra |].
  rewrite col_sum_cons. lra.
Qed.

Lemma col_sum_nonpos (l : list Q) :
  Forall (fun x => (x <= 0)%Q) l -> (col_sum l <= 0)%Q.
Proof.
  induction 1 as [| x l Hx Hl IH]; [unfold col_sum; simpl; lra |].
  rewrite col_sum_cons. lra.
Qed.

Lemma col_sum_pos (x : Q) (l : list Q) :
  Forall (fun x => (0 < x)%Q) (x :: l) -> (0 < col_sum (x :: l))%Q.
Proof.
  intros H. inversion H as [| ? ? Hx Hl]; subst.
  rewrite col_sum_cons.
  assert (0 <= col_sum l)%Q; [| lra].
  apply col_sum_nonneg. eapply Forall_impl; [| exact Hl].
  intros a Ha. simpl in Ha. lra.
Qed.

Lemma winners_positive (df : TradeFrame) :
  Forall winner_flag_ok df ->
  Forall (fun x => (0 < x)%Q) (map net_pnl (filter is_winner df)).
Proof.
  induction 1 as [| r df Hr Hdf IH]; simpl; [constructor |].
  destruct (is_winner r) eqn:E; simpl; [| exact IH].
  constructor; [apply Hr; exact E | exact IH].
Qed.

Lemma losers_nonpositive (df : TradeFrame) :
  Forall winner_flag_ok df ->
  Forall (fun x => (x <= 0)%Q)
         (map net_pnl (filter (fun r => negb (is_winner r)) df)).
Proof.
  induction 1 as [| r df Hr Hdf IH]; simpl; [constructor |].
  destruct (is_winner r) eqn:E; simpl; [exact IH |].
  constructor; [| exact IH].
  apply Qnot_lt_le. intros Hlt. apply Hr in Hlt. congruence.
Qed.

(** A row of the ledger's frame shows one trade of the ledger. *)
Lemma to_dataframe_rows (led : TradeLedger.Ledger) (r : TradeRow) :
  In r (to_dataframe led) ->
  exists t, In t (TradeLedger.trades led) /\
            exit_bar r = TradeLedger.exit_bar t /\
            net_pnl r = TradeLedger.net_pnl t /\
            is_winner r = TradeLedger.is_winner t.
Proof.
  unfold to_dataframe.
  destruct (TradeLedger.trades led) as [| t0 l]; [contradiction |].
  intros H. apply in_map_iff in H. destruct H as (t & <- & Hin).
  exists t. auto.
Qed.

Lemma run_frame_flags (bars : list Bar) (signals : list Z)
  (st : BacktestState) :
  run bars signals = inr st ->
  Forall winner_flag_ok (to_dataframe (ledger st)).
Proof.
  intros H. apply Forall_forall. intros r Hr.
  destruct (to_dataframe_rows _ _ Hr) as (t & Hin & _ & En & Ew).
  pose proof (run_ledger _ _ _ _ _ H) as Hall.
  rewrite Forall_forall in Hall.
  destruct (Hall t Hin) as (b & _ & id & d & eb & ep & xp & ->).
  unfold winner_flag_ok. rewrite En, Ew.
  apply (build_trade_pnl_exact id d eb (ts_event b) ep xp).
Qed.

(** X28.  For the trades of a finished backtest (the whole frame of the
    ledger, or any selection of its rows such as the in-sample or the
    out-of-sample trades), gross_profit is not negative and gross_loss
    not positive; profit_factor is infinite exactly when gross_loss is
    zero (no losing trade lost money) and is otherwise a number that is
    not negative; avg_win is NaN exactly when there is no winner and
    otherwise positive. *)
Theorem profit_factor_and_gross_signs (bars : list Bar) (signals : list Z)
  (st : BacktestState) (trade_df : TradeFrame)
  (equity : Series Q) (s : PerformanceSummary) :
  run bars signals = inr st ->
  Forall (fun r => In r (to_dataframe (ledger st))) trade_df ->
  performance trade_df equity = inr s ->
  (0 <= gross_profit s)%Q /\ (gross_loss s <= 0)%Q /\
  match profit_factor s with
  | inf => (gross_loss s == 0)%Q
  | fin q => (gross_loss s < 0)%Q /\ (0 <= q)%Q
  | nan => False
  end /\
  match avg_win s with
  | nan => winning_trades s = 0%nat
  | fin a => (0 < winning_trades s)%nat /\ (0 < a)%Q
  | inf => False
  end.
Proof.
  intros Hrun Hrows H.
  assert (Hflag : Forall winner_flag_ok trade_df).
  { pose proof (run_frame_flags _ _ _ Hrun) as Hall.
    rewrite Forall_forall in *. intros r Hr. apply Hall, Hrows, Hr. }
  destruct (compute_performance_values _ _ _ H)
    as (_ & _ & Ew & _ & _ & Egp & Egl & _ & _ & Epf & Eaw & _).
  pose proof (winners_positive _ Hflag) as Hwin.
  pose proof (losers_nonpositive _ Hflag) as Hlose.
  assert (Hgp : (0 <= gross_profit s)%Q).
  { rewrite Egp. apply col_sum_nonneg. eapply Forall_impl; [| exact Hwin].
    intros a Ha. simpl in Ha. lra. }
  assert (Hgl : (gross_loss s <= 0)%Q).
  { rewrite Egl. apply col_sum_nonpos. exact Hlose. }
  split; [exact Hgp |]. split; [exact Hgl |]. split.
  - rewrite Epf. destruct (Qeq_bool (gross_loss s) 0) eqn:E; simpl.
    + apply Qeq_bool_iff in E. exact E.
    + assert (Hne : ~ (gross_loss s == 0)%Q).
      { intros Hz. apply Qeq_bool_iff in Hz. congruence. }
      assert (Hlt : (gross_loss s < 0)%Q) by lra.
      split; [exact Hlt |].
      assert (Habs : (0 < Qabs (gross_loss s))%Q).
      { rewrite Qabs_neg by exact Hgl. lra. }
      unfold Qdiv.
      assert (Hinv : (0 < / Qabs (gross_loss s))%Q)
        by (apply Qinv_lt_0_compat; exact Habs).
      nra.
  - rewrite Eaw, Ew. destruct (filter is_winner trade_df) as [| r w] eqn:Ef.
    + reflexivity.
    + split; [simpl; lia |].
      unfold col_mean. rewrite length_map.
      assert (Hs : (0 < col_sum (map net_pnl (r :: w)))%Q)
        by (apply col_sum_pos; exact Hwin).
      assert (Hn : (0 < inject_Z (Z.of_nat (List.length (r :: w))))%Q)
        by (apply inject_nat_pos; simpl; lia).
      unfold Qdiv.
      assert (Hinv : (0 < / inject_Z (Z.of_nat (List.length (r :: w))))%Q)
        by (apply Qinv_lt_0_compat; exact Hn).
      nra.
Qed.

(** A curve that starts at 0 has no CAGR. *)
Lemma compute_cagr_zero_start (equity : Series Q) :
  (forall e0, hd_error (values equity) = Some e0 -> (e0 == 0)%Q) ->
  _compute_cagr float_pow equity = nan.
Proof.
  intros H. unfold _compute_cagr.
  destruct (List.length equity <? 2)%nat; [reflexivity |].
  destruct (values equity) as [| start rest]; [reflexivity |].
  destruct (rev (start :: rest)); [reflexivity |].
  specialize (H start eq_refl). apply Qeq_bool_iff in H. rewrite H.
  reflexivity.
Qed.

End PerformanceProperties.
(* ================================================================== *)
(** * From the run to the equity curve *)

Section CurveOfARun.
Import Pandas LedgerFrame Equity Performance.
Variable ROLL_CLOSE_SLIPPAGE_TICKS : Z.
Variable ROLL_FREEZE_BARS_POST : Z.
Variable float_pow : Q -> Q -> Performance.PyFloat.

Abbreviation force_close := (_force_close_at_end ROLL_CLOSE_SLIPPAGE_TICKS).
Abbreviation step := (bar_step ROLL_CLOSE_SLIPPAGE_TICKS ROLL_FREEZE_BARS_POST).
Abbreviation loop := (bar_loop ROLL_CLOSE_SLIPPAGE_TICKS ROLL_FREEZE_BARS_POST).
Abbreviation run := (run_backtest ROLL_CLOSE_SLIPPAGE_TICKS ROLL_FREEZE_BARS_POST).

Lemma closed_at_exit_bar (ts : Timestamp) (t : TradeLedger.Trade) :
  closed_at ts t -> TradeLedger.exit_bar t = ts.
Proof. intros (id & d & eb & ep & xp & ->). reflexivity. Qed.

(** A bar met with nothing queued records no trade and leaves the
    position as it is. *)
Lemma step_without_pending (signals : list Z) (i : nat) (bar : Bar)
  (st st' : BacktestState) :
  state_ok st -> pending st = None -> step signals i bar st = inr st' ->
  ledger st' = ledger st /\ position st' = position st.
Proof.
  intros Hok Hp H. rewrite (step_unfold _ _ _ _ _ _ Hok) in H.
  unfold after_step1 in H. rewrite Hp in H.
  destruct (after_pending_state_ok _ _ _ _ _ _ Hok Hp H) as (_ & E1 & E2 & _).
  auto.
Qed.

(** No trade of a run exits on the first bar. *)
Lemma run_ledger_after_first (b0 : Bar) (rest : list Bar) (signals : list Z)
  (st : BacktestState) :
  run (b0 :: rest) signals = inr st ->
  Forall (fun t => exists b, In b rest /\ closed_at (ts_event b) t)
         (TradeLedger.trades (ledger st)).
Proof.
  intros H. destruct (run_inr _ _ _ _ _ H) as (sl & Hl & Hok & Hf).
  simpl in Hl. bind_dest Hl.
  destruct (step_without_pending _ _ _ _ _ default_state_ok eq_refl Ha)
    as [El0 Ep0].
  assert (Hok1 : state_ok a)
    by (eapply step_state_ok; [apply default_state_ok | exact Ha]).
  destruct (loop_ledger _ _ _ _ _ _ _ Hok1 Hl) as (l & El & Fl).
  rewrite El0 in El. simpl in El.
  destruct (is_flat (position sl)) eqn:Ef.
  - rewrite (force_close_flat _ _ _ Ef) in Hf. inversion Hf. subst st.
    rewrite El. exact Fl.
  - assert (Hne : b0 :: rest <> []) by discriminate.
    destruct (iloc_last_nonempty _ Hne) as [b Hb].
    destruct (force_close_held ROLL_CLOSE_SLIPPAGE_TICKS sl _ b Hok Ef Hb)
      as (ep & eb & _ & _ & E).
    rewrite E in Hf. inversion Hf. subst st. simpl. rewrite El.
    apply Forall_app. split; [exact Fl |].
    constructor; [| constructor].
    exists b. split; [| unfold closed_at; eauto 10].
    destruct (iloc_last_In _ _ Hb) as [front Efront].
    destruct front as [| x front].
    + simpl in Efront. injection Efront as _ ->. simpl in Hl.
      injection Hl as <-. rewrite Ep0 in Ef. discriminate.
    + simpl in Efront. injection Efront as _ ->.
      apply in_or_app. right. left. reflexivity.
Qed.

Lemma StronglySorted_lt_NoDup (l : list Z) : StronglySorted Z.lt l -> NoDup l.
Proof.
  induction 1 as [| x l Hs IH Hx]; constructor; [| exact IH].
  intros Hin. rewrite Forall_forall in Hx. specialize (Hx x Hin). lia.
Qed.

(** X29.  The equity curve of a whole run, as the pipeline builds it
    (from the ledger's frame, on the bars' index, initial capital 0):
    [build_equity_curve] does not fail, the curve is on the bar index,
    the exit bar of every trade is on that index, and with strictly
    increasing timestamps the index has no duplicates (so no PnL is lost
    or counted twice), the curve starts at 0 because no trade can exit
    on the first bar, and [_compute_cagr] of it is therefore NaN. *)
Theorem full_run_equity_curve (bars : list Bar) (signals : list Z)
  (st : BacktestState) :
  strictly_chronological bars ->
  run bars signals = inr st ->
  exists equity : Series Q,
    build_equity_curve (to_dataframe (ledger st)) (bar_index bars) 0 =
      inr equity /\
    index equity = bar_index bars /\
    NoDup (index equity) /\
    Forall (fun r => In (exit_bar r) (index equity))
           (to_dataframe (ledger st)) /\
    (forall e0, hd_error (values equity) = Some e0 -> (e0 == 0)%Q) /\
    _compute_cagr float_pow equity = nan.
Proof.
  intros Hs H.
  set (df := to_dataframe (ledger st)).
  assert (Hexit : Forall (fun r => In (exit_bar r) (bar_index bars)) df).
  { apply Forall_forall. intros r Hr.
    destruct (to_dataframe_rows _ _ Hr) as (t & Hin & Ex & _).
    pose proof (run_ledger _ _ _ _ _ H) as Hall.
    rewrite Forall_forall in Hall. destruct (Hall t Hin) as (b & Hb & Hc).
    rewrite Ex, (closed_at_exit_bar _ _ Hc). apply in_map. exact Hb. }
  assert (Hbuild : exists equity,
             build_equity_curve df (bar_index bars) 0 = inr equity).
  { unfold build_equity_curve. destruct df as [| r df']; [eauto |].
    destruct (bar_index bars) as [| b idx] eqn:E; [| eauto].
    inversion Hexit; subst. contradiction. }
  destruct Hbuild as [equity He]. exists equity.
  destruct (build_equity_curve_values _ _ _ _ He) as [Hi Hv].
  assert (Hzero : forall e0, hd_error (values equity) = Some e0 -> (e0 == 0)%Q).
  { rewrite Hv. destruct bars as [| b0 rest].
    - destruct df; discriminate.
    - assert (Hp : pnl_at df (ts_event b0) = 0%Q).
      { apply pnl_at_no_exit. apply Forall_forall. intros r Hr.
        destruct (to_dataframe_rows _ _ Hr) as (t & Hin & Ex & _).
        pose proof (run_ledger_after_first _ _ _ _ H) as Hall.
        rewrite Forall_forall in Hall. destruct (Hall t Hin) as (b & Hb & Hc).
        rewrite Ex, (closed_at_exit_bar _ _ Hc).
        unfold strictly_chronological in Hs. simpl in Hs.
        inversion Hs as [| ? ? _ Hlt]; subst.
        rewrite Forall_forall in Hlt.
        specialize (Hlt (ts_event b) (in_map ts_event _ _ Hb)). lia. }
      simpl. destruct df as [| r df'].
      + intros e0 [= <-]. reflexivity.
      + simpl. rewrite Hp. intros e0 [= <-]. ring. }
  split; [exact He |]. split; [exact Hi |]. split.
  { rewrite Hi. apply StronglySorted_lt_NoDup. exact Hs. }
  split; [rewrite Hi; exact Hexit |]. split; [exact Hzero |].
  apply compute_cagr_zero_start. exact Hzero.
Qed.

Lemma filter_all_true {A : Type} (p : A -> bool) (l : list A) :
  Forall (fun a => p a = true) l -> filter p l = l.
Proof.
  induction 1 as [| a l Ha Hl IH]; simpl; [reflexivity |].
  rewrite Ha, IH. reflexivity.
Qed.

Lemma filter_all_false {A : Type} (p : A -> bool) (l : list A) :
  Forall (fun a => p a = false) l -> filter p l = [].
Proof.
  induction 1 as [| a l Ha Hl IH]; simpl; [reflexivity |].
  rewrite Ha. exact IH.
Qed.

(** X30.  [split_equity] cuts a curve with a chronological index in
    two without losing or reordering a bar: the in-sample part followed
    by the out-of-sample part is the curve itself, every in-sample bar
    is before the split timestamp and no out-of-sample bar is. *)
Theorem split_equity_partitions (equity : Series Q) (split_ts : Timestamp) :
  StronglySorted Z.le (index equity) ->
  equity = fst (split_equity equity split_ts) ++
           snd (split_equity equity split_ts) /\
  Forall (fun row => fst row < split_ts)
         (fst (split_equity equity split_ts)) /\
  Forall (fun row => split_ts <= fst row)
         (snd (split_equity equity split_ts)).
Proof.
  unfold split_equity. cbn [fst snd]. intros Hs. split; [| split].
  - induction equity as [| [t v] rest IH]; [reflexivity |].
    simpl in Hs. inversion Hs as [| ? ? Hs' Hall]; subst.
    cbn [filter fst]. destruct (t <? split_ts) eqn:E.
    + apply Z.ltb_lt in E.
      assert (E' : (split_ts <=? t) = false) by (apply Z.leb_gt; exact E).
      rewrite E'. simpl. f_equal. apply IH. exact Hs'.
    + apply Z.ltb_ge in E.
      assert (E' : (split_ts <=? t) = true) by (apply Z.leb_le; exact E).
      rewrite E'.
      assert (Hlate : Forall (fun row : Timestamp * Q => split_ts <= fst row) rest).
      { apply Forall_forall. intros row Hrow. rewrite Forall_forall in Hall.
        specialize (Hall (fst row) (in_map fst _ _ Hrow)). lia. }
      rewrite filter_all_false, filter_all_true; [reflexivity | |].
      * eapply Forall_impl; [| exact Hlate]. intros row Hrow. simpl in Hrow.
        apply Z.leb_le. exact Hrow.
      * eapply Forall_impl; [| exact Hlate]. intros row Hrow. simpl in Hrow.
        apply Z.ltb_ge. exact Hrow.
  - apply Forall_forall. intros row Hrow. apply filter_In in Hrow.
    apply Z.ltb_lt. apply Hrow.
  - apply Forall_forall. intros row Hrow. apply filter_In in Hrow.
    apply Z.leb_le. apply Hrow.
Qed.

End CurveOfARun.
(* ================================================================== *)
(** * Instances *)

Lemma swing_bars_strictly_chronological : strictly_chronological swing_bars.
Proof.
  unfold strictly_chronological, bar_index. simpl.
  repeat (constructor; [| repeat constructor; lia]). constructor.
Qed.

(** X6, witness: the reversal run of [swing_bars], two trades. *)
Lemma trades_do_not_overlap_witness :
  exists st,
    run_backtest 2 3 swing_bars swing_signals = inr st /\
    map TradeLedger.entry_bar (TradeLedger.trades (ledger st)) = [1; 4] /\
    map TradeLedger.exit_bar (TradeLedger.trades (ledger st)) = [4; 5] /\
    ForallOrdPairs
      (fun a b => TradeLedger.exit_bar a <= TradeLedger.entry_bar b)
      (TradeLedger.trades (ledger st)).
Proof.
  assert (Hch : chronological swing_bars).
  { unfold chronological. simpl.
    repeat (constructor; [| repeat constructor; lia]). constructor. }
  eexists. split; [vm_compute; reflexivity |].
  split; [reflexivity |]. split; [reflexivity |].
  refine (proj2 (trades_do_not_overlap 2 3 swing_bars swing_signals _ Hch _)).
  vm_compute. reflexivity.
Defined.

(** X7, witness: the roll close of [roll_close_state] is executed on a
    bar inside the freeze window, and nothing else happens. *)
Lemma frozen_bar_discards_signal_witness :
  exists st',
    (forall (signals : list Z) (i : nat),
        bar_step 2 3 signals i (bar_at 6 (11000 # 10000) false)
                 roll_close_state = inr st') /\
    pending st' = None /\
    roll_freeze_remaining st' = 1 /\
    current_direction (position st') = FLAT /\
    List.length (TradeLedger.trades (ledger st')) = 1%nat.
Proof.
  assert (Hok : state_ok roll_close_state).
  { split; [exact I |]. simpl. unfold pending_ok. simpl.
    split; [reflexivity | discriminate]. }
  assert (Hfr : 0 < roll_freeze_remaining roll_close_state) by reflexivity.
  destruct (frozen_bar_discards_signal 2 3 (bar_at 6 (11000 # 10000) false)
              roll_close_state Hok eq_refl Hfr)
    as (st' & Hstep & Hp & Hf & Hpos & Hled).
  exists st'. split; [exact Hstep |]. split; [exact Hp |].
  split; [exact Hf |]. split.
  - rewrite Hpos. reflexivity.
  - rewrite Hled. reflexivity.
Defined.

(** X8, witness: [long_state] meets a short signal on bar 2 and is
    reversed at the open of bar 3. *)
Lemma reversal_reenters_at_exit_price_witness :
  exists st1 st2 t,
    bar_step 2 3 [-1; 0] 0 (bar_at 2 (11020 # 10000) false) long_state
      = inr st1 /\
    bar_step 2 3 [-1; 0] 1 (bar_at 3 (11030 # 10000) false) st1 = inr st2 /\
    TradeLedger.trades (ledger st2) = [t] /\
    current_direction (position st2) = SHORT /\
    entry_bar st2 = Some 3 /\
    entry_price st2 = Some (TradeLedger.exit_price t).
Proof.
  assert (Hok : state_ok long_state) by (split; exact I).
  assert (Hfr : roll_freeze_remaining long_state <= 0) by (simpl; lia).
  pose (s1 := match bar_step 2 3 [-1; 0] 0 (bar_at 2 (11020 # 10000) false)
                       long_state with
               | inr s => s
               | inl _ => long_state
               end).
  pose (s2 := match bar_step 2 3 [-1; 0] 1 (bar_at 3 (11030 # 10000) false)
                       s1 with
               | inr s => s
               | inl _ => long_state
               end).
  assert (H1 : bar_step 2 3 [-1; 0] 0 (bar_at 2 (11020 # 10000) false)
                 long_state = inr s1) by (vm_compute; reflexivity).
  assert (H2 : bar_step 2 3 [-1; 0] 1 (bar_at 3 (11030 # 10000) false) s1
               = inr s2) by (vm_compute; reflexivity).
  destruct (reversal_reenters_at_exit_price 2 3 [-1; 0] 0%nat
              (bar_at 2 (11020 # 10000) false)
              (bar_at 3 (11030 # 10000) false) LONG
              long_state s1 s2 Hok eq_refl eq_refl (or_introl eq_refl)
              eq_refl Hfr eq_refl H1 H2)
    as (t & Ht & _ & Hx & _ & Heb & Hep).
  exists s1, s2, t. split; [exact H1 |]. split; [exact H2 |].
  split; [exact Ht |]. split; [reflexivity |].
  split; [rewrite Heb, Hx; reflexivity | exact Hep].
Defined.

(** X10, witness: the crossing columns cut after three rows. *)
Lemma crossover_signals_no_lookahead_witness :
  exists sig,
    Crossover.generate_crossover_signals cross_fast cross_slow = inr sig /\
    Pandas.values sig = [0; 0; 1; 0; -1] /\
    Crossover.generate_crossover_signals (firstn 3 cross_fast)
                                         (firstn 3 cross_slow)
      = inr (firstn 3 sig).
Proof.
  eexists. split; [vm_compute; reflexivity |]. split; [reflexivity |].
  apply (crossover_signals_no_lookahead cross_fast cross_slow _ 3).
  vm_compute. reflexivity.
Defined.

(** X11, witness: rows 2 and 3 of the crossing columns, signals +1
    and 0. *)
Lemma crossover_signals_never_repeat_witness :
  exists sig,
    Crossover.generate_crossover_signals cross_fast cross_slow = inr sig /\
    nth_error (Pandas.values sig) 2 = Some 1 /\
    nth_error (Pandas.values sig) 3 = Some 0 /\
    (1 = 0 \/ 0 = 0 \/ 0 = - (1)).
Proof.
  eexists. split; [vm_compute; reflexivity |].
  split; [reflexivity |]. split; [reflexivity |].
  refine (crossover_signals_never_repeat cross_fast cross_slow _ 2 1 0 _ _ _);
    vm_compute; reflexivity.
Defined.

(** X13, witness: three prices of 1.1, period 20. *)
Lemma compute_ema_of_flat_prices_witness :
  exists ema,
    Ema.compute_ema flat_prices 20 = inr ema /\
    Forall (fun v => match v with
                     | Some y => (y == 11 # 10)%Q
                     | None => True
                     end) (Pandas.values ema).
Proof.
  eexists. split; [vm_compute; reflexivity |].
  apply (compute_ema_of_flat_prices flat_prices 20 _ (11 # 10)).
  - vm_compute. reflexivity.
  - repeat constructor.
Defined.

(** X14, witness: the 202 prices of [ramp_prices] cut after 201 rows. *)
Lemma compute_ema_no_lookahead_witness :
  exists ema,
    Ema.compute_ema ramp_prices 20 = inr ema /\
    Ema.compute_ema (firstn 201 ramp_prices) 20 = inr (firstn 201 ema).
Proof.
  eexists. split; [vm_compute; reflexivity |].
  apply (compute_ema_no_lookahead ramp_prices 20 _ 201).
  - vm_compute. reflexivity.
  - apply Nat.leb_le. vm_compute. reflexivity.
Defined.

(** X15, witness: the default EMA pair of [ramp_prices]. *)
Lemma no_signal_during_warmup_witness :
  exists ema_fast ema_slow sig,
    Ema.compute_ema_pair ramp_prices None None = inr (ema_fast, ema_slow) /\
    Crossover.generate_crossover_signals ema_fast ema_slow = inr sig /\
    Pandas.index sig = Pandas.index ramp_prices /\
    forall (i : nat) (z : Z),
      (i <= Ema.WARMUP_BARS)%nat ->
      nth_error (Pandas.values sig) i = Some z -> z = 0.
Proof.
  pose (p := match Ema.compute_ema_pair ramp_prices None None with
             | inr p => p
             | inl _ => ([], [])
             end).
  assert (H : Ema.compute_ema_pair ramp_prices None None
              = inr (fst p, snd p)) by (vm_compute; reflexivity).
  destruct (no_signal_during_warmup ramp_prices None None _ _ H)
    as (sig & Hg & Hi & Hw).
  exists (fst p), (snd p), sig. split; [exact H |]. split; [exact Hg |]. split; [exact Hi |].
  apply Hw. apply Nat.leb_le. vm_compute. reflexivity.
Defined.

(** X18, witness: the id changes from 7 to 8 on row 2 of [id_column],
    and the row is flagged; the ids [2 ^ 53] and [2 ^ 53 + 1] of
    [large_id_column] have the same float, and the row is not. *)
Lemma roll_flag_iff_id_changes_witness :
  nth_error
    (Pandas.values
       (RollManager.annotate_rolls (RollManager.with_instrument_id id_column)))
    2 = Some true /\
  nth_error
    (Pandas.values
       (RollManager.annotate_rolls
          (RollManager.with_instrument_id large_id_column)))
    1 = Some false.
Proof.
  split.
  - refine (proj2 (roll_flag_iff_id_changes id_column 1 7 8 eq_refl eq_refl)
                  _ _); vm_compute; discriminate.
  - exact (proj1 (roll_flag_iff_id_changes large_id_column 0 (2 ^ 53)
                    (2 ^ 53 + 1) eq_refl eq_refl)).
Defined.

(** X20, witness: the curve of [sample_frame] for a funded account
    stays at 1000 from bar 1 to bar 2, where no trade exits, and falls
    from bar 4 to bar 5, where the loser exits. *)
Lemma equity_curve_steps_witness :
  exists equity,
    Equity.build_equity_curve sample_frame sample_index 1000 = inr equity /\
    Pandas.values equity = Pandas.values sample_curve /\
    (1000 == 1000)%Q /\ (840 <= 1045)%Q.
Proof.
  eexists. split; [vm_compute; reflexivity |]. split; [reflexivity |].
  pose proof (proj2 (equity_curve_steps sample_frame sample_index 1000 _
                       eq_refl)) as H.
  split.
  - refine (proj1 (H 1%nat 2 1000%Q 1000%Q eq_refl eq_refl eq_refl) _).
    unfold sample_frame. repeat constructor; simpl; lia.
  - refine (proj1 (proj2 (proj2
              (H 4%nat 5 1045%Q 840%Q eq_refl eq_refl eq_refl))) _).
    apply Qle_bool_iff. vm_compute. reflexivity.
Defined.

(** X22, witness: on bar 5 of [sample_curve] the peak is the 1045 of
    bar 4. *)
Lemma peak_is_running_maximum_witness :
  exists r,
    Drawdown.compute_drawdown sample_curve = inr r /\
    In 1045%Q (firstn 6 (Pandas.values sample_curve)) /\
    Forall (fun x => (x <= 1045)%Q) (firstn 6 (Pandas.values sample_curve)).
Proof.
  eexists. split; [vm_compute; reflexivity |].
  refine (proj2 (proj2 (peak_is_running_maximum sample_curve _ _)) 5%nat
                1045%Q _); vm_compute; reflexivity.
Defined.

(** X24, witness: [sample_curve] falls on its last bar. *)
Lemma no_drawdown_iff_curve_never_falls_witness :
  exists r,
    Drawdown.compute_drawdown sample_curve = inr r /\
    ((Drawdown.max_drawdown_usd r == 0)%Q <->
     Sorted Qle (Pandas.values sample_curve)).
Proof.
  eexists. split; [vm_compute; reflexivity |].
  apply (no_drawdown_iff_curve_never_falls sample_curve).
  vm_compute. reflexivity.
Defined.

(** X25, witness: the peaks of [sample_curve] are not zero. *)
Lemma max_drawdown_pct_nan_iff_all_peaks_zero_witness :
  exists r,
    Drawdown.compute_drawdown sample_curve = inr r /\
    (Drawdown.max_drawdown_pct r = None <->
     Forall (fun p => (p == 0)%Q) (Pandas.values (Drawdown.peak_series r))).
Proof.
  eexists. split; [vm_compute; reflexivity |].
  apply (max_drawdown_pct_nan_iff_all_peaks_zero sample_curve).
  vm_compute. reflexivity.
Defined.

(** X26, witness: [sample_curve] starts at 1000; its deepest relative
    drawdown is -205 / 1045. *)
Lemma max_drawdown_pct_of_funded_curve_witness :
  exists r m,
    Drawdown.compute_drawdown sample_curve = inr r /\
    Drawdown.max_drawdown_pct r = Some m /\ (m <= 0)%Q.
Proof.
  destruct (Drawdown.compute_drawdown sample_curve) as [e | r] eqn:H;
    [vm_compute in H; discriminate |].
  destruct (max_drawdown_pct_of_funded_curve sample_curve r 1000 H eq_refl
              eq_refl) as (m & Hm & Hle & _).
  exists r, m. split; [reflexivity |]. split; [exact Hm | exact Hle].
Defined.

(** X28, witness: the two trades of the reversal run, one winner and
    one loser. *)
Lemma profit_factor_and_gross_signs_witness :
  exists st s,
    run_backtest 2 3 swing_bars swing_signals = inr st /\
    Performance.compute_performance (fun _ _ => Performance.fin 1) (fun x => x)
      (fun _ => None) (LedgerFrame.to_dataframe (ledger st)) [] = inr s /\
    (0 <= Performance.gross_profit s)%Q /\
    (Performance.gross_loss s <= 0)%Q.
Proof.
  destruct (run_backtest 2 3 swing_bars swing_signals) as [e | st] eqn:Hrun;
    [vm_compute in Hrun; discriminate |].
  destruct (Performance.compute_performance (fun _ _ => Performance.fin 1)
              (fun x => x) (fun _ => None)
              (LedgerFrame.to_dataframe (ledger st)) []) as [e | s] eqn:Hperf.
  { exfalso. unfold Performance.compute_performance in Hperf.
    destruct (LedgerFrame.to_dataframe (ledger st)) eqn:Hdf; [| discriminate].
    vm_compute in Hrun. injection Hrun as <-. vm_compute in Hdf.
    discriminate. }
  exists st, s. split; [reflexivity |]. split; [exact Hperf |].
  assert (Hrows : Forall (fun r => In r (LedgerFrame.to_dataframe (ledger st)))
                         (LedgerFrame.to_dataframe (ledger st))).
  { apply Forall_forall. auto. }
  destruct (profit_factor_and_gross_signs 2 3 _ _ _ _ _ _ _ _ _ Hrun Hrows
              Hperf) as (Hgp & Hgl & _).
  split; [exact Hgp | exact Hgl].
Defined.

(** X29, witness: the equity curve of the reversal run, which gains 45
    on bar 4 and loses 205 on bar 5, up to the rounding of the fills. *)
Lemma full_run_equity_curve_witness :
  exists st equity,
    run_backtest 2 3 swing_bars swing_signals = inr st /\
    Equity.build_equity_curve (LedgerFrame.to_dataframe (ledger st))
      (bar_index swing_bars) 0 = inr equity /\
    Forall2 (fun v e => (Qabs (v - e) <= 1 # 1000000000)%Q)
            (Pandas.values equity) [0; 0; 0; 0; 45; -160]%Q /\
    Performance._compute_cagr (fun _ _ => Performance.fin 1) equity = Performance.nan.
Proof.
  pose (st := match run_backtest 2 3 swing_bars swing_signals with
              | inr s => s
              | inl _ => BacktestState_default
              end).
  assert (Hrun : run_backtest 2 3 swing_bars swing_signals = inr st)
    by (vm_compute; reflexivity).
  destruct (full_run_equity_curve 2 3 (fun _ _ => Performance.fin 1) swing_bars swing_signals
              st swing_bars_strictly_chronological Hrun)
    as (equity & He & _ & _ & _ & _ & Hc).
  exists st, equity. split; [exact Hrun |]. split; [exact He |].
  split; [| exact Hc].
  vm_compute in He. injection He as <-.
  repeat constructor; apply Qle_bool_iff; vm_compute; reflexivity.
Defined.

(** X30, witness: [sample_curve] split at bar 4. *)
Lemma split_equity_partitions_witness :
  sample_curve =
    fst (Equity.split_equity sample_curve 4) ++
    snd (Equity.split_equity sample_curve 4) /\
  List.length (fst (Equity.split_equity sample_curve 4)) = 4%nat.
Proof.
  split; [| reflexivity].
  refine (proj1 (split_equity_partitions sample_curve 4 _)).
  unfold sample_curve. simpl.
  repeat (constructor; [| repeat constructor; lia]). constructor.
Defined.
